(** * pyAL: connection-matrix initialisation and digit-queue assembly

    A shallow embedding of

      - [support_functions/connect_mat.py], function
        [initializeConnectionMatrices], lines 24-133, and
      - [runMothLearnerMNIST.py], the digit-queue assembly loop,
        lines 196-222, and the train and validation sets built from the
        queue, lines 238-252,

    together with the properties the specification states about them and
    further properties of the same code.

    Conventions of the embedding.

      - A numpy [float64] array is a shape together with its buffer in C
        (row-major) order; the numbers are exact rationals ([Q]).  Rounding,
        infinities and NaN are not modelled; the one place where the source
        can divide a numpy scalar by zero (line 91) is written out.
        Equality of entries is [Qeq] ([==]), the equality of rationals.
      - A boolean array is stored with entries 0 and 1, the values it takes
        in arithmetic.
      - The function mutates its argument [mP] and the global numpy random
        state, and can raise.  It is a computation in a state-and-exception
        monad in which the state reached so far survives an exception, as the
        attributes already assigned to [mP] do in Python.
      - Random draws come from a generator the theorems quantify over. *)

From Stdlib Require Import ZArith QArith Qround Qabs List Bool Lia Lqa PeanoNat.
Import ListNotations.

Open Scope Q_scope.

(* ------------------------------------------------------------------ *)
(** * Rationals: boolean comparisons and clipping                       *)
(* ------------------------------------------------------------------ *)

Definition Qlt_bool (x y : Q) : bool := negb (Qle_bool y x).

(** [x.clip(min=lo)] and [x.clip(max=hi)] on one entry. *)
Definition clip_min (lo x : Q) : Q := if Qlt_bool x lo then lo else x.
Definition clip_max (hi x : Q) : Q := if Qlt_bool hi x then hi else x.

(** The value of a boolean in arithmetic. *)
Definition Qof_bool (b : bool) : Q := if b then 1 else 0.

(* ------------------------------------------------------------------ *)
(** * Lists as buffers                                                  *)
(* ------------------------------------------------------------------ *)

(** Elementwise combination of two buffers of the same length. *)
Fixpoint map2 {A B C} (f : A -> B -> C) (xs : list A) (ys : list B) : list C :=
  match xs, ys with
  | x :: xs', y :: ys' => f x y :: map2 f xs' ys'
  | _, _ => []
  end.

(** Number of entries of a buffer that satisfy a test. *)
Definition count {A} (p : A -> bool) (l : list A) : nat := length (filter p l).

(* ------------------------------------------------------------------ *)
(** * numpy arrays                                                      *)
(* ------------------------------------------------------------------ *)

Record ndarray := mk_nd { shape : list nat; data : list Q }.

Definition size_of (sh : list nat) : nat := fold_right Nat.mul 1%nat sh.

(** Entry [(i,j)] of a 2-D array with [c] columns, entry [(i,j,k)] of a 3-D
    array of shape [(_, n1, n2)]. *)
Definition get2 (c : nat) (buf : list Q) (i j : nat) : Q := nth (i * c + j) buf 0.
Definition get3 (n1 n2 : nat) (buf : list Q) (i j k : nat) : Q :=
  nth ((i * n1 + j) * n2 + k) buf 0.

Definition ncols (a : ndarray) : nat := nth 1 (shape a) 1%nat.
Definition nrows (a : ndarray) : nat := nth 0 (shape a) 1%nat.
Definition entry (a : ndarray) (i j : nat) : Q := get2 (ncols a) (data a) i j.

(** A 2-D array given by its entries. *)
Definition tab2 (r c : nat) (f : nat -> nat -> Q) : ndarray :=
  mk_nd [r; c] (map (fun k => f (k / c)%nat (k mod c)%nat) (seq 0 (r * c))).

(** Elementwise operations; the result has the shape of the first operand
    (in the source both operands always have the same shape). *)
Definition nd_map (f : Q -> Q) (a : ndarray) : ndarray :=
  mk_nd (shape a) (map f (data a)).
Definition nd_map2 (f : Q -> Q -> Q) (a b : ndarray) : ndarray :=
  mk_nd (shape a) (map2 f (data a) (data b)).

Definition nd_zeros (sh : list nat) : ndarray := mk_nd sh (repeat 0 (size_of sh)).
Definition nd_ones (sh : list nat) : ndarray := mk_nd sh (repeat 1 (size_of sh)).

(** [a < p] for a scalar [p]: a boolean array. *)
Definition nd_lt_scalar (a : ndarray) (p : Q) : ndarray :=
  nd_map (fun x => Qof_bool (Qlt_bool x p)) a.

Definition all_entries (P : Q -> Prop) (a : ndarray) : Prop := Forall P (data a).

(* ------------------------------------------------------------------ *)
(** * Python exceptions, the store and the random state                 *)
(* ------------------------------------------------------------------ *)

Inductive PyError : Type :=
  TypeError | ValueError | ZeroDivisionError | AttributeError | IndexError.

Inductive result (A : Type) : Type :=
| Ok (a : A)
| Raise (e : PyError).
Arguments Ok {A} a.
Arguments Raise {A} e.

(** The array variables: the attributes [initializeConnectionMatrices] sets on
    [mP], its array-valued local variables ([counts] to [P2KconnMatrix]), and
    the driver's [digitQueues]. *)
Inductive name : Type :=
| F2Rbinary | F2R | Rspont | R2G | R2P | R2L | R2PIcol
| L2G | L2R | L2P | L2L | L2PI | P2K
| counts | rand_mat | randList | gabaSens | L2GgabaSens | P2KconnMatrix
| digitQueues.

Definition name_idx (x : name) : nat :=
  match x with
  | F2Rbinary => 0 | F2R => 1 | Rspont => 2 | R2G => 3 | R2P => 4 | R2L => 5
  | R2PIcol => 6 | L2G => 7 | L2R => 8 | L2P => 9 | L2L => 10 | L2PI => 11
  | P2K => 12 | counts => 13 | rand_mat => 14 | randList => 15
  | gabaSens => 16 | L2GgabaSens => 17 | P2KconnMatrix => 18
  | digitQueues => 19
  end.

Definition name_eqb (x y : name) : bool := Nat.eqb (name_idx x) (name_idx y).

Definition Env : Type := name -> option ndarray.

Definition empty_env : Env := fun _ => None.
Definition upd (e : Env) (x : name) (a : ndarray) : Env :=
  fun y => if name_eqb x y then Some a else e y.

(** [rng] is the number of variates drawn so far from the global random
    state. *)
Record State : Type := mk_state { env : Env; rng : nat }.

(** The random generator: the raw output behind the [k]-th variate, and the
    standard gamma variate of a given shape parameter behind it, which is a
    non-negative number. *)
Record Generator : Type := mk_gen {
  raw : nat -> Z;
  std_gamma : nat -> Q -> N * positive
}.

(** [random_sample]: 53 random bits over [2^53], a double in [[0, 1)]. *)
Definition two53 : positive := 9007199254740992%positive.
Definition uniform (G : Generator) (k : nat) : Q :=
  Qmake (raw G k mod Zpos two53) two53.

Definition gamma_variate (G : Generator) (a : Q) (k : nat) : Q :=
  let (n, d) := std_gamma G k a in Qmake (Z.of_N n) d.

(* ------------------------------------------------------------------ *)
(** * The monad                                                         *)
(* ------------------------------------------------------------------ *)

Definition M (A : Type) : Type := State -> result A * State.

Definition ret {A} (a : A) : M A := fun s => (Ok a, s).
Definition raise {A} (e : PyError) : M A := fun s => (Raise e, s).
Definition bind {A B} (c : M A) (k : A -> M B) : M B :=
  fun s => match c s with
           | (Ok a, s') => k a s'
           | (Raise e, s') => (Raise e, s')
           end.
Definition lift {A} (r : result A) : M A := fun s => (r, s).

Declare Scope py_scope.
Delimit Scope py_scope with py.
Notation "x <- c ;; k" := (bind c (fun x => k))
  (at level 61, c at next level, right associativity) : py_scope.
Notation "c ;; k" := (bind c (fun _ => k))
  (at level 61, right associativity) : py_scope.
Open Scope py_scope.

(** Reading and assigning an array variable or attribute. *)
Definition getv (x : name) : M ndarray :=
  fun s => match env s x with
           | Some a => (Ok a, s)
           | None => (Raise AttributeError, s)
           end.
Definition setv (x : name) (a : ndarray) : M unit :=
  fun s => (Ok tt, mk_state (upd (env s) x a) (rng s)).

(** [for x in l: body]. *)
Fixpoint for_each {A} (l : list A) (body : A -> M unit) : M unit :=
  match l with
  | [] => ret tt
  | x :: l' => body x ;; for_each l' body
  end.

(** [for i in range(n): body]. *)
Definition for_range (n : Z) (body : nat -> M unit) : M unit :=
  for_each (seq 0 (Z.to_nat n)) body.

(** Python's [x / y] on two Python numbers. *)
Definition py_div (x y : Q) : M Q :=
  if Qeq_bool y 0 then raise ZeroDivisionError else ret (x / y).

(** A shape given by (possibly negative) Python integers. *)
Definition check_dims (dims : list Z) : result (list nat) :=
  if existsb (fun d => (d <? 0)%Z) dims then Raise ValueError
  else Ok (map Z.to_nat dims).

(** [np.zeros(dims)], [np.ones(dims)]. *)
Definition np_zeros (dims : list Z) : M ndarray :=
  sh <- lift (check_dims dims) ;; ret (nd_zeros sh).
Definition np_ones (dims : list Z) : M ndarray :=
  sh <- lift (check_dims dims) ;; ret (nd_ones sh).

(** [np.max(a)] and [np.min(a)] raise on an empty array; their values are
    only printed. *)
Definition np_max (a : ndarray) : M unit :=
  match data a with [] => raise ValueError | _ => ret tt end.
Definition np_min (a : ndarray) : M unit :=
  match data a with [] => raise ValueError | _ => ret tt end.

Section WithGenerator.

Variable G : Generator.

(** [r.rand] on the dimensions of a well-formed shape: as many variates as
    the array has entries, in C order. *)
Definition rand_shape (sh : list nat) : M ndarray :=
  fun s => (Ok (mk_nd sh (map (uniform G) (seq (rng s) (size_of sh)))),
            mk_state (env s) (rng s + size_of sh)).

(** [r.rand(d0, d1, ...)]. *)
Definition rand (dims : list Z) : M ndarray :=
  sh <- lift (check_dims dims) ;; rand_shape sh.

(** [np.random.randint(high)]. *)
Definition randint (high : Z) : M Z :=
  fun s => if (high <=? 0)%Z then (Raise ValueError, s)
           else (Ok (raw G (rng s) mod high)%Z, mk_state (env s) (S (rng s))).

(** [np.random.gamma(a, scale=b, size=dims)]: [b] times a standard gamma
    variate of shape [a]. *)
Definition gamma (a b : Q) (dims : list Z) : M ndarray :=
  if Qlt_bool a 0 || Qlt_bool b 0 then raise ValueError
  else
    sh <- lift (check_dims dims) ;;
    fun s => (Ok (mk_nd sh (map (fun k => b * gamma_variate G a k)
                              (seq (rng s) (size_of sh)))),
              mk_state (env s) (rng s + size_of sh)).

End WithGenerator.

(* ------------------------------------------------------------------ *)
(** * ModelParams                                                       *)
(* ------------------------------------------------------------------ *)

(** The scalar hyper-parameters [initializeConnectionMatrices] reads from
    [mP].  The class [ModelParams] is defined in [support_functions/params.py];
    the record has one field per attribute the function reads.  Layer sizes are
    Python integers.  Line 24 tests [RperFFrMu] while line 25 reads
    [RperSFrMu], a different attribute, which an object may lack: it is
    optional here, and reading it when absent raises [AttributeError]. *)
Record ModelParams : Type := mk_mP {
  nR : Z; nF : Z; nG : Z; nK : Z; nP : Z;
  RperFFrMu : Q;
  RperSFrMu : option Q;
  makeFeaturesOrthogonalFlag : bool;
  RperFRawNum : Z;
  F2Rmu : Q; F2Rstd : Q;
  spontRdistFlag : Z;
  spontRmu : Q; spontRstd : Q; spontRbase : Q;
  R2Gmu : Q; R2Gstd : Q;
  R2Pmult : Q; R2Pstd : Q;
  R2Lmult : Q; R2Lstd : Q;
  R2PImult : Q; R2PIstd : Q;
  L2Gmu : Q; L2Gstd : Q; L2Gfr : Q;
  GsensMu : Q; GsensStd : Q;
  L2Rmult : Q; L2Rstd : Q;
  L2Pmult : Q; L2Pstd : Q;
  L2Lmult : Q; L2Lstd : Q;
  L2PIstd : Q;
  KperPfrMu : Q;
  P2Kmu : Q; P2Kstd : Q;
  hebMaxPK : Q
}.

Definition read_attr {A} (o : option A) : M A :=
  match o with Some a => ret a | None => raise AttributeError end.

(* ------------------------------------------------------------------ *)
(** * Array operations used by the function                             *)
(* ------------------------------------------------------------------ *)

Definition Qsum (l : list Q) : Q := fold_right Qplus 0 l.

(** [b[i,:]] of a 2-D array, as a buffer. *)
Definition row_of (b : ndarray) (i : nat) : list Q :=
  firstn (ncols b) (skipn (i * ncols b) (data b)).

(** [np.where(c < m)] on a 2-D array [c]: the row indices and the column
    indices of the entries below [m], in C order. *)
Definition where_lt (c : ndarray) (m : Q) : list nat * list nat :=
  let hits := filter (fun k => Qlt_bool (nth k (data c) 0) m)
                     (seq 0 (length (data c))) in
  (map (fun k => (k / ncols c)%nat) hits, map (fun k => (k mod ncols c)%nat) hits).

Definition mem_nat (p : nat) (l : list nat) : bool := existsb (Nat.eqb p) l.

(** [c[idx] += 1] for an array [c] of shape [(n, 1)] and an integer index
    array [idx]: [c[idx] + 1] is computed from the old values and written back,
    so that an index listed twice is still incremented once. *)
Definition fancy_add1 (c : ndarray) (idx : list nat) : result ndarray :=
  if forallb (fun p => (p <? nrows c)%nat) idx then
    Ok (mk_nd (shape c)
          (map (fun k => if mem_nat (k / ncols c) idx
                         then nth k (data c) 0 + 1 else nth k (data c) 0)
               (seq 0 (length (data c)))))
  else Raise IndexError.

(** [b[idx, j] = v] for a 2-D array [b]. *)
Definition fancy_set_col (b : ndarray) (idx : list nat) (j : nat) (v : Q)
  : result ndarray :=
  if forallb (fun p => (p <? nrows b)%nat) idx && (j <? ncols b)%nat then
    Ok (mk_nd (shape b)
          (map (fun k => if mem_nat (k / ncols b) idx && (k mod ncols b =? j)%nat
                         then v else nth k (data b) 0)
               (seq 0 (length (data b)))))
  else Raise IndexError.

(** [np.diag(np.diag(a))] for a square array: its diagonal, zero elsewhere. *)
Definition diag_of_diag (a : ndarray) : ndarray :=
  tab2 (nrows a) (ncols a) (fun i j => if (i =? j)%nat then entry a i i else 0).

(** [a.flatten()]: the buffer, as a 1-D array. *)
Definition flatten (a : ndarray) : ndarray := mk_nd [length (data a)] (data a).

(** The entries of a 1-D or 2-D array in Fortran (column-major) order. *)
Definition ravel_F (a : ndarray) : list Q :=
  match shape a with
  | [r0; c0] => map (fun t => get2 c0 (data a) (t mod r0) (t / r0)) (seq 0 (r0 * c0))
  | _ => data a
  end.

(** [a.reshape((r, c), order="F")]: the entries are read in Fortran order and
    laid out in Fortran order. *)
Definition reshape_F (a : ndarray) (r c : nat) : result ndarray :=
  if (length (data a) =? r * c)%nat then
    Ok (tab2 r c (fun i j => nth (i + j * r) (ravel_F a) 0))
  else Raise ValueError.

(** [np.tile(v, (1, n))] for a 2-D array [v]. *)
Definition tile_1n (v : ndarray) (n : nat) : ndarray :=
  tab2 (nrows v) (ncols v * n) (fun i j => entry v i (j mod ncols v)).

(** The test [u < n / d] of line 91, where [n] is a numpy float and [d] a numpy
    integer: for [d = 0] the quotient is [inf] when [n > 0], and [nan] or
    [-inf] otherwise. *)
Definition lt_quot (u : Q) (n d : Z) : bool :=
  if (d =? 0)%Z then (0 <? n)%Z
  else Qlt_bool u (inject_Z n / inject_Z d).

(** The assignment [L[(L > 0) & (randList == 1)] = 0] on one entry. *)
Definition kill_entry (x r : Q) : Q :=
  if Qlt_bool 0 x && Qeq_bool r 1 then 0 else x.

(* ------------------------------------------------------------------ *)
(** * initializeConnectionMatrices                                      *)
(* ------------------------------------------------------------------ *)

Section InitializeConnectionMatrices.

Variable G : Generator.
Variable mP : ModelParams.

(** Lines 29-35, one turn of the loop over the rows of [b].  [b] is the array
    [mP.F2Rbinary] itself (line 28), so the row is read from the store.  On a
    row with more than one active entry, [c = np.where(row==1)] is a tuple and
    [r.rand(1, c)] raises [TypeError]; lines 34-35 ([b[i,:] = 0] and
    [b[i,c[t]] = 1]) are never reached. *)
Definition orthogonalize_row (i : nat) : M unit :=
  b <- getv F2Rbinary ;;
  let row := row_of b i in                                        (* 30 *)
  if Qlt_bool 1 (Qsum row) then                                   (* 31 *)
    raise TypeError                                               (* 32-33 *)
  else ret tt.

(** Lines 46-49, one turn of the inner loop of the fixed fan-in branch. *)
Definition connect_feature (maxFperR : Q) (j : nat) : M unit :=
  c <- getv counts ;;
  let inds := where_lt c maxFperR in                              (* 46 *)
  a <- randint G 2 ;;                          (* 47: len(inds) is 2 *)
  let idx := if (a =? 0)%Z then fst inds else snd inds in
  c' <- lift (fancy_add1 c idx) ;;                                (* 48 *)
  setv counts c' ;;
  b <- getv F2Rbinary ;;
  b' <- lift (fancy_set_col b idx j 1) ;;                         (* 49 *)
  setv F2Rbinary b'.

(** Lines 24-49: the binary mask [F2Rbinary]. *)
Definition step_F2Rbinary : M unit :=
  if Qlt_bool 0 (RperFFrMu mP) then                               (* 24 *)
    u <- rand G [nR mP; nF mP] ;;                                 (* 25 *)
    p <- read_attr (RperSFrMu mP) ;;
    setv F2Rbinary (nd_lt_scalar u p) ;;
    if makeFeaturesOrthogonalFlag mP then                         (* 26 *)
      for_range (nR mP) orthogonalize_row                         (* 29 *)
    else ret tt
  else
    z <- np_zeros [nR mP; nF mP] ;;                               (* 39 *)
    setv F2Rbinary z ;;
    c <- np_zeros [nR mP; 1%Z] ;;                                 (* 40 *)
    setv counts c ;;
    q <- py_div (inject_Z (nF mP * RperFRawNum mP)) (inject_Z (nR mP)) ;;
    let maxFperR := inject_Z (Qceiling q) in                      (* 42 *)
    for_range (RperFRawNum mP) (fun _ =>                          (* 44 *)
      for_range (nF mP) (connect_feature maxFperR)).              (* 45 *)

(** Lines 52-54: the weights [F2R]. *)
Definition step_F2R : M unit :=
  b <- getv F2Rbinary ;;
  rm <- rand_shape G (shape b) ;;                                 (* 52 *)
  setv rand_mat rm ;;
  setv F2R (nd_map2 Qmult
              (nd_map2 Qplus (nd_map (Qmult (F2Rmu mP)) b)
                             (nd_map (Qmult (F2Rstd mP)) rm))
              b) ;;                                               (* 53 *)
  f <- getv F2R ;;
  setv F2R (nd_map (clip_min 0) f).                               (* 54 *)

(** Lines 57-64: the spontaneous firing rates [Rspont]. *)
Definition step_Rspont : M unit :=
  if (spontRdistFlag mP =? 1)%Z then                              (* 57 *)
    o <- np_ones [nG mP; 1%Z] ;;                                  (* 58 *)
    u <- rand G [nG mP; 1%Z] ;;
    setv Rspont (nd_map2 Qplus (nd_map (Qmult (spontRmu mP)) o)
                               (nd_map (Qmult (spontRstd mP)) u)) ;;
    x <- getv Rspont ;;
    setv Rspont (nd_map (clip_min 0) x)                           (* 59 *)
  else
    a <- py_div (spontRmu mP) (spontRstd mP) ;;                   (* 61 *)
    b <- py_div (spontRmu mP) a ;;                                (* 62 *)
    g <- gamma G a b [nG mP; 1%Z] ;;                              (* 63 *)
    setv Rspont (nd_map (Qplus (spontRbase mP)) g).               (* 64 *)

(** Lines 67-75: the column vectors [R2G], [R2P], [R2L], [R2PIcol]. *)
Definition step_R2 : M unit :=
  o <- np_ones [nG mP; 1%Z] ;;                                    (* 67 *)
  u <- rand G [nG mP; 1%Z] ;;
  setv R2G (nd_map2 Qplus (nd_map (Qmult (R2Gmu mP)) o)
                          (nd_map (Qmult (R2Gstd mP)) u)) ;;
  u <- rand G [nG mP; 1%Z] ;;                                     (* 71 *)
  g <- getv R2G ;;
  setv R2P (nd_map2 Qmult (nd_map (fun x => R2Pmult mP + R2Pstd mP * x) u) g) ;;
  u <- rand G [nG mP; 1%Z] ;;                                     (* 72 *)
  g <- getv R2G ;;
  setv R2L (nd_map2 Qmult (nd_map (fun x => R2Lmult mP + R2Lstd mP * x) u) g) ;;
  u <- rand G [nG mP; 1%Z] ;;                                     (* 75 *)
  g <- getv R2G ;;
  setv R2PIcol (nd_map2 Qmult (nd_map (fun x => R2PImult mP + R2PIstd mP * x) u) g).

(** Line 87 and line 88. *)
Definition numZero_of (l : ndarray) : Z :=
  (Z.of_nat (count (fun x => Qeq_bool x 0) (data l)) - nG mP)%Z.
Definition numToKill_of (numZero : Z) : Z :=
  Qfloor ((1 - L2Gfr mP) * inject_Z (nG mP ^ 2 - nG mP) - inject_Z numZero).

(** Lines 87-92: the down-sampling of [L2G]. *)
Definition downsample_L2G : M unit :=
  l <- getv L2G ;;
  let numZero := numZero_of l in                                  (* 87 *)
  let numToKill := numToKill_of numZero in                        (* 88 *)
  if (0 <? numToKill)%Z then                                      (* 89 *)
    setv L2G (flatten l) ;;                                       (* 90 *)
    l <- getv L2G ;;
    u <- rand_shape G (shape l) ;;                                (* 91 *)
    setv randList
      (nd_map (fun x => Qof_bool
                 (lt_quot x numToKill (nG mP ^ 2 - nG mP - numZero))) u) ;;
    rl <- getv randList ;;
    setv L2G (nd_map2 kill_entry l rl)                            (* 92 *)
  else ret tt.

(** Lines 81-94: the lateral matrix [L2G]. *)
Definition step_L2G : M unit :=
  u <- rand G [nG mP; nG mP] ;;                                   (* 81 *)
  setv L2G (nd_map (fun x => L2Gmu mP + L2Gstd mP * x) u) ;;
  l <- getv L2G ;;
  setv L2G (nd_map (clip_min 0) l) ;;                             (* 82 *)
  l <- getv L2G ;;
  setv L2G (nd_map2 Qminus l (diag_of_diag l)) ;;                 (* 84 *)
  downsample_L2G ;;                                               (* 87-92 *)
  l <- getv L2G ;;
  l' <- lift (reshape_F l (Z.to_nat (nG mP)) (Z.to_nat (nG mP))) ;;
  setv L2G l'.                                                    (* 94 *)

(** One of the lines 108-112. *)
Definition lateral (x : name) (mult std : Q) : M unit :=
  u <- rand G [nG mP; nG mP] ;;
  lg <- getv L2GgabaSens ;;
  setv x (nd_map2 Qmult (nd_map (clip_min 0) (nd_map (fun v => mult + std * v) u)) lg).

(** Lines 101-112: GABA sensitivity and the matrices derived from [L2G]. *)
Definition step_L2etc : M unit :=
  u <- rand G [nG mP; 1%Z] ;;                                     (* 101 *)
  setv gabaSens (nd_map (fun x => GsensMu mP + GsensStd mP * x) u) ;;
  l <- getv L2G ;;
  gs <- getv gabaSens ;;
  setv L2GgabaSens (nd_map2 Qmult l (tile_1n gs (Z.to_nat (nG mP)))) ;; (* 102 *)
  l <- getv L2G ;;
  setv L2G (nd_map (fun x => x * GsensMu mP) l) ;;                (* 105 *)
  lateral L2R (L2Rmult mP) (L2Rstd mP) ;;                         (* 108 *)
  lateral L2P (L2Pmult mP) (L2Pstd mP) ;;                         (* 110 *)
  lateral L2L (L2Lmult mP) (L2Lstd mP) ;;                         (* 111 *)
  lateral L2PI (L2Lmult mP) (L2PIstd mP).                         (* 112 *)

(** Lines 116-133: the matrix [P2K]. *)
Definition step_P2K : M unit :=
  u <- rand G [nK mP; nP mP] ;;                                   (* 116 *)
  setv P2KconnMatrix (nd_lt_scalar u (KperPfrMu mP)) ;;
  u <- rand G [nK mP; nP mP] ;;                                   (* 119 *)
  setv P2K (nd_map (clip_min 0) (nd_map (fun x => P2Kmu mP + P2Kstd mP * x) u)) ;;
  p <- getv P2K ;;
  c <- getv P2KconnMatrix ;;
  setv P2K (nd_map2 Qmult p c) ;;                                 (* 120 *)
  p <- getv P2K ;;
  setv P2K (nd_map (clip_max (hebMaxPK mP)) p) ;;                 (* 123 *)
  p <- getv P2K ;;
  np_max p ;;                                                     (* 132 *)
  np_min p.                                                       (* 133 *)

Definition initializeConnectionMatrices : M unit :=
  step_F2Rbinary ;;
  step_F2R ;;
  step_Rspont ;;
  step_R2 ;;
  step_L2G ;;
  step_L2etc ;;
  step_P2K.

End InitializeConnectionMatrices.

(* ------------------------------------------------------------------ *)
(** * The driver: assembling the digit queues                           *)
(* ------------------------------------------------------------------ *)

(** [runMothLearnerMNIST.py], lines 117-118 and 152-154. *)
Definition class_labels : list nat := seq 0 10.
Definition indPoolForBaseline : list nat := seq 0 100.
Definition indPoolForTrain : list nat := seq 100 200.
Definition indPoolForPostTrain : list nat := seq 300 100.

Definition pool_max (l : list nat) : nat := fold_right Nat.max 0%nat l.
Definition pool_min (l : list nat) : nat :=
  match l with
  | [] => 0%nat
  | x :: l' => fold_right Nat.min x l'
  end.

(** [fA[:, inds, i]] for a 3-D array [fA] and a list of column indices. *)
Definition take_samples (fA : ndarray) (inds : list nat) (i : nat)
  : result ndarray :=
  match shape fA with
  | [n0; n1; n2] =>
      if forallb (fun c => (c <? n1)%nat) inds && (i <? n2)%nat then
        Ok (tab2 n0 (length inds)
              (fun p k => get3 n1 n2 (data fA) p (nth k inds 0%nat) i))
      else Raise IndexError
  | _ => Raise IndexError
  end.

(** [dq[:, a:b, i] = src] for a 3-D array [dq] and a 2-D array [src].  The
    slice is cut to the length of the axis; [src] must have as many columns as
    the slice, or one column, which is then repeated. *)
Definition assign_columns (dq : ndarray) (a b i : nat) (src : ndarray)
  : result ndarray :=
  match shape dq with
  | [n0; n1; n2] =>
      if (n2 <=? i)%nat then Raise IndexError
      else
        let lo := Nat.min a n1 in
        let hi := Nat.max lo (Nat.min b n1) in
        if (ncols src =? hi - lo)%nat || (ncols src =? 1)%nat then
          Ok (mk_nd (shape dq)
                (map (fun t =>
                        let p := (t / (n1 * n2))%nat in
                        let c := ((t / n2) mod n1)%nat in
                        let k := (t mod n2)%nat in
                        if (k =? i)%nat && (lo <=? c)%nat && (c <? hi)%nat
                        then entry src p (if (ncols src =? 1)%nat then 0 else c - lo)
                        else nth t (data dq) 0)
                     (seq 0 (length (data dq)))))
        else Raise ValueError
  | _ => Raise IndexError
  end.

(** [np.tile(l, n)] for a 1-D array. *)
Definition tile (l : list nat) (n : nat) : list nat := concat (repeat l n).

Section DigitQueues.

Variable G : Generator.

(** The user entries [val_per_class], [tr_per_class] and [num_sniffs] (15, 3
    and 2 in the script), which are counts. *)
Variables val_per_class tr_per_class num_sniffs : nat.

(** The feature array returned by [generate_ds_MNIST]. *)
Variable fA : ndarray.

(** [np.random.choice(top, size)]: [size] integers below [top]. *)
Definition choice (top size : nat) : M (list nat) :=
  fun s => if (top =? 0)%nat then (Raise ValueError, s)
           else (Ok (map (fun k => Z.to_nat (raw G k mod Z.of_nat top))
                         (seq (rng s) size)),
                 mk_state (env s) (rng s + size)).

(** Lines 200-222, the body of the loop over the classes. *)
Definition fill_class (i : nat) : M unit :=
  (* 1. baseline images *)
  let rangeTopEnd :=
    (pool_max indPoolForBaseline - pool_min indPoolForBaseline + 1)%nat in (* 202 *)
  r_sample <- choice rangeTopEnd val_per_class ;;                 (* 203 *)
  let theseInds := map (Nat.add (pool_min indPoolForBaseline)) r_sample in
  src <- lift (take_samples fA theseInds i) ;;                    (* 205 *)
  dq <- getv digitQueues ;;
  dq' <- lift (assign_columns dq 0 val_per_class i src) ;;
  setv digitQueues dq' ;;
  (* 2. training images *)
  let rangeTopEnd :=
    (pool_max indPoolForTrain - pool_min indPoolForTrain + 1)%nat in    (* 209 *)
  r_sample <- choice rangeTopEnd tr_per_class ;;                  (* 210 *)
  let theseInds := map (Nat.add (pool_min indPoolForTrain)) r_sample in
  let theseInds := tile theseInds num_sniffs in                   (* 213 *)
  src <- lift (take_samples fA theseInds i) ;;                    (* 214 *)
  dq <- getv digitQueues ;;
  dq' <- lift (assign_columns dq val_per_class
                 (val_per_class + tr_per_class * num_sniffs) i src) ;;
  setv digitQueues dq' ;;
  (* 3. post-training images *)
  let rangeTopEnd :=
    (pool_max indPoolForPostTrain - pool_min indPoolForPostTrain + 1)%nat in (* 218 *)
  r_sample <- choice rangeTopEnd val_per_class ;;                 (* 219 *)
  let theseInds := map (Nat.add (pool_min indPoolForPostTrain)) r_sample in
  src <- lift (take_samples fA theseInds i) ;;                    (* 221 *)
  dq <- getv digitQueues ;;
  dq' <- lift (assign_columns dq
                 (val_per_class + tr_per_class * num_sniffs)
                 (val_per_class + tr_per_class * num_sniffs + val_per_class)
                 i src) ;;
  setv digitQueues dq'.

(** Lines 196-222. *)
Definition assemble_digitQueues : M unit :=
  setv digitQueues (nd_zeros (shape fA)) ;;                       (* 196 *)
  for_each class_labels fill_class.                               (* 198 *)

End DigitQueues.

(* ------------------------------------------------------------------ *)
(** * Vocabulary of the properties                                      *)
(* ------------------------------------------------------------------ *)

(** The buffer of an array has as many entries as its shape says. *)
Definition wf (a : ndarray) : Prop := length (data a) = size_of (shape a).

(** A computation leaves every variable outside [w] as it was. *)
Definition frame (w : list name) (s s' : State) : Prop :=
  forall y, ~ In y w -> env s' y = env s y.

(** [wp c Q E s]: run from [s], the computation [c] either returns a value and
    a state that satisfy [Q], or raises in a state that satisfies [E]. *)
Definition wp {A} (c : M A) (Q : A -> State -> Prop) (E : State -> Prop)
    (s : State) : Prop :=
  match c s with
  | (Ok a, s') => Q a s'
  | (Raise _, s') => E s'
  end.

(** Every entry of an array is non-negative. *)
Definition nonneg (a : ndarray) : Prop := all_entries (fun x => 0 <= x) a.

(** [w] has the shape of the mask [m] and is exactly zero wherever [m] is. *)
Definition zero_where (m w : ndarray) : Prop :=
  shape w = shape m /\ length (data w) = length (data m)
  /\ forall k, (k < length (data m))%nat ->
               nth k (data m) 0 == 0 -> nth k (data w) 0 == 0.

(** The hyper-parameters that reach a matrix without passing through a
    clip at zero (lines 64, 67-75, 101-105) and the ceiling of line 123 are
    non-negative. *)
Definition unclipped_nonneg (mP : ModelParams) : Prop :=
  (spontRdistFlag mP = 1%Z \/ 0 <= spontRbase mP)
  /\ 0 <= R2Gmu mP /\ 0 <= R2Gstd mP
  /\ 0 <= R2Pmult mP /\ 0 <= R2Pstd mP
  /\ 0 <= R2Lmult mP /\ 0 <= R2Lstd mP
  /\ 0 <= R2PImult mP /\ 0 <= R2PIstd mP
  /\ 0 <= GsensMu mP /\ 0 <= GsensStd mP
  /\ 0 <= hebMaxPK mP.

(** The diagonal of an [n x n] buffer is zero. *)
Definition diag0 (n : nat) (buf : list Q) : Prop :=
  forall i, (i < n)%nat -> nth (i * n + i) buf 0 == 0.

(** The number of non-zero entries of an array. *)
Definition nonzero_count (a : ndarray) : nat :=
  count (fun x => negb (Qeq_bool x 0)) (data a).

(** The number of non-zero entries of [l] is within one entry of the
    fraction [L2Gfr] of the [nG^2 - nG] off-diagonal entries. *)
Definition sparsity_within_one_unit (mP : ModelParams) (l : ndarray) : Prop :=
  Qabs (inject_Z (Z.of_nat (nonzero_count l))
        - L2Gfr mP * inject_Z (nG mP ^ 2 - nG mP)) <= 1.

(** The array [randList] of line 91, for the variates drawn from [start] on. *)
Definition kill_flags (G : Generator) (mP : ModelParams) (l : ndarray)
    (start : nat) : list Q :=
  map (fun x => Qof_bool
                  (lt_quot x (numToKill_of mP (numZero_of mP l))
                     (nG mP ^ 2 - nG mP - numZero_of mP l)))
      (map (uniform G) (seq start (length (data l)))).

(** What the function needs in order to return: array dimensions that numpy
    accepts, at least one entry in [P2K] (lines 132-133), a branch of lines
    24-49 that does not raise, and, for the gamma branch of lines 61-63,
    positive [spontRmu] and [spontRstd].  Nothing is asked of the
    probabilities, the means or the other standard deviations. *)
Definition returns_normally (mP : ModelParams) : Prop :=
  (0 <= nR mP)%Z /\ (0 <= nF mP)%Z /\ (0 <= nG mP)%Z
  /\ (1 <= nK mP)%Z /\ (1 <= nP mP)%Z
  /\ ((0 < RperFFrMu mP /\ RperSFrMu mP <> None
       /\ makeFeaturesOrthogonalFlag mP = false)
      \/ (RperFFrMu mP <= 0 /\ (1 <= nR mP)%Z))
  /\ (spontRdistFlag mP = 1%Z \/ (0 < spontRmu mP /\ 0 < spontRstd mP)).

(** The attributes the function sets on [mP]. *)
Definition matrix_names : list name :=
  [F2Rbinary; F2R; Rspont; R2G; R2P; R2L; R2PIcol; L2G; L2R; L2P; L2L; L2PI; P2K].

(** The store holds a [digitQueues] of shape [(n0, n1, n2)] that agrees with
    the buffer [init] in every column from [bound] on. *)
Definition tail_untouched (n0 n1 n2 bound : nat) (init : list Q) (e : Env)
  : Prop :=
  exists dq,
    e digitQueues = Some dq
    /\ shape dq = [n0; n1; n2]
    /\ length (data dq) = length init
    /\ forall t, (bound <= (t / n2) mod n1)%nat -> nth t (data dq) 0 = nth t init 0.

(* ------------------------------------------------------------------ *)
(** * Concrete inputs                                                   *)
(* ------------------------------------------------------------------ *)

(** A generator whose raw output is always [z], and whose standard gamma
    variates are all 1. *)
Definition constant_generator (z : Z) : Generator :=
  mk_gen (fun _ => z) (fun _ _ => (1%N, 1%positive)).

(** A generator whose [k]-th uniform variate is [(k mod 16) / 16]. *)
Definition stepping_generator : Generator :=
  mk_gen (fun k => (Z.of_nat k * 2 ^ 49)%Z) (fun _ _ => (1%N, 1%positive)).

(** Two receptors, two features, one Kenyon cell and two projection neurons,
    with the remaining hyper-parameters fixed to small values and eight of
    them left open. *)
Definition small_params (nG_ : Z) (RperFFrMu_ : Q) (RperSFrMu_ : option Q)
    (orthogonal : bool) (F2Rstd_ R2Gmu_ KperPfrMu_ hebMaxPK_ : Q)
  : ModelParams :=
  {| nR := 2; nF := 2; nG := nG_; nK := 1; nP := 2;
     RperFFrMu := RperFFrMu_; RperSFrMu := RperSFrMu_;
     makeFeaturesOrthogonalFlag := orthogonal;
     RperFRawNum := 1;
     F2Rmu := 2; F2Rstd := F2Rstd_;
     spontRdistFlag := 1;
     spontRmu := 1 # 10; spontRstd := 1 # 20; spontRbase := 0;
     R2Gmu := R2Gmu_; R2Gstd := 0;
     R2Pmult := 4; R2Pstd := 0;
     R2Lmult := 3 # 4; R2Lstd := 0;
     R2PImult := 0; R2PIstd := 0;
     L2Gmu := 1; L2Gstd := 0; L2Gfr := 1 # 2;
     GsensMu := 3 # 5; GsensStd := 1 # 5;
     L2Rmult := 3 # 4; L2Rstd := 1 # 10;
     L2Pmult := 2; L2Pstd := 1 # 10;
     L2Lmult := 5; L2Lstd := 1 # 10;
     L2PIstd := 1 # 10;
     KperPfrMu := KperPfrMu_;
     P2Kmu := 4; P2Kstd := 1 # 2;
     hebMaxPK := hebMaxPK_ |}.

(** The fixed fan-in configuration ([RperFFrMu = 0]) with three glomeruli. *)
Definition template_params : ModelParams :=
  small_params 3 0 None false 0 5 (1 # 5) 20.

Definition fresh_state : State := mk_state empty_env 0.

(** A store in which [L2G] is the 3 x 3 array with zero diagonal and ones
    elsewhere, after four variates have been drawn. *)
Definition lateral_state : State :=
  mk_state (upd empty_env L2G (mk_nd [3%nat; 3%nat] [0; 1; 1; 1; 0; 1; 1; 1; 0]))
           4.

(* ------------------------------------------------------------------ *)
(** * Further vocabulary                                                *)
(* ------------------------------------------------------------------ *)

(** The shape each attribute must have, from the layer sizes. *)
Definition declared_shape (mP : ModelParams) (x : name) : list nat :=
  match x with
  | F2Rbinary | F2R => [Z.to_nat (nR mP); Z.to_nat (nF mP)]
  | Rspont | R2G | R2P | R2L | R2PIcol => [Z.to_nat (nG mP); 1%nat]
  | L2G | L2R | L2P | L2L | L2PI => [Z.to_nat (nG mP); Z.to_nat (nG mP)]
  | P2K => [Z.to_nat (nK mP); Z.to_nat (nP mP)]
  | _ => []
  end.

(** [mP] with other layer sizes. *)
Definition resize (nR_ nF_ nG_ nK_ nP_ : Z) (mP : ModelParams) : ModelParams :=
  mk_mP nR_ nF_ nG_ nK_ nP_ (RperFFrMu mP)
    (RperSFrMu mP) (makeFeaturesOrthogonalFlag mP) (RperFRawNum mP)
    (F2Rmu mP) (F2Rstd mP) (spontRdistFlag mP) (spontRmu mP)
    (spontRstd mP) (spontRbase mP) (R2Gmu mP) (R2Gstd mP)
    (R2Pmult mP) (R2Pstd mP) (R2Lmult mP) (R2Lstd mP) (R2PImult mP)
    (R2PIstd mP) (L2Gmu mP) (L2Gstd mP) (L2Gfr mP) (GsensMu mP)
    (GsensStd mP) (L2Rmult mP) (L2Rstd mP) (L2Pmult mP) (L2Pstd mP)
    (L2Lmult mP) (L2Lstd mP) (L2PIstd mP) (KperPfrMu mP) (P2Kmu mP)
    (P2Kstd mP) (hebMaxPK mP).

(** [mP] with other parameters of the spontaneous firing rates. *)
Definition with_spont (flag : Z) (mu sd base : Q) (mP : ModelParams)
  : ModelParams :=
  mk_mP (nR mP) (nF mP) (nG mP) (nK mP) (nP mP) (RperFFrMu mP)
    (RperSFrMu mP) (makeFeaturesOrthogonalFlag mP) (RperFRawNum mP)
    (F2Rmu mP) (F2Rstd mP) flag mu sd base (R2Gmu mP) (R2Gstd mP)
    (R2Pmult mP) (R2Pstd mP) (R2Lmult mP) (R2Lstd mP) (R2PImult mP)
    (R2PIstd mP) (L2Gmu mP) (L2Gstd mP) (L2Gfr mP) (GsensMu mP)
    (GsensStd mP) (L2Rmult mP) (L2Rstd mP) (L2Pmult mP) (L2Pstd mP)
    (L2Lmult mP) (L2Lstd mP) (L2PIstd mP) (KperPfrMu mP) (P2Kmu mP)
    (P2Kstd mP) (hebMaxPK mP).

(** [mP] with another fraction of lateral connections. *)
Definition with_L2Gfr (fr : Q) (mP : ModelParams) : ModelParams :=
  mk_mP (nR mP) (nF mP) (nG mP) (nK mP) (nP mP) (RperFFrMu mP)
    (RperSFrMu mP) (makeFeaturesOrthogonalFlag mP) (RperFRawNum mP)
    (F2Rmu mP) (F2Rstd mP) (spontRdistFlag mP) (spontRmu mP)
    (spontRstd mP) (spontRbase mP) (R2Gmu mP) (R2Gstd mP)
    (R2Pmult mP) (R2Pstd mP) (R2Lmult mP) (R2Lstd mP) (R2PImult mP)
    (R2PIstd mP) (L2Gmu mP) (L2Gstd mP) fr (GsensMu mP)
    (GsensStd mP) (L2Rmult mP) (L2Rstd mP) (L2Pmult mP) (L2Pstd mP)
    (L2Lmult mP) (L2Lstd mP) (L2PIstd mP) (KperPfrMu mP) (P2Kmu mP)
    (P2Kstd mP) (hebMaxPK mP).

(** The matrix [L2G] after line 84, for the variates drawn from [start] on:
    the clipped weights with their diagonal removed. *)
Definition L2G_before_downsampling (G : Generator) (mP : ModelParams)
    (start : nat) : ndarray :=
  let n := Z.to_nat (nG mP) in
  let l1 := nd_map (clip_min 0)
              (nd_map (fun x => L2Gmu mP + L2Gstd mP * x)
                 (mk_nd [n; n] (map (uniform G) (seq start (n * n))))) in
  nd_map2 Qminus l1 (diag_of_diag l1).

(** The mask of line 25, for the variates drawn from [start] on. *)
Definition bernoulli_mask (G : Generator) (mP : ModelParams) (p : Q)
    (start : nat) : ndarray :=
  let r := Z.to_nat (nR mP) in
  let f := Z.to_nat (nF mP) in
  nd_lt_scalar (mk_nd [r; f] (map (uniform G) (seq start (r * f)))) p.

(** Row [i] of a mask has more than one active entry. *)
Definition overlapping_row (b : ndarray) (i : nat) : bool :=
  Qlt_bool 1 (Qsum (row_of b i)).

(** Every entry of a mask is 0 or 1. *)
Definition binary (a : ndarray) : Prop := all_entries (fun x => x = 0 \/ x = 1) a.

(** Plane [i] of the queue [dq] holds [v] baseline columns, then [tr]
    training columns repeated [sn] times, then [v] post-training columns, all
    of them columns of plane [i] of [fA] whose indices lie in the pool of
    their kind. *)
Definition queue_layout (v tr sn : nat) (fA dq : ndarray) (n0 n1 n2 i : nat)
  : Prop :=
  exists bs ts ps : list nat,
    (length bs = v /\ Forall (fun x => In x indPoolForBaseline) bs)
    /\ (length ts = tr /\ Forall (fun x => In x indPoolForTrain) ts)
    /\ (length ps = v /\ Forall (fun x => In x indPoolForPostTrain) ps)
    /\ forall p, (p < n0)%nat ->
         (forall k, (k < v)%nat ->
            get3 n1 n2 (data dq) p k i
            = get3 n1 n2 (data fA) p (nth k bs 0%nat) i)
         /\ (forall m k, (m < sn)%nat -> (k < tr)%nat ->
            get3 n1 n2 (data dq) p (v + (m * tr + k)) i
            = get3 n1 n2 (data fA) p (nth k ts 0%nat) i)
         /\ (forall k, (k < v)%nat ->
            get3 n1 n2 (data dq) p (v + tr * sn + k) i
            = get3 n1 n2 (data fA) p (nth k ps 0%nat) i).

(* ------------------------------------------------------------------ *)
(** * The driver: train and validation sets                             *)
(* ------------------------------------------------------------------ *)

(** [dq[:, a:b, i]] for a 3-D array [dq]; the slice is cut to the length of
    the axis. *)
Definition slice_columns (dq : ndarray) (a b i : nat) : result ndarray :=
  match shape dq with
  | [n0; n1; n2] =>
      if (i <? n2)%nat then
        let lo := Nat.min a n1 in
        let hi := Nat.max lo (Nat.min b n1) in
        Ok (tab2 n0 (hi - lo) (fun p c => get3 n1 n2 (data dq) p (lo + c) i))
      else Raise IndexError
  | _ => Raise IndexError
  end.

(** [a.T] for a 2-D array. *)
Definition transpose (a : ndarray) : ndarray :=
  tab2 (ncols a) (nrows a) (fun i j => entry a j i).

(** [x[a:b, :] = src] for 2-D arrays.  The slice is cut to the number of
    rows; each axis of [src] must have the length of the slice, or length 1,
    which is then repeated. *)
Definition assign_rows (x : ndarray) (a b : nat) (src : ndarray)
  : result ndarray :=
  let lo := Nat.min a (nrows x) in
  let hi := Nat.max lo (Nat.min b (nrows x)) in
  if ((nrows src =? hi - lo)%nat || (nrows src =? 1)%nat)
     && ((ncols src =? ncols x)%nat || (ncols src =? 1)%nat)
  then
    Ok (mk_nd (shape x)
          (map (fun t =>
                  let p := (t / ncols x)%nat in
                  let q := (t mod ncols x)%nat in
                  if (lo <=? p)%nat && (p <? hi)%nat
                  then entry src (if (nrows src =? 1)%nat then 0 else p - lo)
                                 (if (ncols src =? 1)%nat then 0 else q)
                  else nth t (data x) 0)
               (seq 0 (length (data x)))))
  else Raise ValueError.

(** [x[a:b] = v] and [x[a:b, :] = v] for a 2-D array and a number. *)
Definition fill_rows (x : ndarray) (a b : nat) (v : Q) : ndarray :=
  let lo := Nat.min a (nrows x) in
  let hi := Nat.max lo (Nat.min b (nrows x)) in
  mk_nd (shape x)
    (map (fun t =>
            let p := (t / ncols x)%nat in
            if (lo <=? p)%nat && (p <? hi)%nat then v else nth t (data x) 0)
         (seq 0 (length (data x)))).

(** The four arrays that lines 238-252 build. *)
Record Sets : Type := mk_sets {
  trainX : ndarray; valX : ndarray; trainY : ndarray; valY : ndarray
}.

(** [for x in l: body], for a body that updates local arrays. *)
Fixpoint for_each_acc {A S} (l : list A) (body : A -> S -> M S) (st : S) : M S :=
  match l with
  | [] => ret st
  | x :: l' => st' <- body x st ;; for_each_acc l' body st'
  end.

Section TrainValSets.

Variables val_per_class tr_per_class : nat.
Variable fA : ndarray.

(** Lines 247-252, the body of the loop over the classes. *)
Definition split_class (i : nat) (st : Sets) : M Sets :=
  dq <- getv digitQueues ;;
  temp <- lift (slice_columns dq val_per_class
                  (val_per_class + tr_per_class) i) ;;            (* 247 *)
  tX <- lift (assign_rows (trainX st) (i * tr_per_class)
                ((i + 1) * tr_per_class) (transpose temp)) ;;     (* 248 *)
  dq <- getv digitQueues ;;
  temp <- lift (slice_columns dq (val_per_class + tr_per_class)
                  (2 * val_per_class + tr_per_class) i) ;;        (* 249 *)
  vX <- lift (assign_rows (valX st) (i * val_per_class)
                ((i + 1) * val_per_class) (transpose temp)) ;;    (* 250 *)
  let tY := fill_rows (trainY st) (i * tr_per_class)
              ((i + 1) * tr_per_class) (inject_Z (Z.of_nat i)) in (* 251 *)
  let vY := fill_rows (valY st) (i * val_per_class)
              ((i + 1) * val_per_class) (inject_Z (Z.of_nat i)) in (* 252 *)
  ret (mk_sets tX vX tY vY).

(** Lines 238-252. *)
Definition train_val_sets : M Sets :=
  match shape fA with
  | n0 :: _ =>
      let st0 :=
        mk_sets (nd_zeros [(10 * tr_per_class)%nat; n0])          (* 238 *)
                (nd_zeros [(10 * val_per_class)%nat; n0])         (* 239 *)
                (nd_zeros [(10 * tr_per_class)%nat; 1%nat])       (* 240 *)
                (nd_zeros [(10 * val_per_class)%nat; 1%nat]) in   (* 241 *)
      for_each_acc class_labels split_class st0                   (* 246 *)
  | [] => raise IndexError
  end.

End TrainValSets.

(** Lines 196-252, one run of the loop over the simulations up to the
    classifiers; [show_thumbnails] is 0 (line 97), so that lines 225-231 are
    skipped. *)
Definition prepare_run (G : Generator) (val_per_class tr_per_class num_sniffs : nat)
    (fA : ndarray) : M Sets :=
  assemble_digitQueues G val_per_class tr_per_class num_sniffs fA ;;
  train_val_sets val_per_class tr_per_class fA.

(** Row [r] of a 2-D array, as a function of the column. *)
Definition row (x : ndarray) (r : nat) : nat -> Q := fun p => entry x r p.
(** The four arrays have the shapes of lines 238-241. *)
Definition sets_shaped (v tr n0 : nat) (st : Sets) : Prop :=
  (shape (trainX st) = [(10 * tr)%nat; n0]
   /\ length (data (trainX st)) = (10 * tr * n0)%nat)
  /\ (shape (valX st) = [(10 * v)%nat; n0]
      /\ length (data (valX st)) = (10 * v * n0)%nat)
  /\ (shape (trainY st) = [(10 * tr)%nat; 1%nat]
      /\ length (data (trainY st)) = (10 * tr * 1)%nat)
  /\ (shape (valY st) = [(10 * v)%nat; 1%nat]
      /\ length (data (valY st)) = (10 * v * 1)%nat).

(** The rows of class [i] in the four arrays: row [i * tr + k] of [trainX]
    is column [v + k] of plane [i] of the queue, row [i * v + k] of [valX]
    is column [v + tr + k], and the labels of these rows are [i]. *)
Definition class_rows (v tr : nat) (dq : ndarray) (n0 n1 n2 : nat) (st : Sets)
    (i : nat) : Prop :=
  (forall k p, (k < tr)%nat -> (p < n0)%nat ->
     entry (trainX st) (i * tr + k) p = get3 n1 n2 (data dq) p (v + k) i)
  /\ (forall k p, (k < v)%nat -> (p < n0)%nat ->
     entry (valX st) (i * v + k) p = get3 n1 n2 (data dq) p (v + tr + k) i)
  /\ (forall k, (k < tr)%nat ->
     entry (trainY st) (i * tr + k) 0 = inject_Z (Z.of_nat i))
  /\ (forall k, (k < v)%nat ->
     entry (valY st) (i * v + k) 0 = inject_Z (Z.of_nat i)).

(** The state of the fixed fan-in loop (lines 44-49) beyond receptor 0:
    [c] is the array [counts] and [b] the mask, of [n] receptors and [f]
    features; the count of each receptor [r >= 1] is an integer at most [M]
    and bounds the number of features connected to [r]. *)
Definition fan_in_within (M : Z) (n f : nat) (c b : ndarray) : Prop :=
  (shape c = [n; 1%nat] /\ length (data c) = n)
  /\ (shape b = [n; f] /\ length (data b) = (n * f)%nat)
  /\ binary b
  /\ forall r, (1 <= r)%nat -> (r < n)%nat ->
       exists z : Z,
         nth r (data c) 0 == inject_Z z /\ (z <= M)%Z
         /\ Qsum (row_of b r) <= inject_Z z.

(** [mP] with other parameters of the matrix [P2K]. *)
Definition with_P2K (KperPfrMu_ P2Kmu_ P2Kstd_ hebMaxPK_ : Q) (mP : ModelParams)
  : ModelParams :=
  mk_mP (nR mP) (nF mP) (nG mP) (nK mP) (nP mP) (RperFFrMu mP)
    (RperSFrMu mP) (makeFeaturesOrthogonalFlag mP) (RperFRawNum mP)
    (F2Rmu mP) (F2Rstd mP) (spontRdistFlag mP) (spontRmu mP)
    (spontRstd mP) (spontRbase mP) (R2Gmu mP) (R2Gstd mP)
    (R2Pmult mP) (R2Pstd mP) (R2Lmult mP) (R2Lstd mP) (R2PImult mP)
    (R2PIstd mP) (L2Gmu mP) (L2Gstd mP) (L2Gfr mP) (GsensMu mP)
    (GsensStd mP) (L2Rmult mP) (L2Rstd mP) (L2Pmult mP) (L2Pstd mP)
    (L2Lmult mP) (L2Lstd mP) (L2PIstd mP) KperPfrMu_ P2Kmu_ P2Kstd_ hebMaxPK_.

(** Two Kenyon cells and three projection neurons, a connection probability
    of 1/2, weights [-7/2 + 8 u] and the ceiling 3/4: with the variates
    [(k mod 16) / 16] the mask of line 116 is [0 0 1 1 1 1], and of the four
    connected weights one is clipped at 0 (line 119), one is 0, one is 1/2
    and one is clipped at the ceiling (line 123). *)
Definition ceiling_params : ModelParams :=
  with_P2K (1 # 2) (- (7 # 2)) 8 (3 # 4) (resize 2 2 3 2 3 template_params).

(* ================================================================== *)
(** * Properties                                                        *)
(* ================================================================== *)

(** ** Rationals, buffers and arrays *)

Lemma Qlt_bool_iff (x y : Q) : Qlt_bool x y = true <-> x < y.
Proof.
  unfold Qlt_bool. rewrite negb_true_iff.
  split; intro H.
  - apply Qnot_le_lt. intro Hle. apply Qle_bool_iff in Hle. congruence.
  - destruct (Qle_bool y x) eqn:E; [|reflexivity].
    apply Qle_bool_iff in E. exfalso. apply (Qlt_not_le _ _ H E).
Qed.

Lemma Qlt_bool_false_iff (x y : Q) : Qlt_bool x y = false <-> y <= x.
Proof.
  unfold Qlt_bool. rewrite negb_false_iff. apply Qle_bool_iff.
Qed.

Lemma clip_min_ge (lo x : Q) : lo <= clip_min lo x.
Proof.
  unfold clip_min. destruct (Qlt_bool x lo) eqn:E.
  - apply Qle_refl.
  - now apply Qlt_bool_false_iff in E.
Qed.

Lemma clip_max_le (hi x : Q) : clip_max hi x <= hi.
Proof.
  unfold clip_max. destruct (Qlt_bool hi x) eqn:E.
  - apply Qle_refl.
  - now apply Qlt_bool_false_iff in E.
Qed.

Lemma clip_max_ge0 (hi x : Q) : 0 <= hi -> 0 <= x -> 0 <= clip_max hi x.
Proof. unfold clip_max. now destruct (Qlt_bool hi x). Qed.

Lemma clip_max_zero (hi x : Q) : 0 <= hi -> x == 0 -> clip_max hi x == 0.
Proof.
  intros Hhi Hx. unfold clip_max. destruct (Qlt_bool hi x) eqn:E; [|exact Hx].
  apply Qlt_bool_iff in E. rewrite Hx in E. exfalso. apply (Qlt_not_le _ _ E Hhi).
Qed.

Lemma length_map2 {A B C} (f : A -> B -> C) xs ys :
  length (map2 f xs ys) = Nat.min (length xs) (length ys).
Proof.
  revert ys. induction xs as [|x xs IH]; intros [|y ys]; simpl; auto.
Qed.

Lemma nth_map2 {A B C} (f : A -> B -> C) xs ys k da db dc :
  (k < length xs)%nat -> (k < length ys)%nat ->
  nth k (map2 f xs ys) dc = f (nth k xs da) (nth k ys db).
Proof.
  revert ys k. induction xs as [|x xs IH]; intros [|y ys] [|k]; simpl;
    try lia; auto.
  intros. apply IH; lia.
Qed.

Lemma Forall_map2 {A B C} (P : C -> Prop) (f : A -> B -> C) xs ys :
  (forall k, (k < length xs)%nat -> (k < length ys)%nat ->
     forall da db, P (f (nth k xs da) (nth k ys db))) ->
  Forall P (map2 f xs ys).
Proof.
  revert ys. induction xs as [|x xs IH]; intros [|y ys] H; simpl; auto.
  constructor.
  - apply (H 0%nat ltac:(simpl; lia) ltac:(simpl; lia) x y).
  - apply IH. intros k Hx Hy da db.
    apply (H (S k) ltac:(simpl; lia) ltac:(simpl; lia) da db).
Qed.

Lemma nth_map_seq {A} (f : nat -> A) start len k d :
  (k < len)%nat -> nth k (map f (seq start len)) d = f (start + k)%nat.
Proof.
  intro H. rewrite nth_indep with (d' := f 0%nat) by (rewrite length_map, length_seq; lia).
  rewrite map_nth. now rewrite seq_nth.
Qed.

Lemma nth_map_lt {A B} (f : A -> B) l k da db :
  (k < length l)%nat -> nth k (map f l) db = f (nth k l da).
Proof.
  intro H. rewrite nth_indep with (d' := f da) by (rewrite length_map; lia).
  apply map_nth.
Qed.

Lemma Forall_nth_iff {A} (P : A -> Prop) (l : list A) (d : A) :
  Forall P l <-> (forall k, (k < length l)%nat -> P (nth k l d)).
Proof.
  split.
  - intros H k Hk. rewrite Forall_forall in H. apply H. now apply nth_In.
  - intro H. apply Forall_forall. intros x Hx.
    destruct (In_nth _ _ d Hx) as [k [Hk Hn]]. rewrite <- Hn. now apply H.
Qed.

Lemma index2_div (c i j : nat) : (j < c)%nat -> ((i * c + j) / c = i)%nat.
Proof.
  intro H. rewrite Nat.add_comm, Nat.div_add by lia.
  rewrite Nat.div_small by lia. reflexivity.
Qed.

Lemma index2_mod (c i j : nat) : (j < c)%nat -> ((i * c + j) mod c = j)%nat.
Proof.
  intro H. rewrite Nat.add_comm, Nat.Div0.mod_add.
  now apply Nat.mod_small.
Qed.

Lemma index2_lt (r c i j : nat) : (i < r)%nat -> (j < c)%nat -> (i * c + j < r * c)%nat.
Proof. intros. nia. Qed.

Lemma entry_tab2 r c f i j :
  (i < r)%nat -> (j < c)%nat -> entry (tab2 r c f) i j = f i j.
Proof.
  intros Hi Hj. unfold entry, get2, tab2, ncols. simpl.
  rewrite nth_map_seq by now apply index2_lt.
  simpl. now rewrite index2_div, index2_mod.
Qed.

Lemma name_eqb_eq (x y : name) : name_eqb x y = true <-> x = y.
Proof.
  split.
  - destruct x, y; simpl; intro H; try reflexivity; discriminate H.
  - intros ->. unfold name_eqb. apply Nat.eqb_refl.
Qed.

Lemma uniform_ge0 G k : 0 <= uniform G k.
Proof.
  unfold uniform, Qle. simpl.
  pose proof (Z.mod_pos_bound (raw G k) (Zpos two53) eq_refl). lia.
Qed.

Lemma uniform_lt1 G k : uniform G k < 1.
Proof.
  unfold uniform, Qlt. simpl.
  pose proof (Z.mod_pos_bound (raw G k) (Zpos two53) eq_refl). lia.
Qed.

Lemma gamma_variate_ge0 G a k : 0 <= gamma_variate G a k.
Proof.
  unfold gamma_variate. destruct (std_gamma G k a) as [n d].
  unfold Qle. simpl. lia.
Qed.

(** ** The array operations on small inputs *)

Example clip_min_example : map (clip_min 0) [-1; 0; 1 # 2] = [0; 0; 1 # 2].
Proof. reflexivity. Qed.

Example clip_max_example : map (clip_max 3) [-1; 3; 7 # 2] = [-1; 3; 3].
Proof. reflexivity. Qed.

(** Flattening in C order and reshaping in Fortran order transposes. *)
Example reshape_F_of_flatten :
  reshape_F (flatten (mk_nd [2; 2]%nat [1; 2; 3; 4])) 2 2
  = Ok (mk_nd [2; 2]%nat [1; 3; 2; 4]).
Proof. reflexivity. Qed.

(** Reshaping a 2-D array to its own shape changes nothing. *)
Example reshape_F_same_shape :
  reshape_F (mk_nd [2; 3]%nat [1; 2; 3; 4; 5; 6]) 2 3
  = Ok (mk_nd [2; 3]%nat [1; 2; 3; 4; 5; 6]).
Proof. reflexivity. Qed.

Example diag_of_diag_example :
  diag_of_diag (mk_nd [2; 2]%nat [1; 2; 3; 4]) = mk_nd [2; 2]%nat [1; 0; 0; 4].
Proof. reflexivity. Qed.

Example tile_1n_example :
  tile_1n (mk_nd [2; 1]%nat [5; 7]) 3 = mk_nd [2; 3]%nat [5; 5; 5; 7; 7; 7].
Proof. reflexivity. Qed.

(** [np.where] on a column of counts: row indices, and column indices that are
    all 0. *)
Example where_lt_example :
  where_lt (mk_nd [3; 1]%nat [1; 0; 0]) 1 = ([1; 2]%nat, [0; 0]%nat).
Proof. reflexivity. Qed.

(** An index listed twice is incremented once. *)
Example fancy_add1_example :
  fancy_add1 (mk_nd [3; 1]%nat [1; 0; 0]) [0; 0]%nat
  = Ok (mk_nd [3; 1]%nat [1 + 1; 0; 0]).
Proof. reflexivity. Qed.

Example fancy_set_col_example :
  fancy_set_col (mk_nd [2; 2]%nat [0; 0; 0; 0]) [0; 1]%nat 1 1
  = Ok (mk_nd [2; 2]%nat [0; 1; 0; 1]).
Proof. reflexivity. Qed.

Example lt_quot_example :
  (lt_quot (1 # 4) 1 2, lt_quot (1 # 2) 1 2, lt_quot 5 1 0) = (true, false, true).
Proof. reflexivity. Qed.

(** A 2 x 3 x 2 array with entries 0..11: columns 1 and 2 of class 1, and the
    assignment of two columns to the slice [1:3] of class 0. *)
Example take_samples_example :
  take_samples (mk_nd [2; 3; 2]%nat [0; 1; 2; 3; 4; 5; 6; 7; 8; 9; 10; 11])
    [2; 1]%nat 1
  = Ok (mk_nd [2; 2]%nat [5; 3; 11; 9]).
Proof. reflexivity. Qed.

Example assign_columns_example :
  assign_columns (nd_zeros [2; 3; 2]%nat) 1 3 0 (mk_nd [2; 2]%nat [5; 3; 11; 9])
  = Ok (mk_nd [2; 3; 2]%nat [0; 0; 5; 0; 3; 0; 0; 0; 11; 0; 9; 0]).
Proof. reflexivity. Qed.

(** A slice that runs past the axis is cut, and the columns no longer fit. *)
Example assign_columns_cut :
  assign_columns (nd_zeros [2; 3; 2]%nat) 2 4 0 (mk_nd [2; 2]%nat [5; 3; 11; 9])
  = Raise ValueError.
Proof. reflexivity. Qed.

(** The uniform variates of the stepping generator. *)
Example uniform_stepping :
  Forall2 Qeq (map (uniform stepping_generator) [0; 4; 8; 17]%nat)
    [0; 1 # 4; 1 # 2; 1 # 16].
Proof. repeat (apply Forall2_cons; [reflexivity|]). constructor. Qed.

(** ** The monad *)

Lemma bind_Ok_inv {A B} (c : M A) (k : A -> M B) s b s' :
  bind c k s = (Ok b, s') ->
  exists a s1, c s = (Ok a, s1) /\ k a s1 = (Ok b, s').
Proof.
  unfold bind. destruct (c s) as [[a|e] s1]; intro H.
  - now exists a, s1.
  - discriminate H.
Qed.

Lemma bind_run {A B} (c : M A) (k : A -> M B) s a s1 :
  c s = (Ok a, s1) -> bind c k s = k a s1.
Proof. unfold bind. now intros ->. Qed.

Lemma ret_Ok_inv {A} (a b : A) s s' : ret a s = (Ok b, s') -> b = a /\ s' = s.
Proof. unfold ret. intro H. now inversion H. Qed.

Lemma lift_Ok_inv {A} (r : result A) a s s' :
  lift r s = (Ok a, s') -> r = Ok a /\ s' = s.
Proof. unfold lift. intro H. now inversion H. Qed.

Lemma getv_Ok_inv x a s s' :
  getv x s = (Ok a, s') -> env s x = Some a /\ s' = s.
Proof.
  unfold getv. destruct (env s x); intro H; inversion H. now subst.
Qed.

Lemma setv_Ok_inv x a u s s' :
  setv x a s = (Ok u, s') -> s' = mk_state (upd (env s) x a) (rng s).
Proof. unfold setv. intro H. now inversion H. Qed.

Lemma read_attr_Ok_inv {A} (o : option A) a s s' :
  read_attr o s = (Ok a, s') -> o = Some a /\ s' = s.
Proof.
  destruct o; simpl; unfold ret, raise; intro H; inversion H. now subst.
Qed.

Lemma check_dims_Ok dims sh :
  check_dims dims = Ok sh ->
  Forall (fun d => (0 <= d)%Z) dims /\ sh = map Z.to_nat dims.
Proof.
  unfold check_dims. destruct (existsb _ dims) eqn:E; intro H; inversion H.
  split; [|reflexivity].
  apply Forall_forall. intros d Hd.
  destruct (Z.ltb_spec d 0) as [Hlt|Hge]; [|exact Hge].
  exfalso. assert (existsb (fun d => (d <? 0)%Z) dims = true).
  { apply existsb_exists. exists d. split; [exact Hd|]. now apply Z.ltb_lt. }
  congruence.
Qed.

Lemma check_dims_nonneg dims :
  Forall (fun d => (0 <= d)%Z) dims -> check_dims dims = Ok (map Z.to_nat dims).
Proof.
  intro H. unfold check_dims.
  destruct (existsb _ dims) eqn:E; [|reflexivity].
  apply existsb_exists in E. destruct E as [d [Hd Hlt]].
  rewrite Forall_forall in H. specialize (H d Hd). apply Z.ltb_lt in Hlt. lia.
Qed.

Lemma rand_shape_Ok_inv G sh u s s' :
  rand_shape G sh s = (Ok u, s') ->
  u = mk_nd sh (map (uniform G) (seq (rng s) (size_of sh)))
  /\ s' = mk_state (env s) (rng s + size_of sh).
Proof. unfold rand_shape. intro H. now inversion H. Qed.

Lemma rand_Ok_inv G dims u s s' :
  rand G dims s = (Ok u, s') ->
  Forall (fun d => (0 <= d)%Z) dims
  /\ u = mk_nd (map Z.to_nat dims)
           (map (uniform G) (seq (rng s) (size_of (map Z.to_nat dims))))
  /\ s' = mk_state (env s) (rng s + size_of (map Z.to_nat dims)).
Proof.
  unfold rand. intro H. apply bind_Ok_inv in H as (sh & s1 & H1 & H2).
  apply lift_Ok_inv in H1 as [H1 ->]. apply check_dims_Ok in H1 as [Hd ->].
  apply rand_shape_Ok_inv in H2. tauto.
Qed.

Lemma rand_run G dims s :
  Forall (fun d => (0 <= d)%Z) dims ->
  rand G dims s =
  (Ok (mk_nd (map Z.to_nat dims)
         (map (uniform G) (seq (rng s) (size_of (map Z.to_nat dims))))),
   mk_state (env s) (rng s + size_of (map Z.to_nat dims))).
Proof.
  intro H. unfold rand, bind, lift. now rewrite (check_dims_nonneg _ H).
Qed.

Lemma np_zeros_Ok_inv dims a s s' :
  np_zeros dims s = (Ok a, s') ->
  Forall (fun d => (0 <= d)%Z) dims /\ a = nd_zeros (map Z.to_nat dims) /\ s' = s.
Proof.
  unfold np_zeros. intro H. apply bind_Ok_inv in H as (sh & s1 & H1 & H2).
  apply lift_Ok_inv in H1 as [H1 ->]. apply check_dims_Ok in H1 as [Hd ->].
  apply ret_Ok_inv in H2. tauto.
Qed.

Lemma np_ones_Ok_inv dims a s s' :
  np_ones dims s = (Ok a, s') ->
  Forall (fun d => (0 <= d)%Z) dims /\ a = nd_ones (map Z.to_nat dims) /\ s' = s.
Proof.
  unfold np_ones. intro H. apply bind_Ok_inv in H as (sh & s1 & H1 & H2).
  apply lift_Ok_inv in H1 as [H1 ->]. apply check_dims_Ok in H1 as [Hd ->].
  apply ret_Ok_inv in H2. tauto.
Qed.

Lemma np_ones_run dims s :
  Forall (fun d => (0 <= d)%Z) dims ->
  np_ones dims s = (Ok (nd_ones (map Z.to_nat dims)), s).
Proof.
  intro H. unfold np_ones, bind, lift. now rewrite (check_dims_nonneg _ H).
Qed.

Lemma py_div_Ok_inv x y q s s' :
  py_div x y s = (Ok q, s') -> ~ y == 0 /\ q = x / y /\ s' = s.
Proof.
  unfold py_div. destruct (Qeq_bool y 0) eqn:E; unfold raise, ret; intro H;
    inversion H; subst. split; [|tauto].
  intro Hy. apply Qeq_bool_iff in Hy. congruence.
Qed.

Lemma gamma_Ok_inv G a b dims g s s' :
  gamma G a b dims s = (Ok g, s') ->
  0 <= a /\ 0 <= b /\ Forall (fun d => (0 <= d)%Z) dims
  /\ g = mk_nd (map Z.to_nat dims)
           (map (fun k => b * gamma_variate G a k)
                (seq (rng s) (size_of (map Z.to_nat dims))))
  /\ s' = mk_state (env s) (rng s + size_of (map Z.to_nat dims)).
Proof.
  unfold gamma. destruct (Qlt_bool a 0 || Qlt_bool b 0) eqn:E.
  - unfold raise. intro H. discriminate H.
  - apply orb_false_iff in E as [Ea Eb].
    apply Qlt_bool_false_iff in Ea, Eb.
    intro H. apply bind_Ok_inv in H as (sh & s1 & H1 & H2).
    apply lift_Ok_inv in H1 as [H1 ->]. apply check_dims_Ok in H1 as [Hd ->].
    inversion H2. tauto.
Qed.

Lemma np_max_Ok_inv a u s s' :
  np_max a s = (Ok u, s') -> data a <> [] /\ s' = s.
Proof.
  unfold np_max. destruct (data a); unfold raise, ret; intro H; inversion H.
  split; [discriminate|reflexivity].
Qed.

Lemma np_min_Ok_inv a u s s' :
  np_min a s = (Ok u, s') -> data a <> [] /\ s' = s.
Proof.
  unfold np_min. destruct (data a); unfold raise, ret; intro H; inversion H.
  split; [discriminate|reflexivity].
Qed.

(** Stepping through a computation that returned: [H] is split at its first
    [bind], and the equation of a primitive is replaced by what it says. *)
Ltac inv_prim H :=
  first
    [ apply getv_Ok_inv in H; destruct H as [H ?]
    | apply setv_Ok_inv in H
    | apply ret_Ok_inv in H; destruct H as [? ?]
    | apply lift_Ok_inv in H; destruct H as [H ?]
    | apply read_attr_Ok_inv in H; destruct H as [H ?]
    | apply rand_Ok_inv in H; destruct H as (? & ? & ?)
    | apply rand_shape_Ok_inv in H; destruct H as (? & ?)
    | apply np_zeros_Ok_inv in H; destruct H as (? & ? & ?)
    | apply np_ones_Ok_inv in H; destruct H as (? & ? & ?)
    | apply py_div_Ok_inv in H; destruct H as (? & ? & ?)
    | apply gamma_Ok_inv in H; destruct H as (? & ? & ? & ? & ?)
    | apply np_max_Ok_inv in H; destruct H as [? ?]
    | apply np_min_Ok_inv in H; destruct H as [? ?]
    | idtac ].

Ltac simpl_env :=
  cbn [env rng upd name_eqb name_idx Nat.eqb] in *.

Ltac inj_some :=
  repeat match goal with
         | E : Some _ = Some _ |- _ => injection E as E; try subst
         | E : Ok _ = Ok _ |- _ => injection E as E; try subst
         | E1 : ?x = Some ?a, E2 : ?x = Some ?b |- _ =>
             rewrite E1 in E2; injection E2 as E2; try subst
         end.

Ltac steps H :=
  lazymatch type of H with
  | bind _ _ _ = (Ok _, _) =>
      let a := fresh "a" in
      let s1 := fresh "s" in
      let H1 := fresh "E" in
      apply bind_Ok_inv in H; destruct H as (a & s1 & H1 & H);
      steps H1; steps H
  | _ => inv_prim H; subst; simpl_env; inj_some
  end.

(** A frame condition on an explicit final store. *)
Ltac solve_frame :=
  let y := fresh "y" in
  let Hy := fresh "Hy" in
  intros y Hy; simpl_env; unfold upd;
  repeat match goal with
         | |- context [name_eqb ?x y] =>
             let E := fresh "E" in
             destruct (name_eqb x y) eqn:E;
             [ apply name_eqb_eq in E; subst y; exfalso; apply Hy; simpl; tauto | ]
         end;
  reflexivity.

(** ** Entrywise facts *)

Lemma clip_min_zero (x : Q) : x == 0 -> clip_min 0 x == 0.
Proof.
  intro Hx. unfold clip_min. destruct (Qlt_bool x 0) eqn:E; [reflexivity|exact Hx].
Qed.

Lemma nth_default_ok (P : Q -> Prop) (l : list Q) (k : nat) :
  P 0 -> Forall P l -> P (nth k l 0).
Proof.
  intros H0 Hl. destruct (Nat.lt_ge_cases k (length l)) as [Hk|Hk].
  - now apply Forall_nth_iff.
  - now rewrite nth_overflow.
Qed.

Lemma all_nd_map (P : Q -> Prop) f a :
  (forall x, P (f x)) -> all_entries P (nd_map f a).
Proof.
  intro H. unfold all_entries, nd_map. simpl. apply Forall_forall.
  intros y Hy. apply in_map_iff in Hy as [x [<- _]]. apply H.
Qed.

Lemma all_nd_map_from (P R : Q -> Prop) f a :
  all_entries R a -> (forall x, R x -> P (f x)) -> all_entries P (nd_map f a).
Proof.
  intros Ha H. unfold all_entries, nd_map in *. simpl. apply Forall_forall.
  intros y Hy. apply in_map_iff in Hy as [x [<- Hx]]. apply H.
  rewrite Forall_forall in Ha. now apply Ha.
Qed.

Lemma all_nd_map2 (P R T : Q -> Prop) f a b :
  all_entries R a -> all_entries T b ->
  (forall x y, R x -> T y -> P (f x y)) -> all_entries P (nd_map2 f a b).
Proof.
  intros Ha Hb H. unfold all_entries, nd_map2 in *. simpl.
  apply Forall_map2. intros k Hka Hkb da db. apply H.
  - now apply Forall_nth_iff.
  - now apply Forall_nth_iff.
Qed.

Lemma all_uniform G sh start len :
  all_entries (fun x => 0 <= x) (mk_nd sh (map (uniform G) (seq start len))).
Proof.
  unfold all_entries. simpl. apply Forall_forall. intros y Hy.
  apply in_map_iff in Hy as [k [<- _]]. apply uniform_ge0.
Qed.

Lemma all_ones (P : Q -> Prop) sh : P 1 -> all_entries P (nd_ones sh).
Proof.
  intro H. unfold all_entries, nd_ones. simpl. apply Forall_forall.
  intros y Hy. apply repeat_spec in Hy. now subst.
Qed.

Lemma all_tab2 (P : Q -> Prop) r c f :
  (forall i j, P (f i j)) -> all_entries P (tab2 r c f).
Proof.
  intro H. unfold all_entries, tab2. simpl. apply Forall_forall.
  intros y Hy. apply in_map_iff in Hy as [k [<- _]]. apply H.
Qed.

Lemma entry_default_ok (P : Q -> Prop) a i j :
  P 0 -> all_entries P a -> P (entry a i j).
Proof. intros. unfold entry, get2. now apply nth_default_ok. Qed.

Lemma affine_ge0 (m sd x : Q) : 0 <= m -> 0 <= sd -> 0 <= x -> 0 <= m + sd * x.
Proof. intros. nra. Qed.

Lemma mult_ge0 (x y : Q) : 0 <= x -> 0 <= y -> 0 <= x * y.
Proof. intros. nra. Qed.

(** Entries of an elementwise product vanish where the second factor does. *)
Lemma nth_map2_mult_zero (xs ys : list Q) (k : nat) :
  nth k ys 0 == 0 -> nth k (map2 Qmult xs ys) 0 == 0.
Proof.
  intro H.
  destruct (Nat.lt_ge_cases k (length (map2 Qmult xs ys))) as [Hk|Hk].
  - rewrite length_map2 in Hk.
    rewrite (nth_map2 Qmult xs ys k 0 0 0) by lia.
    rewrite H. ring.
  - rewrite nth_overflow by exact Hk. reflexivity.
Qed.

Lemma nth_map_zero (f : Q -> Q) (l : list Q) (k : nat) :
  (forall x, x == 0 -> f x == 0) -> nth k l 0 == 0 -> nth k (map f l) 0 == 0.
Proof.
  intros Hf H.
  destruct (Nat.lt_ge_cases k (length l)) as [Hk|Hk].
  - rewrite (nth_map_lt f l k 0 0) by exact Hk. now apply Hf.
  - rewrite nth_overflow by (rewrite length_map; exact Hk). reflexivity.
Qed.

(** ** The steps of [initializeConnectionMatrices], when they return *)

Ltac len_simpl :=
  repeat first [ rewrite length_map | rewrite length_map2 | rewrite length_seq
               | rewrite repeat_length ].

Lemma step_P2K_spec G mP s s' :
  step_P2K G mP s = (Ok tt, s') ->
  exists c p,
    env s' P2KconnMatrix = Some c /\ env s' P2K = Some p
    /\ shape p = [Z.to_nat (nK mP); Z.to_nat (nP mP)]
    /\ shape c = shape p
    /\ length (data c) = (Z.to_nat (nK mP) * Z.to_nat (nP mP))%nat
    /\ length (data p) = length (data c)
    /\ all_entries (fun x => x <= hebMaxPK mP) p
    /\ (0 <= hebMaxPK mP -> all_entries (fun x => 0 <= x) p)
    /\ (0 <= hebMaxPK mP ->
        forall k, nth k (data c) 0 == 0 -> nth k (data p) 0 == 0)
    /\ frame [P2KconnMatrix; P2K] s s'.
Proof.
  unfold step_P2K. intro H. steps H.
  eexists. eexists.
  split; [reflexivity|]. split; [reflexivity|].
  split; [reflexivity|]. split; [reflexivity|].
  split. { simpl. len_simpl. lia. }
  split. { simpl. len_simpl. lia. }
  split. { apply all_nd_map. intro x. apply clip_max_le. }
  split.
  { intro Hh. eapply all_nd_map_from with (R := fun x => 0 <= x).
    - eapply all_nd_map2 with (R := fun x => 0 <= x) (T := fun x => 0 <= x).
      + apply all_nd_map. intro x. apply clip_min_ge.
      + apply all_nd_map. intro x. unfold Qof_bool.
        destruct (Qlt_bool x (KperPfrMu mP)); lra.
      + intros. now apply mult_ge0.
    - intros x Hx. now apply clip_max_ge0. }
  split.
  { intros Hh k Hk. simpl. apply nth_map_zero.
    - intros x Hx. now apply clip_max_zero.
    - now apply nth_map2_mult_zero. }
  solve_frame.
Qed.

Lemma step_F2R_spec G mP s s' :
  step_F2R G mP s = (Ok tt, s') ->
  exists b f,
    env s F2Rbinary = Some b /\ env s' F2R = Some f
    /\ shape f = shape b
    /\ (wf b -> length (data f) = length (data b))
    /\ all_entries (fun x => 0 <= x) f
    /\ (forall k, nth k (data b) 0 == 0 -> nth k (data f) 0 == 0)
    /\ frame [rand_mat; F2R] s s'.
Proof.
  unfold step_F2R. intro H. steps H.
  eexists. eexists.
  split; [eassumption|]. split; [reflexivity|].
  split; [reflexivity|].
  split. { unfold wf. intro Hw. simpl. len_simpl. lia. }
  split. { apply all_nd_map. intro x. apply clip_min_ge. }
  split.
  { intros k Hk. simpl. apply nth_map_zero.
    - apply clip_min_zero.
    - now apply nth_map2_mult_zero. }
  solve_frame.
Qed.

Lemma step_Rspont_spec G mP s s' :
  step_Rspont G mP s = (Ok tt, s') ->
  exists a,
    env s' Rspont = Some a
    /\ shape a = [Z.to_nat (nG mP); 1%nat]
    /\ length (data a) = Z.to_nat (nG mP)
    /\ (spontRdistFlag mP = 1%Z \/ 0 <= spontRbase mP ->
        all_entries (fun x => 0 <= x) a)
    /\ frame [Rspont] s s'.
Proof.
  unfold step_Rspont. intro H.
  destruct (Z.eqb_spec (spontRdistFlag mP) 1) as [Hflag|Hflag].
  - steps H. eexists.
    split; [reflexivity|]. split; [reflexivity|].
    split. { simpl. len_simpl. lia. }
    split. { intros _. apply all_nd_map. intro x. apply clip_min_ge. }
    solve_frame.
  - steps H. eexists.
    split; [reflexivity|]. split; [reflexivity|].
    split. { simpl. len_simpl. lia. }
    split.
    { intros [Hf|Hbase]; [contradiction|].
      apply all_nd_map_from with (R := fun x => 0 <= x).
      - unfold all_entries. simpl. apply Forall_forall. intros y Hy.
        apply in_map_iff in Hy as [k [<- _]].
        apply mult_ge0; [assumption|apply gamma_variate_ge0].
      - intros x Hx. lra. }
    solve_frame.
Qed.

Lemma step_R2_spec G mP s s' :
  step_R2 G mP s = (Ok tt, s') ->
  exists g p l c,
    env s' R2G = Some g /\ env s' R2P = Some p
    /\ env s' R2L = Some l /\ env s' R2PIcol = Some c
    /\ (0 <= R2Gmu mP -> 0 <= R2Gstd mP -> all_entries (fun x => 0 <= x) g)
    /\ (0 <= R2Gmu mP -> 0 <= R2Gstd mP -> 0 <= R2Pmult mP -> 0 <= R2Pstd mP ->
        all_entries (fun x => 0 <= x) p)
    /\ (0 <= R2Gmu mP -> 0 <= R2Gstd mP -> 0 <= R2Lmult mP -> 0 <= R2Lstd mP ->
        all_entries (fun x => 0 <= x) l)
    /\ (0 <= R2Gmu mP -> 0 <= R2Gstd mP -> 0 <= R2PImult mP -> 0 <= R2PIstd mP ->
        all_entries (fun x => 0 <= x) c)
    /\ frame [R2G; R2P; R2L; R2PIcol] s s'.
Proof.
  unfold step_R2. intro H. steps H.
  assert (HG : 0 <= R2Gmu mP -> 0 <= R2Gstd mP ->
               all_entries (fun x => 0 <= x)
                 (nd_map2 Qplus
                    (nd_map (Qmult (R2Gmu mP)) (nd_ones [Z.to_nat (nG mP); 1%nat]))
                    (nd_map (Qmult (R2Gstd mP))
                       (mk_nd [Z.to_nat (nG mP); 1%nat]
                          (map (uniform G)
                             (seq (rng s) (Z.to_nat (nG mP) * 1))))))).
  { intros Hmu Hstd.
    apply all_nd_map2 with (R := fun x => 0 <= x) (T := fun x => 0 <= x).
    - apply all_nd_map_from with (R := fun x => x == 1).
      + apply all_ones. reflexivity.
      + intros x Hx. rewrite Hx. lra.
    - apply all_nd_map_from with (R := fun x => 0 <= x).
      + apply all_uniform.
      + intros x Hx. now apply mult_ge0.
    - intros. lra. }
  assert (HM : forall mult sd start,
             0 <= R2Gmu mP -> 0 <= R2Gstd mP -> 0 <= mult -> 0 <= sd ->
             all_entries (fun x => 0 <= x)
               (nd_map2 Qmult
                  (nd_map (fun x => mult + sd * x)
                     (mk_nd [Z.to_nat (nG mP); 1%nat]
                        (map (uniform G) (seq start (Z.to_nat (nG mP) * 1)))))
                  (nd_map2 Qplus
                    (nd_map (Qmult (R2Gmu mP)) (nd_ones [Z.to_nat (nG mP); 1%nat]))
                    (nd_map (Qmult (R2Gstd mP))
                       (mk_nd [Z.to_nat (nG mP); 1%nat]
                          (map (uniform G)
                             (seq (rng s) (Z.to_nat (nG mP) * 1)))))))).
  { intros mult sd start Hmu Hstd Hm Hs.
    apply all_nd_map2 with (R := fun x => 0 <= x) (T := fun x => 0 <= x).
    - apply all_nd_map_from with (R := fun x => 0 <= x).
      + apply all_uniform.
      + intros x Hx. now apply affine_ge0.
    - now apply HG.
    - intros. now apply mult_ge0. }
  do 4 eexists.
  split; [reflexivity|]. split; [reflexivity|].
  split; [reflexivity|]. split; [reflexivity|].
  split; [exact HG|].
  split; [apply HM|]. split; [apply HM|]. split; [apply HM|].
  solve_frame.
Qed.

(** ** The lateral matrix *)

Lemma kill_entry_cases (x r : Q) :
  kill_entry x r = x \/ (0 < x /\ kill_entry x r = 0).
Proof.
  unfold kill_entry. destruct (Qlt_bool 0 x) eqn:E; simpl.
  - destruct (Qeq_bool r 1); [right|left; reflexivity].
    split; [now apply Qlt_bool_iff|reflexivity].
  - now left.
Qed.

Lemma nth_map2_kill (xs rs : list Q) (k : nat) :
  length rs = length xs ->
  nth k (map2 kill_entry xs rs) 0 = kill_entry (nth k xs 0) (nth k rs 0).
Proof.
  intro Hlen. destruct (Nat.lt_ge_cases k (length xs)) as [Hk|Hk].
  - apply nth_map2; lia.
  - rewrite !nth_overflow; try lia.
    + reflexivity.
    + rewrite length_map2. lia.
Qed.

Lemma downsample_L2G_spec G mP s r s' l :
  env s L2G = Some l ->
  downsample_L2G G mP s = (r, s') ->
  r = Ok tt
  /\ exists l',
      env s' L2G = Some l'
      /\ length (data l') = length (data l)
      /\ (shape l' = shape l \/ shape l' = [length (data l)])
      /\ (forall k, nth k (data l') 0 = nth k (data l) 0
                    \/ (0 < nth k (data l) 0 /\ nth k (data l') 0 = 0))
      /\ frame [L2G; randList] s s'.
Proof.
  intros Hl. unfold downsample_L2G, bind, getv. rewrite Hl.
  destruct (0 <? numToKill_of mP (numZero_of mP l))%Z.
  - unfold setv, rand_shape, flatten. simpl_env. intro H. inversion H; subst; clear H.
    split; [reflexivity|]. eexists.
    split; [simpl_env; reflexivity|].
    assert (Hlen : length (map (fun x => Qof_bool (lt_quot x (numToKill_of mP (numZero_of mP l))
                       (nG mP ^ 2 - nG mP - numZero_of mP l)))
                      (map (uniform G) (seq (rng s) (size_of [length (data l)]))))
                   = length (data l)).
    { len_simpl. unfold size_of. simpl. lia. }
    split. { simpl. len_simpl. unfold size_of. simpl. lia. }
    split. { right. reflexivity. }
    split.
    { intro k. simpl. rewrite nth_map2_kill by exact Hlen. apply kill_entry_cases. }
    solve_frame.
  - unfold ret. intro H. inversion H; subst; clear H.
    split; [reflexivity|]. exists l.
    split; [exact Hl|]. split; [reflexivity|]. split; [now left|].
    split; [intro k; now left|].
    intros y Hy. reflexivity.
Qed.

Lemma sub_diag_facts (n : nat) (l : ndarray) :
  shape l = [n; n] -> length (data l) = (n * n)%nat ->
  all_entries (fun x => 0 <= x) l ->
  let l2 := nd_map2 Qminus l (diag_of_diag l) in
  shape l2 = [n; n] /\ length (data l2) = (n * n)%nat
  /\ all_entries (fun x => 0 <= x) l2 /\ diag0 n (data l2).
Proof.
  intros Hsh Hlen Hnn l2.
  assert (Hd : length (data (diag_of_diag l)) = (n * n)%nat).
  { unfold diag_of_diag, tab2, nrows, ncols. rewrite Hsh. simpl. now len_simpl. }
  assert (Hk : forall k, (k < n * n)%nat ->
             nth k (data l2) 0 =
             nth k (data l) 0 -
             (if (k / n =? k mod n)%nat then nth (k / n * n + k / n) (data l) 0 else 0)).
  { intros k Hk. unfold l2, nd_map2. cbn [data].
    rewrite (nth_map2 Qminus _ _ k 0 0 0) by lia.
    f_equal. unfold diag_of_diag, tab2, nrows, ncols, entry, get2, ncols.
    rewrite Hsh. simpl. now rewrite nth_map_seq by exact Hk. }
  split; [exact Hsh|].
  split. { unfold l2, nd_map2. cbn [data]. rewrite length_map2. lia. }
  split.
  - unfold all_entries. apply (Forall_nth_iff _ _ 0). intros k Hlt.
    assert (Hkn : (k < n * n)%nat).
    { unfold l2, nd_map2 in Hlt. cbn [data] in Hlt. rewrite length_map2 in Hlt. lia. }
    rewrite (Hk k Hkn).
    destruct (Nat.eqb_spec (k / n) (k mod n)) as [E|E].
    + assert (Hn : n <> 0%nat) by (intro; subst; simpl in Hkn; lia).
      assert (Hkk : (k / n * n + k / n = k)%nat).
      { rewrite E at 2. rewrite (Nat.div_mod_eq k n) at 3. lia. }
      rewrite Hkk. lra.
    + assert (0 <= nth k (data l) 0) by (apply nth_default_ok; [lra|exact Hnn]).
      lra.
  - intros i Hi.
    assert (Hkn : (i * n + i < n * n)%nat) by now apply index2_lt.
    rewrite (Hk _ Hkn). rewrite index2_div, index2_mod by exact Hi.
    rewrite Nat.eqb_refl. lra.
Qed.

Lemma reshape_F_facts (n : nat) (l l' : ndarray) :
  shape l = [n; n] \/ shape l = [(n * n)%nat] ->
  length (data l) = (n * n)%nat ->
  all_entries (fun x => 0 <= x) l -> diag0 n (data l) ->
  reshape_F l n n = Ok l' ->
  shape l' = [n; n] /\ length (data l') = (n * n)%nat
  /\ all_entries (fun x => 0 <= x) l'
  /\ (forall i, (i < n)%nat -> entry l' i i == 0).
Proof.
  intros Hsh Hlen Hnn Hd. unfold reshape_F. rewrite Hlen, Nat.eqb_refl.
  intro H. inversion H; subst l'; clear H.
  split; [reflexivity|].
  split. { unfold tab2. simpl. now len_simpl. }
  assert (Hr : forall t, 0 <= nth t (ravel_F l) 0).
  { intro t. apply nth_default_ok; [lra|].
    unfold ravel_F. destruct Hsh as [-> | ->]; [|exact Hnn].
    apply Forall_forall. intros y Hy. apply in_map_iff in Hy as [k [<- _]].
    unfold get2. apply nth_default_ok; [lra|exact Hnn]. }
  split. { apply all_tab2. intros i j. apply Hr. }
  intros i Hi. rewrite entry_tab2 by exact Hi.
  unfold ravel_F. destruct Hsh as [-> | ->].
  - rewrite nth_map_seq by (pose proof (index2_lt n n i i Hi Hi); lia).
    simpl. replace (i + i * n)%nat with (i * n + i)%nat by lia.
    rewrite index2_div, index2_mod by exact Hi. apply Hd, Hi.
  - replace (i + i * n)%nat with (i * n + i)%nat by lia. apply Hd, Hi.
Qed.

Lemma frame_refl w s : frame w s s.
Proof. intros y _. reflexivity. Qed.

Lemma frame_trans w s1 s2 s3 : frame w s1 s2 -> frame w s2 s3 -> frame w s1 s3.
Proof. intros H12 H23 y Hy. now rewrite (H23 y Hy), (H12 y Hy). Qed.

Lemma frame_upd w s x a r :
  In x w -> frame w s (mk_state (upd (env s) x a) r).
Proof.
  intros Hx y Hy. simpl. unfold upd.
  destruct (name_eqb x y) eqn:E; [|reflexivity].
  apply name_eqb_eq in E. subst. contradiction.
Qed.

Lemma step_L2G_spec G mP s s' :
  step_L2G G mP s = (Ok tt, s') ->
  (0 <= nG mP)%Z
  /\ exists l,
      env s' L2G = Some l
      /\ shape l = [Z.to_nat (nG mP); Z.to_nat (nG mP)]
      /\ length (data l) = (Z.to_nat (nG mP) * Z.to_nat (nG mP))%nat
      /\ all_entries (fun x => 0 <= x) l
      /\ (forall i, (i < Z.to_nat (nG mP))%nat -> entry l i i == 0)
      /\ frame [L2G; randList] s s'.
Proof.
  unfold step_L2G. intro H. steps H.
  match goal with
  | E : downsample_L2G _ _ ?st = _ |- _ =>
      match type of E with
      | context [upd _ L2G ?l2] =>
          destruct (downsample_L2G_spec G mP st _ _ l2 eq_refl E)
            as (_ & l3 & Hl3 & Hlen3 & Hsh3 & Hpt & Hfr)
      end
  end.
  match goal with
  | H0 : Forall _ [nG mP; nG mP] |- _ => inversion H0 as [|? ? HnG _]; subst
  end.
  split; [exact HnG|].
  set (n := Z.to_nat (nG mP)) in *.
  set (l1 := nd_map (clip_min 0)
               (nd_map (fun x => L2Gmu mP + L2Gstd mP * x)
                  (mk_nd [n; n] (map (uniform G) (seq (rng s) (n * (n * 1))))))) in *.
  assert (Hl1 : shape l1 = [n; n] /\ length (data l1) = (n * n)%nat
                /\ all_entries (fun x => 0 <= x) l1).
  { split; [reflexivity|]. split.
    - unfold l1. simpl. len_simpl. lia.
    - apply all_nd_map. intro x. apply clip_min_ge. }
  destruct Hl1 as (Hsh1 & Hlen1 & Hnn1).
  destruct (sub_diag_facts n l1 Hsh1 Hlen1 Hnn1) as (Hsh2 & Hlen2 & Hnn2 & Hd2).
  match goal with
  | E : env _ L2G = Some ?a |- _ =>
      tryif constr_eq a l3 then fail else (rewrite Hl3 in E; injection E as <-)
  end.
  assert (Hnn3 : all_entries (fun x => 0 <= x) l3).
  { unfold all_entries. apply (Forall_nth_iff _ _ 0). intros k _.
    destruct (Hpt k) as [-> | [_ ->]].
    - apply nth_default_ok; [lra|exact Hnn2].
    - lra. }
  assert (Hd3 : diag0 n (data l3)).
  { intros i Hi. destruct (Hpt (i * n + i)%nat) as [-> | [_ ->]].
    - now apply Hd2.
    - reflexivity. }
  match goal with
  | E : reshape_F l3 n n = Ok ?l4 |- _ =>
      destruct (reshape_F_facts n l3 l4) as (Hsh4 & Hlen4 & Hnn4 & Hd4);
        [ rewrite Hlen2 in Hsh3; rewrite Hsh2 in Hsh3; exact Hsh3
        | now rewrite Hlen3 | exact Hnn3 | exact Hd3 | exact E | ];
      exists l4
  end.
  split; [reflexivity|].
  split; [exact Hsh4|]. split; [exact Hlen4|]. split; [exact Hnn4|].
  split; [exact Hd4|].
  eapply frame_trans; [|apply frame_upd; simpl; tauto].
  eapply frame_trans; [|exact Hfr].
  solve_frame.
Qed.

Lemma nth_map2_mult_zero_l (xs ys : list Q) (k : nat) :
  nth k xs 0 == 0 -> nth k (map2 Qmult xs ys) 0 == 0.
Proof.
  intro H.
  destruct (Nat.lt_ge_cases k (length (map2 Qmult xs ys))) as [Hk|Hk].
  - rewrite length_map2 in Hk.
    rewrite (nth_map2 Qmult xs ys k 0 0 0) by lia.
    rewrite H. ring.
  - rewrite nth_overflow by exact Hk. reflexivity.
Qed.

Lemma step_L2etc_spec G mP s s' :
  step_L2etc G mP s = (Ok tt, s') ->
  exists l lg,
    env s L2G = Some l
    /\ env s' L2G = Some (nd_map (fun x => x * GsensMu mP) l)
    /\ env s' L2GgabaSens = Some lg
    /\ shape lg = shape l
    /\ (length (data l) = (Z.to_nat (nG mP) * Z.to_nat (nG mP))%nat ->
        length (data lg) = length (data l))
    /\ (forall k, nth k (data l) 0 == 0 -> nth k (data lg) 0 == 0)
    /\ (0 <= GsensMu mP -> 0 <= GsensStd mP ->
        all_entries (fun x => 0 <= x) l -> all_entries (fun x => 0 <= x) lg)
    /\ (forall x, In x [L2R; L2P; L2L; L2PI] ->
        exists a, env s' x = Some a
                  /\ shape a = [Z.to_nat (nG mP); Z.to_nat (nG mP)]
                  /\ (length (data l) = (Z.to_nat (nG mP) * Z.to_nat (nG mP))%nat ->
                      length (data a) = length (data lg))
                  /\ (forall k, nth k (data lg) 0 == 0 -> nth k (data a) 0 == 0)
                  /\ (all_entries (fun x => 0 <= x) lg ->
                      all_entries (fun x => 0 <= x) a))
    /\ frame [gabaSens; L2GgabaSens; L2G; L2R; L2P; L2L; L2PI] s s'.
Proof.
  unfold step_L2etc, lateral. intro H. steps H.
  match goal with E : env s L2G = Some ?l |- _ => exists l end.
  eexists.
  split; [assumption|]. split; [reflexivity|]. split; [reflexivity|].
  split; [reflexivity|].
  assert (Hlg : forall l0 : ndarray,
             length (data l0) = (Z.to_nat (nG mP) * Z.to_nat (nG mP))%nat ->
             length (map2 Qmult (data l0)
                       (data (tile_1n
                                (nd_map (fun x => GsensMu mP + GsensStd mP * x)
                                   (mk_nd [Z.to_nat (nG mP); 1%nat]
                                      (map (uniform G)
                                         (seq (rng s) (Z.to_nat (nG mP) * 1)))))
                                (Z.to_nat (nG mP)))))
             = length (data l0)).
  { intros l0 Hl0. unfold tile_1n, tab2, nrows, ncols. simpl. len_simpl. lia. }
  split. { intro Hl. simpl. now apply Hlg. }
  split. { intros k Hk. simpl. now apply nth_map2_mult_zero_l. }
  split.
  { intros Hmu Hstd Hl.
    apply all_nd_map2 with (R := fun x => 0 <= x) (T := fun x => 0 <= x).
    - exact Hl.
    - apply all_tab2. intros i j. apply entry_default_ok; [lra|].
      apply all_nd_map_from with (R := fun x => 0 <= x).
      + apply all_uniform.
      + intros x Hx. now apply affine_ge0.
    - intros. now apply mult_ge0. }
  split.
  { intros x Hx. simpl in Hx.
    destruct Hx as [<-|[<-|[<-|[<-|[]]]]]; simpl_env;
      (eexists; split; [reflexivity|]; split; [reflexivity|]; split;
       [ intro Hl; unfold tile_1n, tab2, nrows, ncols; simpl; len_simpl; lia
       | split;
         [ intros k Hk; simpl; now apply nth_map2_mult_zero
         | intro Hnn;
           apply all_nd_map2 with (R := fun x => 0 <= x) (T := fun x => 0 <= x);
           [ apply all_nd_map; intro v; apply clip_min_ge
           | exact Hnn
           | intros; now apply mult_ge0 ] ] ]). }
  solve_frame.
Qed.

(** ** The binary mask *)

Lemma for_each_Ok_inv {A} (I : State -> Prop) (l : list A) (body : A -> M unit) :
  (forall x s s', In x l -> I s -> body x s = (Ok tt, s') -> I s') ->
  forall s s', I s -> for_each l body s = (Ok tt, s') -> I s'.
Proof.
  induction l as [|x l IH]; intros Hb s s' Hs H; simpl in H.
  - apply ret_Ok_inv in H as [_ ->]. exact Hs.
  - apply bind_Ok_inv in H as ([] & s1 & H1 & H2).
    apply (IH (fun y t t' Hy => Hb y t t' (or_intror Hy)) s1 s'); [|exact H2].
    apply (Hb x s s1); [now left|exact Hs|exact H1].
Qed.

Lemma orthogonalize_row_Ok i s s' :
  orthogonalize_row i s = (Ok tt, s') -> s' = s.
Proof.
  unfold orthogonalize_row. intro H.
  apply bind_Ok_inv in H as (b & s1 & H1 & H2).
  apply getv_Ok_inv in H1 as [_ ->].
  destruct (Qlt_bool 1 (Qsum (row_of b i))).
  - discriminate H2.
  - now apply ret_Ok_inv in H2.
Qed.

Lemma fancy_set_col_Ok b idx j v b' :
  fancy_set_col b idx j v = Ok b' ->
  shape b' = shape b /\ length (data b') = length (data b).
Proof.
  unfold fancy_set_col. destruct (_ && _); intro H; inversion H.
  split; [reflexivity|]. simpl. now len_simpl.
Qed.

Lemma connect_feature_Ok G m j s s' :
  connect_feature G m j s = (Ok tt, s') ->
  exists b b',
    env s F2Rbinary = Some b /\ env s' F2Rbinary = Some b'
    /\ shape b' = shape b /\ length (data b') = length (data b)
    /\ frame [F2Rbinary; counts] s s'.
Proof.
  unfold connect_feature. intro H.
  apply bind_Ok_inv in H as (c & s1 & H1 & H).
  apply getv_Ok_inv in H1 as [Hc ->].
  apply bind_Ok_inv in H as (a & s1 & H1 & H).
  unfold randint in H1. simpl in H1. inversion H1; subst; clear H1.
  steps H.
  match goal with
  | E : fancy_set_col ?b _ _ _ = Ok ?b' |- _ =>
      exists b, b'; destruct (fancy_set_col_Ok _ _ _ _ _ E) as [Hs Hl]
  end.
  split; [assumption|]. split; [reflexivity|].
  split; [exact Hs|]. split; [exact Hl|].
  solve_frame.
Qed.

Lemma step_F2Rbinary_spec G mP s s' :
  step_F2Rbinary G mP s = (Ok tt, s') ->
  (0 <= nR mP)%Z /\ (0 <= nF mP)%Z
  /\ exists b,
      env s' F2Rbinary = Some b
      /\ shape b = [Z.to_nat (nR mP); Z.to_nat (nF mP)]
      /\ wf b
      /\ frame [F2Rbinary; counts] s s'.
Proof.
  unfold step_F2Rbinary. intro H.
  destruct (Qlt_bool 0 (RperFFrMu mP)).
  - apply bind_Ok_inv in H as (u & s1 & H1 & H).
    apply rand_Ok_inv in H1 as (Hd & -> & ->).
    apply bind_Ok_inv in H as (p & s1 & H1 & H).
    apply read_attr_Ok_inv in H1 as [Hp ->].
    apply bind_Ok_inv in H as ([] & s1 & H1 & H).
    apply setv_Ok_inv in H1. subst s1. simpl_env.
    assert (Hs : s' = mk_state
                   (upd (env s) F2Rbinary
                      (nd_lt_scalar
                         (mk_nd (map Z.to_nat [nR mP; nF mP])
                            (map (uniform G)
                               (seq (rng s) (size_of (map Z.to_nat [nR mP; nF mP])))))
                         p))
                   (rng s + size_of (map Z.to_nat [nR mP; nF mP]))).
    { destruct (makeFeaturesOrthogonalFlag mP).
      - unfold for_range in H.
        apply (for_each_Ok_inv (fun t => t = _) _ _
                 (fun x t t' _ Ht Hb =>
                    eq_trans (orthogonalize_row_Ok x t t' Hb) Ht) _ s' eq_refl H).
      - now apply ret_Ok_inv in H as [_ ->]. }
    subst s'. inversion Hd as [|? ? HnR Hd']; subst. inversion Hd' as [|? ? HnF _]; subst.
    split; [exact HnR|]. split; [exact HnF|].
    eexists. split; [reflexivity|]. split; [reflexivity|].
    split. { unfold wf. simpl. now len_simpl. }
    solve_frame.
  - apply bind_Ok_inv in H as (z & s1 & H1 & H).
    apply np_zeros_Ok_inv in H1 as (Hd & -> & ->).
    apply bind_Ok_inv in H as ([] & s1 & H1 & H).
    apply setv_Ok_inv in H1. subst s1.
    apply bind_Ok_inv in H as (c & s1 & H1 & H).
    apply np_zeros_Ok_inv in H1 as (_ & -> & ->).
    apply bind_Ok_inv in H as ([] & s1 & H1 & H).
    apply setv_Ok_inv in H1. subst s1. simpl_env.
    apply bind_Ok_inv in H as (q & s1 & H1 & H).
    apply py_div_Ok_inv in H1 as (_ & _ & ->).
    inversion Hd as [|? ? HnR Hd']; subst. inversion Hd' as [|? ? HnF _]; subst.
    split; [exact HnR|]. split; [exact HnF|].
    set (s0 := mk_state _ _) in H.
    set (I := fun t : State =>
                (exists b, env t F2Rbinary = Some b
                           /\ shape b = [Z.to_nat (nR mP); Z.to_nat (nF mP)]
                           /\ wf b)
                /\ frame [F2Rbinary; counts] s0 t).
    assert (HI0 : I s0).
    { split; [|apply frame_refl].
      eexists. split; [reflexivity|]. split; [reflexivity|].
      unfold wf, nd_zeros. simpl. now len_simpl. }
    assert (Hbody : forall j t t', I t ->
              connect_feature G (inject_Z (Qceiling q)) j t = (Ok tt, t') -> I t').
    { intros j t t' [(b & Hb & Hsh & Hwf) Hfr] Hc.
      apply connect_feature_Ok in Hc as (b0 & b' & Hb0 & Hb' & Hsh' & Hlen' & Hfr').
      rewrite Hb in Hb0. injection Hb0 as <-.
      split.
      - exists b'. split; [exact Hb'|]. split; [congruence|].
        unfold wf in *. congruence.
      - eapply frame_trans; eassumption. }
    assert (HI : I s').
    { unfold for_range in H.
      refine (for_each_Ok_inv I _ _ _ s0 s' HI0 H).
      intros _ t t' _ Ht Hin.
      refine (for_each_Ok_inv I _ _ _ t t' Ht Hin).
      intros j u u' _. apply Hbody. }
    destruct HI as [(b & Hb & Hsh & Hwf) Hfr].
    exists b. split; [exact Hb|]. split; [exact Hsh|]. split; [exact Hwf|].
    eapply frame_trans; [|exact Hfr]. unfold s0. solve_frame.
Qed.

(** ** The whole function, when it returns *)

Lemma initializeConnectionMatrices_Ok_inv G mP s s' :
  initializeConnectionMatrices G mP s = (Ok tt, s') ->
  exists s1 s2 s3 s4 s5 s6,
    step_F2Rbinary G mP s = (Ok tt, s1)
    /\ step_F2R G mP s1 = (Ok tt, s2)
    /\ step_Rspont G mP s2 = (Ok tt, s3)
    /\ step_R2 G mP s3 = (Ok tt, s4)
    /\ step_L2G G mP s4 = (Ok tt, s5)
    /\ step_L2etc G mP s5 = (Ok tt, s6)
    /\ step_P2K G mP s6 = (Ok tt, s').
Proof.
  unfold initializeConnectionMatrices. intro H.
  apply bind_Ok_inv in H as ([] & s1 & H1 & H).
  apply bind_Ok_inv in H as ([] & s2 & H2 & H).
  apply bind_Ok_inv in H as ([] & s3 & H3 & H).
  apply bind_Ok_inv in H as ([] & s4 & H4 & H).
  apply bind_Ok_inv in H as ([] & s5 & H5 & H).
  apply bind_Ok_inv in H as ([] & s6 & H6 & H).
  exists s1, s2, s3, s4, s5, s6. tauto.
Qed.

(** The value of a variable that the later steps do not assign. *)
Lemma not_in_names (x : name) (w : list name) :
  existsb (name_eqb x) w = false -> ~ In x w.
Proof.
  intros H Hin.
  assert (existsb (name_eqb x) w = true).
  { apply existsb_exists. exists x. split; [exact Hin|]. now apply name_eqb_eq. }
  congruence.
Qed.

Ltac keep Hf :=
  match type of Hf with
  | frame ?w _ _ =>
      match goal with
      | |- env _ ?x = _ => rewrite (Hf x (not_in_names x w eq_refl))
      end
  end.

Ltac split_run H :=
  apply initializeConnectionMatrices_Ok_inv in H;
  destruct H as (s1 & s2 & s3 & s4 & s5 & s6 & H1 & H2 & H3 & H4 & H5 & H6 & H7);
  apply step_F2Rbinary_spec in H1;
  destruct H1 as (HnR & HnF & b & Hb & Hbsh & Hbwf & Hf1);
  apply step_F2R_spec in H2;
  destruct H2 as (b' & f & Hb' & Hf & Hfsh & Hflen & Hfnn & Hfz & Hf2);
  rewrite Hb in Hb'; injection Hb' as <-;
  apply step_Rspont_spec in H3;
  destruct H3 as (rs & Hrs & Hrssh & Hrslen & Hrsnn & Hf3);
  apply step_R2_spec in H4;
  destruct H4 as (g & p & l & c & Hg & Hp & Hl & Hc & Hgnn & Hpnn & Hlnn & Hcnn & Hf4);
  apply step_L2G_spec in H5;
  destruct H5 as (HnG & lat & Hlat & Hlatsh & Hlatlen & Hlatnn & Hlatd & Hf5);
  apply step_L2etc_spec in H6;
  destruct H6 as (lat' & lg & Hlat' & Hlat6 & Hlg & Hlgsh & Hlglen & Hlgz & Hlgnn
                  & Hder & Hf6);
  rewrite Hlat in Hlat'; injection Hlat' as <-;
  apply step_P2K_spec in H7;
  destruct H7 as (cm & pk & Hcm & Hpk & Hpksh & Hcmsh & Hcmlen & Hpklen & Hpkle
                  & Hpknn & Hpkz & Hf7).

Lemma final_F2R G mP s s' :
  initializeConnectionMatrices G mP s = (Ok tt, s') ->
  exists b f,
    env s' F2Rbinary = Some b /\ env s' F2R = Some f
    /\ shape b = [Z.to_nat (nR mP); Z.to_nat (nF mP)] /\ wf b
    /\ nonneg f /\ zero_where b f.
Proof.
  intro H. split_run H. exists b, f.
  split. { keep Hf7. keep Hf6. keep Hf5. keep Hf4. keep Hf3. keep Hf2. exact Hb. }
  split. { keep Hf7. keep Hf6. keep Hf5. keep Hf4. keep Hf3. exact Hf. }
  split; [exact Hbsh|]. split; [exact Hbwf|]. split; [exact Hfnn|].
  split; [exact Hfsh|]. split; [now apply Hflen|].
  intros k _. apply Hfz.
Qed.

Lemma final_R G mP s s' :
  initializeConnectionMatrices G mP s = (Ok tt, s') ->
  unclipped_nonneg mP ->
  forall x, In x [Rspont; R2G; R2P; R2L; R2PIcol] ->
  exists a, env s' x = Some a /\ nonneg a.
Proof.
  intros H (Hsp & HGmu & HGsd & HPm & HPs & HLm & HLs & HIm & HIs & _) x Hx.
  split_run H. simpl in Hx.
  destruct Hx as [<-|[<-|[<-|[<-|[<-|[]]]]]].
  - exists rs. split; [|now apply Hrsnn].
    keep Hf7. keep Hf6. keep Hf5. keep Hf4. exact Hrs.
  - exists g. split; [|now apply Hgnn].
    keep Hf7. keep Hf6. keep Hf5. exact Hg.
  - exists p. split; [|now apply Hpnn].
    keep Hf7. keep Hf6. keep Hf5. exact Hp.
  - exists l. split; [|now apply Hlnn].
    keep Hf7. keep Hf6. keep Hf5. exact Hl.
  - exists c. split; [|now apply Hcnn].
    keep Hf7. keep Hf6. keep Hf5. exact Hc.
Qed.

Lemma final_L2G G mP s s' :
  initializeConnectionMatrices G mP s = (Ok tt, s') ->
  (0 <= nG mP)%Z
  /\ exists l,
      env s' L2G = Some l
      /\ shape l = [Z.to_nat (nG mP); Z.to_nat (nG mP)]
      /\ length (data l) = (Z.to_nat (nG mP) * Z.to_nat (nG mP))%nat
      /\ (forall i, (i < Z.to_nat (nG mP))%nat -> entry l i i == 0)
      /\ (0 <= GsensMu mP -> nonneg l).
Proof.
  intro H. split_run H. split; [exact HnG|].
  eexists. split. { keep Hf7. exact Hlat6. }
  split; [exact Hlatsh|].
  split. { simpl. now len_simpl. }
  split.
  - intros i Hi. unfold entry, get2, ncols. cbn [shape data nd_map nth].
    rewrite Hlatsh. cbn [nth].
    rewrite (nth_map_lt _ _ _ 0 0).
    + specialize (Hlatd i Hi). unfold entry, get2, ncols in Hlatd.
      rewrite Hlatsh in Hlatd. cbn [nth] in Hlatd. rewrite Hlatd. ring.
    + rewrite Hlatlen. now apply index2_lt.
  - intro Hmu. apply all_nd_map_from with (R := fun x => 0 <= x); [exact Hlatnn|].
    intros x Hx. now apply mult_ge0.
Qed.

Lemma final_lateral G mP s s' :
  initializeConnectionMatrices G mP s = (Ok tt, s') ->
  exists lg,
    env s' L2GgabaSens = Some lg
    /\ (0 <= GsensMu mP -> 0 <= GsensStd mP -> nonneg lg)
    /\ forall x, In x [L2R; L2P; L2L; L2PI] ->
       exists a, env s' x = Some a /\ zero_where lg a /\ (nonneg lg -> nonneg a).
Proof.
  intro H. split_run H. exists lg.
  split. { keep Hf7. exact Hlg. }
  split. { intros Hmu Hsd. now apply Hlgnn. }
  intros x Hx. destruct (Hder x Hx) as (a & Ha & Hash & Halen & Haz & Hann).
  exists a. split.
  { simpl in Hx. destruct Hx as [<-|[<-|[<-|[<-|[]]]]]; keep Hf7; exact Ha. }
  split; [|exact Hann].
  split. { rewrite Hash, Hlgsh. now symmetry. }
  split. { now apply Halen. }
  intros k _. apply Haz.
Qed.

Lemma final_P2K G mP s s' :
  initializeConnectionMatrices G mP s = (Ok tt, s') ->
  exists c p,
    env s' P2KconnMatrix = Some c /\ env s' P2K = Some p
    /\ shape p = [Z.to_nat (nK mP); Z.to_nat (nP mP)]
    /\ all_entries (fun x => x <= hebMaxPK mP) p
    /\ (0 <= hebMaxPK mP -> nonneg p /\ zero_where c p).
Proof.
  intro H. split_run H. exists cm, pk.
  split; [exact Hcm|]. split; [exact Hpk|]. split; [exact Hpksh|].
  split; [exact Hpkle|].
  intro Hh. split; [now apply Hpknn|].
  split; [now symmetry|]. split; [exact Hpklen|].
  intros k _. now apply Hpkz.
Qed.

(** ** Non-negativity and masks *)

(** C1 (the code fails the claim).  With [R2Gmu = -1] and every other
    hyper-parameter in range, the function returns normally and every entry
    of [R2G] is negative.  Line 67 adds [R2Gmu] to a non-negative term and,
    unlike lines 54, 59, 82 and 119, nothing clips the sum at 0, although the
    comment of line 68 says that the last term prevents negative [R2G]
    effects. *)
Theorem negative_R2Gmu_gives_negative_R2G :
  exists s' a,
    initializeConnectionMatrices (constant_generator 0)
      (small_params 3 0 None false 0 (-1) (1 # 5) 20) fresh_state = (Ok tt, s')
    /\ env s' R2G = Some a
    /\ all_entries (fun x => x < 0) a
    /\ ~ nonneg a.
Proof.
  eexists. eexists.
  split; [vm_compute; reflexivity|].
  split; [vm_compute; reflexivity|].
  split.
  - repeat constructor.
  - intro H. inversion H as [|x l Hx _]. apply Hx. reflexivity.
Qed.

(** Provided the hyper-parameters that reach a matrix without
    being clipped at zero are non-negative, whenever the function returns,
    every entry of the twelve matrices and vectors it produced is
    non-negative; [F2R] is exactly zero wherever the mask [F2Rbinary] is,
    [P2K] wherever [P2KconnMatrix] is, and [L2R], [L2P], [L2L], [L2PI]
    wherever [L2GgabaSens] is. *)
Theorem connection_matrices_nonneg_and_masked G mP s s' :
  unclipped_nonneg mP ->
  initializeConnectionMatrices G mP s = (Ok tt, s') ->
  (forall x,
      In x [F2R; Rspont; R2G; R2P; R2L; R2PIcol; L2G; L2R; L2P; L2L; L2PI; P2K] ->
      exists a, env s' x = Some a /\ nonneg a)
  /\ (exists b f,
        env s' F2Rbinary = Some b /\ env s' F2R = Some f /\ zero_where b f)
  /\ (exists c p,
        env s' P2KconnMatrix = Some c /\ env s' P2K = Some p /\ zero_where c p)
  /\ (exists lg,
        env s' L2GgabaSens = Some lg
        /\ forall x, In x [L2R; L2P; L2L; L2PI] ->
                     exists a, env s' x = Some a /\ zero_where lg a).
Proof.
  intros Hpar H.
  destruct (final_F2R _ _ _ _ H) as (b & f & Hb & Hf & _ & _ & Hfnn & Hfz).
  destruct (final_L2G _ _ _ _ H) as (_ & l & Hl & _ & _ & _ & Hlnn).
  destruct (final_lateral _ _ _ _ H) as (lg & Hlg & Hlgnn & Hder).
  destruct (final_P2K _ _ _ _ H) as (c & p & Hc & Hp & _ & _ & Hpk).
  pose proof (final_R _ _ _ _ H Hpar) as HR.
  destruct Hpar as (_ & _ & _ & _ & _ & _ & _ & _ & _ & Hmu & Hsd & Hheb).
  destruct (Hpk Hheb) as [Hpnn Hpz].
  split.
  - intros x Hx. simpl in Hx.
    destruct Hx as [<-|[Hx|[Hx|[Hx|[Hx|[Hx|[<-|[Hx|[Hx|[Hx|[Hx|[<-|[]]]]]]]]]]]]];
      try (apply HR; subst x; simpl; tauto);
      try (destruct (Hder x ltac:(subst x; simpl; tauto)) as (a & Ha & _ & Hann);
           exists a; split; [exact Ha|apply Hann; now apply Hlgnn]).
    + now exists f.
    + exists l. split; [exact Hl|now apply Hlnn].
    + now exists p.
  - split; [now exists b, f|].
    split; [now exists c, p|].
    exists lg. split; [exact Hlg|].
    intros x Hx. destruct (Hder x Hx) as (a & Ha & Haz & _). now exists a.
Qed.

Lemma connection_matrices_nonneg_and_masked_witness :
  let s' := snd (initializeConnectionMatrices stepping_generator ceiling_params
                   fresh_state) in
  unclipped_nonneg ceiling_params
  /\ initializeConnectionMatrices stepping_generator ceiling_params fresh_state
     = (Ok tt, s')
  /\ (forall x,
        In x [F2R; Rspont; R2G; R2P; R2L; R2PIcol; L2G; L2R; L2P; L2L; L2PI; P2K] ->
        exists a, env s' x = Some a /\ nonneg a)
  /\ (exists b f,
        env s' F2Rbinary = Some b /\ env s' F2R = Some f /\ zero_where b f)
  /\ (exists c p,
        env s' P2KconnMatrix = Some c /\ env s' P2K = Some p /\ zero_where c p)
  /\ (exists lg,
        env s' L2GgabaSens = Some lg
        /\ forall x, In x [L2R; L2P; L2L; L2PI] ->
                     exists a, env s' x = Some a /\ zero_where lg a).
Proof.
  intro s'.
  assert (Hpar : unclipped_nonneg ceiling_params).
  { unfold unclipped_nonneg. simpl. repeat split; try (left; reflexivity); lra. }
  assert (Hrun : initializeConnectionMatrices stepping_generator ceiling_params
                   fresh_state = (Ok tt, s')).
  { vm_compute. reflexivity. }
  split; [exact Hpar|]. split; [exact Hrun|].
  exact (connection_matrices_nonneg_and_masked _ _ _ _ Hpar Hrun).
Defined.

(** ** The Hebbian ceiling *)

(** C2.  Whenever the function returns, no entry of [P2K] exceeds the
    ceiling [hebMaxPK]; and for a ceiling that is not negative, every entry
    lies in [[0, hebMaxPK]]. *)
Theorem P2K_within_ceiling G mP s s' :
  initializeConnectionMatrices G mP s = (Ok tt, s') ->
  exists p,
    env s' P2K = Some p
    /\ shape p = [Z.to_nat (nK mP); Z.to_nat (nP mP)]
    /\ all_entries (fun x => x <= hebMaxPK mP) p
    /\ (0 <= hebMaxPK mP ->
        all_entries (fun x => 0 <= x /\ x <= hebMaxPK mP) p).
Proof.
  intro H.
  destruct (final_P2K _ _ _ _ H) as (c & p & _ & Hp & Hsh & Hle & Hpk).
  exists p. split; [exact Hp|]. split; [exact Hsh|]. split; [exact Hle|].
  intro Hh. destruct (Hpk Hh) as [Hnn _].
  unfold nonneg, all_entries in *. rewrite Forall_forall in *.
  intros x Hx. split; [now apply Hnn|now apply Hle].
Qed.

(** The run on which the bounds are exhibited: both clips and the mask take
    effect. *)
Example ceiling_params_run :
  exists s' c p,
    initializeConnectionMatrices stepping_generator ceiling_params fresh_state
    = (Ok tt, s')
    /\ env s' P2KconnMatrix = Some c /\ data c = [0; 0; 1; 1; 1; 1]
    /\ env s' P2K = Some p
    /\ map Qred (data p) = [0; 0; 0; 0; 1 # 2; 3 # 4].
Proof.
  eexists. eexists. eexists.
  split; [vm_compute; reflexivity|].
  split; [vm_compute; reflexivity|].
  split; [vm_compute; reflexivity|].
  split; [vm_compute; reflexivity|].
  vm_compute. reflexivity.
Qed.

Lemma P2K_within_ceiling_witness :
  let s' := snd (initializeConnectionMatrices stepping_generator ceiling_params
                   fresh_state) in
  initializeConnectionMatrices stepping_generator ceiling_params fresh_state
  = (Ok tt, s')
  /\ exists p,
      env s' P2K = Some p
      /\ shape p = [2%nat; 3%nat]
      /\ all_entries (fun x => x <= 3 # 4) p
      /\ (0 <= 3 # 4 -> all_entries (fun x => 0 <= x /\ x <= 3 # 4) p).
Proof.
  intro s'.
  assert (Hrun : initializeConnectionMatrices stepping_generator ceiling_params
                   fresh_state = (Ok tt, s')).
  { vm_compute. reflexivity. }
  split; [exact Hrun|].
  exact (P2K_within_ceiling _ _ _ _ Hrun).
Defined.

(** ** The diagonal of the lateral matrix *)

(** C4.  Whenever the function returns, [L2G] is an [nG x nG] array whose
    diagonal entries are all exactly zero. *)
Theorem L2G_diagonal_zero G mP s s' :
  initializeConnectionMatrices G mP s = (Ok tt, s') ->
  exists l,
    env s' L2G = Some l
    /\ shape l = [Z.to_nat (nG mP); Z.to_nat (nG mP)]
    /\ length (data l) = (Z.to_nat (nG mP) * Z.to_nat (nG mP))%nat
    /\ forall i, (i < Z.to_nat (nG mP))%nat -> entry l i i == 0.
Proof.
  intro H.
  destruct (final_L2G _ _ _ _ H) as (_ & l & Hl & Hsh & Hlen & Hd & _).
  exists l. tauto.
Qed.

Lemma L2G_diagonal_zero_witness :
  let s' := snd (initializeConnectionMatrices stepping_generator template_params
                   fresh_state) in
  initializeConnectionMatrices stepping_generator template_params fresh_state
  = (Ok tt, s')
  /\ exists l,
      env s' L2G = Some l
      /\ shape l = [3%nat; 3%nat]
      /\ length (data l) = 9%nat
      /\ forall i, (i < 3)%nat -> entry l i i == 0.
Proof.
  intro s'.
  assert (Hrun : initializeConnectionMatrices stepping_generator template_params
                   fresh_state = (Ok tt, s')).
  { vm_compute. reflexivity. }
  split; [exact Hrun|].
  exact (L2G_diagonal_zero _ _ _ _ Hrun).
Defined.

(** ** The down-sampling of the lateral matrix *)

Lemma downsample_L2G_exact G mP s l :
  env s L2G = Some l ->
  exists l',
    fst (downsample_L2G G mP s) = Ok tt
    /\ env (snd (downsample_L2G G mP s)) L2G = Some l'
    /\ data l' =
       if (0 <? numToKill_of mP (numZero_of mP l))%Z
       then map2 kill_entry (data l) (kill_flags G mP l (rng s))
       else data l.
Proof.
  intro Hl. unfold downsample_L2G, bind, getv. rewrite Hl.
  destruct (0 <? numToKill_of mP (numZero_of mP l))%Z.
  - unfold setv, rand_shape, flatten. simpl_env. eexists.
    split; [reflexivity|]. split; [reflexivity|].
    unfold kill_flags, size_of. simpl. now rewrite Nat.mul_1_r.
  - exists l. unfold ret. simpl. tauto.
Qed.

Lemma length_kill_flags G mP l start :
  length (kill_flags G mP l start) = length (data l).
Proof. unfold kill_flags. now len_simpl. Qed.

Lemma nth_kill_flags G mP l start k :
  (k < length (data l))%nat ->
  nth k (kill_flags G mP l start) 0 =
  Qof_bool (lt_quot (uniform G (start + k))
              (numToKill_of mP (numZero_of mP l))
              (nG mP ^ 2 - nG mP - numZero_of mP l)).
Proof.
  intro Hk. unfold kill_flags.
  rewrite (nth_map_lt _ _ _ 0 0) by (now len_simpl).
  now rewrite nth_map_seq.
Qed.

Lemma Qof_bool_eq1 (b : bool) : Qeq_bool (Qof_bool b) 1 = b.
Proof. now destruct b. Qed.

(** C9.  The down-sampling step always returns; it leaves every entry of
    [L2G] as it was or replaces a strictly positive entry by 0, so that an
    entry equal to 0 before the step is unchanged and no entry is given
    another non-zero value. *)
Theorem downsampling_only_zeroes_positive_entries G mP s r s' l :
  env s L2G = Some l ->
  downsample_L2G G mP s = (r, s') ->
  r = Ok tt
  /\ exists l',
      env s' L2G = Some l'
      /\ length (data l') = length (data l)
      /\ forall k, (k < length (data l))%nat ->
           (nth k (data l') 0 = nth k (data l) 0
            \/ (0 < nth k (data l) 0 /\ nth k (data l') 0 = 0))
           /\ (nth k (data l) 0 == 0 -> nth k (data l') 0 = nth k (data l) 0).
Proof.
  intros Hl H.
  destruct (downsample_L2G_spec G mP s r s' l Hl H)
    as (Hr & l' & Hl' & Hlen & _ & Hpt & _).
  split; [exact Hr|]. exists l'. split; [exact Hl'|]. split; [exact Hlen|].
  intros k _. split; [apply Hpt|].
  intro Hz. destruct (Hpt k) as [He|[Hpos _]]; [exact He|].
  rewrite Hz in Hpos. exfalso. apply (Qlt_irrefl 0 Hpos).
Qed.

Lemma downsampling_only_zeroes_positive_entries_witness :
  let out := downsample_L2G stepping_generator template_params lateral_state in
  env lateral_state L2G = Some (mk_nd [3%nat; 3%nat] [0; 1; 1; 1; 0; 1; 1; 1; 0])
  /\ downsample_L2G stepping_generator template_params lateral_state
     = (fst out, snd out)
  /\ fst out = Ok tt
  /\ exists l',
      env (snd out) L2G = Some l'
      /\ length (data l') = 9%nat
      /\ forall k, (k < 9)%nat ->
           (nth k (data l') 0 = nth k [0; 1; 1; 1; 0; 1; 1; 1; 0] 0
            \/ (0 < nth k [0; 1; 1; 1; 0; 1; 1; 1; 0] 0 /\ nth k (data l') 0 = 0))
           /\ (nth k [0; 1; 1; 1; 0; 1; 1; 1; 0] 0 == 0 ->
               nth k (data l') 0 = nth k [0; 1; 1; 1; 0; 1; 1; 1; 0] 0).
Proof.
  intro out.
  assert (Hl : env lateral_state L2G
               = Some (mk_nd [3%nat; 3%nat] [0; 1; 1; 1; 0; 1; 1; 1; 0]))
    by reflexivity.
  assert (Hrun : downsample_L2G stepping_generator template_params lateral_state
                 = (fst out, snd out)) by (vm_compute; reflexivity).
  split; [exact Hl|]. split; [exact Hrun|].
  exact (downsampling_only_zeroes_positive_entries _ _ _ _ _ _ Hl Hrun).
Defined.

(** C3 (as stated, refuted).  With three glomeruli, [L2Gfr = 1/2] and
    uniform variates that are all 0, the function returns normally with no
    non-zero entry left in [L2G], where the target is 3 of the 6 off-diagonal
    entries.  With variates [(k mod 16) / 16] one non-zero entry is left. *)
Lemma sparsity_counterexample :
  (exists s' l,
      initializeConnectionMatrices (constant_generator 0) template_params
        fresh_state = (Ok tt, s')
      /\ env s' L2G = Some l
      /\ nonzero_count l = 0%nat
      /\ ~ sparsity_within_one_unit template_params l)
  /\ (exists s' l,
      initializeConnectionMatrices stepping_generator template_params
        fresh_state = (Ok tt, s')
      /\ env s' L2G = Some l
      /\ nonzero_count l = 1%nat
      /\ ~ sparsity_within_one_unit template_params l).
Proof.
  split; eexists; eexists;
    (split; [vm_compute; reflexivity|]);
    (split; [vm_compute; reflexivity|]);
    (split; [vm_compute; reflexivity|]);
    unfold sparsity_within_one_unit; vm_compute; intro H; now apply H.
Qed.

(** C3 (amended).  When the down-sampling step returns, an entry of [L2G] is
    newly zero exactly when [numToKill > 0], the entry was strictly positive,
    and its own uniform variate is below [numToKill / (nG^2 - nG - numZero)];
    every other entry is unchanged.  [numToKill] sets the probability of
    each draw, not the number of entries zeroed. *)
Theorem downsampling_zeroes_by_independent_draws G mP s s' l :
  env s L2G = Some l ->
  downsample_L2G G mP s = (Ok tt, s') ->
  exists l',
    env s' L2G = Some l'
    /\ length (data l') = length (data l)
    /\ forall k, (k < length (data l))%nat ->
         let killed :=
           (0 <? numToKill_of mP (numZero_of mP l))%Z
           && Qlt_bool 0 (nth k (data l) 0)
           && lt_quot (uniform G (rng s + k))
                (numToKill_of mP (numZero_of mP l))
                (nG mP ^ 2 - nG mP - numZero_of mP l) in
         nth k (data l') 0 = if killed then 0 else nth k (data l) 0.
Proof.
  intros Hl H.
  destruct (downsample_L2G_exact G mP s l Hl) as (l' & _ & Hl' & Hdata).
  rewrite H in Hl'. simpl in Hl'.
  exists l'. split; [exact Hl'|].
  destruct (0 <? numToKill_of mP (numZero_of mP l))%Z.
  - split.
    + rewrite Hdata, length_map2, length_kill_flags. lia.
    + intros k Hk. simpl. rewrite Hdata.
      rewrite nth_map2_kill by apply length_kill_flags.
      rewrite nth_kill_flags by exact Hk.
      unfold kill_entry. now rewrite Qof_bool_eq1.
  - split; [now rewrite Hdata|].
    intros k Hk. simpl. now rewrite Hdata.
Qed.

Lemma downsampling_zeroes_by_independent_draws_witness :
  let s' := snd (downsample_L2G stepping_generator template_params lateral_state) in
  let l := mk_nd [3%nat; 3%nat] [0; 1; 1; 1; 0; 1; 1; 1; 0] in
  env lateral_state L2G = Some l
  /\ downsample_L2G stepping_generator template_params lateral_state = (Ok tt, s')
  /\ exists l',
      env s' L2G = Some l'
      /\ length (data l') = length (data l)
      /\ forall k, (k < length (data l))%nat ->
           let killed :=
             (0 <? numToKill_of template_params (numZero_of template_params l))%Z
             && Qlt_bool 0 (nth k (data l) 0)
             && lt_quot (uniform stepping_generator (rng lateral_state + k))
                  (numToKill_of template_params (numZero_of template_params l))
                  (nG template_params ^ 2 - nG template_params
                   - numZero_of template_params l) in
           nth k (data l') 0 = if killed then 0 else nth k (data l) 0.
Proof.
  intros s' l.
  assert (Hl : env lateral_state L2G = Some l) by reflexivity.
  assert (Hrun : downsample_L2G stepping_generator template_params lateral_state
                 = (Ok tt, s')) by (vm_compute; reflexivity).
  split; [exact Hl|]. split; [exact Hrun|].
  exact (downsampling_zeroes_by_independent_draws _ _ _ _ _ Hl Hrun).
Defined.

(** ** The feature-to-receptor mask *)

(** What lines 24-25 compute: an entry of the mask is 1 exactly when its
    uniform variate is below [RperSFrMu]. *)
Lemma bernoulli_mask_entry G mP s s' p :
  Qlt_bool 0 (RperFFrMu mP) = true ->
  RperSFrMu mP = Some p ->
  step_F2Rbinary G mP s = (Ok tt, s') ->
  exists b,
    env s' F2Rbinary = Some b
    /\ shape b = [Z.to_nat (nR mP); Z.to_nat (nF mP)]
    /\ forall i j, (i < Z.to_nat (nR mP))%nat -> (j < Z.to_nat (nF mP))%nat ->
         entry b i j =
         Qof_bool (Qlt_bool (uniform G (rng s + (i * Z.to_nat (nF mP) + j))) p).
Proof.
  intros Hff Hsf. unfold step_F2Rbinary. rewrite Hff, Hsf. intro H.
  apply bind_Ok_inv in H as (u & s1 & H1 & H).
  apply rand_Ok_inv in H1 as (Hd & -> & ->).
  apply bind_Ok_inv in H as (p' & s1 & H1 & H).
  apply read_attr_Ok_inv in H1 as [Hp ->]. injection Hp as <-.
  apply bind_Ok_inv in H as ([] & s1 & H1 & H).
  apply setv_Ok_inv in H1. subst s1. simpl_env.
  assert (Hs : s' = mk_state
                 (upd (env s) F2Rbinary
                    (nd_lt_scalar
                       (mk_nd (map Z.to_nat [nR mP; nF mP])
                          (map (uniform G)
                             (seq (rng s) (size_of (map Z.to_nat [nR mP; nF mP])))))
                       p))
                 (rng s + size_of (map Z.to_nat [nR mP; nF mP]))).
  { destruct (makeFeaturesOrthogonalFlag mP).
    - unfold for_range in H.
      apply (for_each_Ok_inv (fun t => t = _) _ _
               (fun x t t' _ Ht Hb =>
                  eq_trans (orthogonalize_row_Ok x t t' Hb) Ht) _ s' eq_refl H).
    - now apply ret_Ok_inv in H as [_ ->]. }
  subst s'. eexists. split; [simpl_env; reflexivity|].
  split; [reflexivity|].
  intros i j Hi Hj. unfold entry, get2, ncols, nd_lt_scalar, nd_map.
  cbn [shape data map nth].
  pose proof (index2_lt _ _ i j Hi Hj) as Hlt.
  rewrite (nth_map_lt _ _ _ 0 0) by (len_simpl; unfold size_of; simpl; lia).
  rewrite nth_map_seq by (unfold size_of; simpl; lia).
  reflexivity.
Qed.

(** C5 (the code fails the claim).  [RperFFrMu = 1/2] and every uniform
    variate is [1/4], below [RperFFrMu]; the mask is nevertheless zero
    everywhere, since line 25 compares with [RperSFrMu = 1/8].  When the
    object has no attribute [RperSFrMu], line 25 raises [AttributeError]. *)
Theorem bernoulli_mask_ignores_RperFFrMu :
  let G := constant_generator (2 ^ 51) in
  let mP := small_params 3 (1 # 2) (Some (1 # 8)) false 0 5 (1 # 5) 20 in
  let mP' := small_params 3 (1 # 2) None false 0 5 (1 # 5) 20 in
  (forall k, uniform G k == 1 # 4)
  /\ (forall k, uniform G k < RperFFrMu mP)
  /\ (exists s' b,
        initializeConnectionMatrices G mP fresh_state = (Ok tt, s')
        /\ env s' F2Rbinary = Some b
        /\ data b = [0; 0; 0; 0])
  /\ (exists s',
        initializeConnectionMatrices G mP' fresh_state = (Raise AttributeError, s')
        /\ env s' F2Rbinary = None).
Proof.
  intros G mP mP'.
  split; [intro k; reflexivity|].
  split; [intro k; reflexivity|].
  split.
  - eexists. eexists. split; [vm_compute; reflexivity|].
    split; vm_compute; reflexivity.
  - eexists. split; vm_compute; reflexivity.
Qed.

(** What lines 26-36 compute: the loop raises [TypeError] as soon as a row has
    more than one active entry, and otherwise changes nothing. *)
Lemma orthogonalize_rows_run (rows : list nat) s b :
  env s F2Rbinary = Some b ->
  for_each rows orthogonalize_row s =
  if existsb (fun i => Qlt_bool 1 (Qsum (row_of b i))) rows
  then (Raise TypeError, s) else (Ok tt, s).
Proof.
  intro Hb. induction rows as [|i rows IH]; simpl; [reflexivity|].
  unfold bind at 1. unfold orthogonalize_row at 1. unfold bind, getv.
  rewrite Hb. destruct (Qlt_bool 1 (Qsum (row_of b i))); simpl.
  - reflexivity.
  - exact IH.
Qed.

(** C6 (the code fails the claim).  Orthogonalization is requested and every
    uniform variate is 0, so that both rows of the mask have two active
    entries; the function raises [TypeError] at line 33, leaving the mask as
    it was and no weight matrix. *)
Theorem orthogonalization_raises_TypeError :
  let G := constant_generator 0 in
  let mP := small_params 3 1 (Some 1) true 0 5 (1 # 5) 20 in
  exists s' b,
    initializeConnectionMatrices G mP fresh_state = (Raise TypeError, s')
    /\ env s' F2Rbinary = Some b
    /\ data b = [1; 1; 1; 1]
    /\ Qsum (row_of b 0) == 2
    /\ env s' F2R = None.
Proof.
  intros G mP. eexists. eexists.
  split; [vm_compute; reflexivity|].
  split; [vm_compute; reflexivity|].
  split; [reflexivity|]. split; reflexivity.
Qed.

(** C7 (the code fails the claim).  Two receptors, two features and
    [RperFRawNum = 1] give the cap [ceil(2 * 1 / 2) = 1].  When
    [np.random.randint(2)] returns 1 at both turns of the loop, the index
    array is the column indices of [np.where], all 0, and receptor 0 is
    connected to both features while receptor 1 is connected to none. *)
Theorem fixed_fan_in_exceeds_cap :
  let G := constant_generator 1 in
  let mP := template_params in
  Qceiling (inject_Z (nF mP * RperFRawNum mP) / inject_Z (nR mP)) = 1%Z
  /\ exists s' b c,
      initializeConnectionMatrices G mP fresh_state = (Ok tt, s')
      /\ env s' F2Rbinary = Some b
      /\ data b = [1; 1; 0; 0]
      /\ Qsum (row_of b 0) == 2
      /\ Qsum (row_of b 1) == 0
      /\ env s' counts = Some c
      /\ data c = [2; 0].
Proof.
  intros G mP. split; [reflexivity|].
  eexists. eexists. eexists.
  split; [vm_compute; reflexivity|].
  split; [vm_compute; reflexivity|].
  split; [reflexivity|]. split; [reflexivity|]. split; [reflexivity|].
  split; [vm_compute; reflexivity|]. reflexivity.
Qed.

(** ** When the function returns *)

Lemma bind_progress {A B} (c : M A) (k : A -> M B) s a s1 b :
  c s = (Ok a, s1) ->
  (exists s', k a s1 = (Ok b, s')) ->
  exists s', bind c k s = (Ok b, s').
Proof. intros Hc [s' Hk]. exists s'. now rewrite (bind_run _ _ _ _ _ Hc). Qed.

Lemma getv_run x a s : env s x = Some a -> getv x s = (Ok a, s).
Proof. unfold getv. now intros ->. Qed.

Lemma np_max_run a s : data a <> [] -> np_max a s = (Ok tt, s).
Proof. unfold np_max. destruct (data a); [congruence|reflexivity]. Qed.

Lemma np_min_run a s : data a <> [] -> np_min a s = (Ok tt, s).
Proof. unfold np_min. destruct (data a); [congruence|reflexivity]. Qed.

Lemma np_zeros_run dims s :
  Forall (fun d => (0 <= d)%Z) dims ->
  np_zeros dims s = (Ok (nd_zeros (map Z.to_nat dims)), s).
Proof.
  intro H. unfold np_zeros, bind, lift. now rewrite (check_dims_nonneg _ H).
Qed.

Lemma nonempty_of_length {A} (l : list A) : (0 < length l)%nat -> l <> [].
Proof. destruct l; simpl; [lia|discriminate]. Qed.

Ltac dims_ok := repeat constructor; lia.

(** Running the next primitive of a computation. *)
Ltac run_prim :=
  first
    [ apply rand_run; dims_ok
    | apply np_ones_run; dims_ok
    | apply np_zeros_run; dims_ok
    | apply getv_run; simpl_env; first [reflexivity | eassumption]
    | reflexivity ].

Lemma bind_assoc_at {A B C} (c : M A) (k1 : A -> M B) (k2 : B -> M C) s :
  bind (bind c k1) k2 s = bind c (fun a => bind (k1 a) k2) s.
Proof. unfold bind. destruct (c s) as [[a|e] s1]; reflexivity. Qed.

Ltac run :=
  repeat (rewrite ?bind_assoc_at; eapply bind_progress; [run_prim|]); simpl_env.

Lemma step_F2R_runs G mP s b :
  env s F2Rbinary = Some b -> exists s', step_F2R G mP s = (Ok tt, s').
Proof.
  intro Hb. unfold step_F2R. run. eexists. reflexivity.
Qed.

Lemma step_Rspont_runs G mP s :
  (0 <= nG mP)%Z ->
  spontRdistFlag mP = 1%Z \/ (0 < spontRmu mP /\ 0 < spontRstd mP) ->
  exists s', step_Rspont G mP s = (Ok tt, s').
Proof.
  intros HnG Hsp. unfold step_Rspont.
  destruct (Z.eqb_spec (spontRdistFlag mP) 1) as [Hflag|Hflag].
  - run. eexists. reflexivity.
  - destruct Hsp as [Hsp|[Hmu Hsd]]; [contradiction|].
    assert (Ha : 0 < spontRmu mP / spontRstd mP).
    { apply Qlt_shift_div_l; [exact Hsd|]. lra. }
    assert (Hb : 0 < spontRmu mP / (spontRmu mP / spontRstd mP)).
    { apply Qlt_shift_div_l; [exact Ha|]. lra. }
    unfold py_div.
    destruct (Qeq_bool (spontRstd mP) 0) eqn:E1.
    { apply Qeq_bool_iff in E1. lra. }
    unfold bind at 1. unfold ret at 1.
    destruct (Qeq_bool (spontRmu mP / spontRstd mP) 0) eqn:E2.
    { apply Qeq_bool_iff in E2. lra. }
    unfold bind at 1. unfold ret at 1.
    unfold gamma.
    destruct (Qlt_bool (spontRmu mP / spontRstd mP) 0) eqn:E3.
    { apply Qlt_bool_iff in E3. lra. }
    destruct (Qlt_bool (spontRmu mP / (spontRmu mP / spontRstd mP)) 0) eqn:E4.
    { apply Qlt_bool_iff in E4. lra. }
    simpl orb. cbv iota. unfold bind, lift.
    rewrite check_dims_nonneg by dims_ok.
    eexists. reflexivity.
Qed.

Lemma step_R2_runs G mP s :
  (0 <= nG mP)%Z -> exists s', step_R2 G mP s = (Ok tt, s').
Proof.
  intros HnG. unfold step_R2. run. eexists. reflexivity.
Qed.

Lemma step_L2G_runs G mP s :
  (0 <= nG mP)%Z -> exists s', step_L2G G mP s = (Ok tt, s').
Proof.
  intros HnG. unfold step_L2G. run.
  match goal with
  | |- exists s', bind (downsample_L2G G mP) _ ?st = _ =>
      destruct (downsample_L2G G mP st) as [r s1] eqn:Hd;
      match type of Hd with
      | context [upd _ L2G ?l2] =>
          destruct (downsample_L2G_spec G mP st r s1 l2 eq_refl Hd)
            as (-> & l3 & Hl3 & Hlen3 & _)
      end
  end.
  eapply bind_progress; [exact Hd|].
  eapply bind_progress; [apply getv_run; exact Hl3|].
  assert (Hr : reshape_F l3 (Z.to_nat (nG mP)) (Z.to_nat (nG mP))
               = Ok (tab2 (Z.to_nat (nG mP)) (Z.to_nat (nG mP))
                       (fun i j => nth (i + j * Z.to_nat (nG mP)) (ravel_F l3) 0))).
  { unfold reshape_F. rewrite Hlen3.
    unfold diag_of_diag, tab2, nrows, ncols. simpl. len_simpl.
    replace (Nat.min (Z.to_nat (nG mP) * (Z.to_nat (nG mP) * 1))
                     (Z.to_nat (nG mP) * Z.to_nat (nG mP)))
      with (Z.to_nat (nG mP) * Z.to_nat (nG mP))%nat by lia.
    now rewrite Nat.eqb_refl. }
  rewrite Hr. run. eexists. reflexivity.
Qed.

Lemma step_L2etc_runs G mP s l :
  (0 <= nG mP)%Z -> env s L2G = Some l ->
  exists s', step_L2etc G mP s = (Ok tt, s').
Proof.
  intros HnG Hl. unfold step_L2etc, lateral. run. eexists. reflexivity.
Qed.

Lemma step_P2K_runs G mP s :
  (1 <= nK mP)%Z -> (1 <= nP mP)%Z ->
  exists s', step_P2K G mP s = (Ok tt, s').
Proof.
  intros HnK HnP. unfold step_P2K. run.
  eapply bind_progress.
  { apply np_max_run, nonempty_of_length. simpl. len_simpl. nia. }
  eexists. apply np_min_run, nonempty_of_length. simpl. len_simpl. nia.
Qed.

(** The index arrays of [np.where] on the counts are valid row indices. *)
Lemma where_lt_in_range (c : ndarray) (m : Q) (n : nat) :
  shape c = [n; 1%nat] -> length (data c) = n ->
  forallb (fun p => (p <? n)%nat) (fst (where_lt c m)) = true
  /\ forallb (fun p => (p <? n)%nat) (snd (where_lt c m)) = true.
Proof.
  intros Hsh Hlen. unfold where_lt, ncols. rewrite Hsh, Hlen. cbn [nth fst snd].
  split; apply forallb_forall; intros p Hp;
    apply in_map_iff in Hp as (k & <- & Hk);
    apply filter_In in Hk as [Hk _]; apply in_seq in Hk;
    apply Nat.ltb_lt.
  - rewrite Nat.div_1_r. lia.
  - rewrite Nat.mod_1_r. lia.
Qed.

Lemma connect_feature_runs G m j s c b (n f : nat) :
  env s counts = Some c -> shape c = [n; 1%nat] -> length (data c) = n ->
  env s F2Rbinary = Some b -> shape b = [n; f] -> (j < f)%nat ->
  exists s' c' b',
    connect_feature G m j s = (Ok tt, s')
    /\ env s' counts = Some c' /\ shape c' = [n; 1%nat] /\ length (data c') = n
    /\ env s' F2Rbinary = Some b' /\ shape b' = [n; f].
Proof.
  intros Hc Hcsh Hclen Hb Hbsh Hj.
  destruct (where_lt_in_range c m n Hcsh Hclen) as [Hrows Hcols].
  set (a := (raw G (rng s) mod 2)%Z).
  set (idx := if (a =? 0)%Z then fst (where_lt c m) else snd (where_lt c m)).
  assert (Hidx : forallb (fun p => (p <? n)%nat) idx = true).
  { unfold idx. now destruct (a =? 0)%Z. }
  assert (Hadd : exists c', fancy_add1 c idx = Ok c'
                            /\ shape c' = [n; 1%nat] /\ length (data c') = n).
  { unfold fancy_add1, nrows. rewrite Hcsh. cbn [nth]. rewrite Hidx.
    eexists. split; [reflexivity|]. split; [reflexivity|].
    simpl. now len_simpl. }
  destruct Hadd as (c' & Hadd & Hc'sh & Hc'len).
  assert (Hset : exists b', fancy_set_col b idx j 1 = Ok b' /\ shape b' = [n; f]).
  { unfold fancy_set_col, nrows, ncols. rewrite Hbsh. cbn [nth]. rewrite Hidx.
    apply Nat.ltb_lt in Hj. rewrite Hj. simpl.
    eexists. split; reflexivity. }
  destruct Hset as (b' & Hset & Hb'sh).
  exists (mk_state (upd (upd (env s) counts c') F2Rbinary b') (S (rng s))), c', b'.
  split.
  - unfold connect_feature.
    rewrite (bind_run _ _ _ _ _ (getv_run _ _ _ Hc)).
    rewrite (bind_run _ _ s a (mk_state (env s) (S (rng s)))) by reflexivity.
    fold idx. unfold bind, lift, setv, getv. rewrite Hadd. simpl_env.
    rewrite Hb, Hset. reflexivity.
  - simpl_env. tauto.
Qed.

Lemma for_each_runs {A} (I : State -> Prop) (l : list A) (body : A -> M unit) :
  (forall x s, In x l -> I s -> exists s', body x s = (Ok tt, s') /\ I s') ->
  forall s, I s -> exists s', for_each l body s = (Ok tt, s') /\ I s'.
Proof.
  induction l as [|x l IH]; intros Hb s Hs; simpl.
  - exists s. split; [reflexivity|exact Hs].
  - destruct (Hb x s (or_introl eq_refl) Hs) as (s1 & H1 & Hs1).
    destruct (IH (fun y t Hy => Hb y t (or_intror Hy)) s1 Hs1) as (s' & H' & Hs').
    exists s'. split; [|exact Hs'].
    now rewrite (bind_run _ _ _ _ _ H1).
Qed.

Lemma step_F2Rbinary_runs G mP s :
  (0 <= nR mP)%Z -> (0 <= nF mP)%Z ->
  (0 < RperFFrMu mP /\ RperSFrMu mP <> None
   /\ makeFeaturesOrthogonalFlag mP = false)
  \/ (RperFFrMu mP <= 0 /\ (1 <= nR mP)%Z) ->
  exists s', step_F2Rbinary G mP s = (Ok tt, s').
Proof.
  intros HnR HnF Hmode. unfold step_F2Rbinary.
  destruct Hmode as [(Hff & Hsf & Horth) | (Hff & HnR1)].
  - apply Qlt_bool_iff in Hff. rewrite Hff, Horth.
    destruct (RperSFrMu mP) as [p|]; [|congruence].
    run. eexists. reflexivity.
  - apply Qlt_bool_false_iff in Hff. rewrite Hff.
    run. unfold py_div.
    destruct (Qeq_bool (inject_Z (nR mP)) 0) eqn:E.
    { apply Qeq_bool_iff in E. unfold Qeq in E. simpl in E. lia. }
    eapply bind_progress; [reflexivity|].
    set (m := inject_Z (Qceiling _)).
    set (n := Z.to_nat (nR mP)). set (f := Z.to_nat (nF mP)).
    set (I := fun t : State =>
                exists c b,
                  env t counts = Some c /\ shape c = [n; 1%nat]
                  /\ length (data c) = n
                  /\ env t F2Rbinary = Some b /\ shape b = [n; f]).
    match goal with |- exists s', for_range _ _ ?st = _ => set (s0 := st) end.
    assert (HI0 : I s0).
    { do 2 eexists. split; [reflexivity|]. split; [reflexivity|].
      split; [|split; reflexivity].
      unfold nd_zeros, size_of. simpl. len_simpl. fold n. lia. }
    unfold for_range.
    destruct (for_each_runs I (seq 0 (Z.to_nat (RperFRawNum mP)))
                (fun _ => for_each (seq 0 (Z.to_nat (nF mP)))
                            (connect_feature G m))) with (s := s0)
      as (s' & Hs' & _); [|exact HI0|now exists s'].
    intros _ t _ Ht.
    apply (for_each_runs I); [|exact Ht].
    intros j u Hj (c & b & Hc & Hcsh & Hclen & Hb & Hbsh).
    apply in_seq in Hj.
    destruct (connect_feature_runs G m j u c b n f Hc Hcsh Hclen Hb Hbsh)
      as (u' & c' & b' & Hrun & Hc' & Hc'sh & Hc'len & Hb' & Hb'sh);
      [fold f; lia|].
    exists u'. split; [exact Hrun|]. exists c', b'. tauto.
Qed.

Lemma final_present G mP s s' :
  initializeConnectionMatrices G mP s = (Ok tt, s') ->
  forall x, In x matrix_names -> exists a, env s' x = Some a.
Proof.
  intros H x Hx. split_run H. unfold matrix_names in Hx. simpl in Hx.
  destruct Hx as [<-|[<-|[<-|[<-|[<-|[<-|[<-|[<-|[Hx|[Hx|[Hx|[Hx|[<-|[]]]]]]]]]]]]]];
    try (destruct (Hder x ltac:(subst x; simpl; tauto)) as (a & Ha & _);
         exists a; subst x; keep Hf7; exact Ha).
  - exists b. keep Hf7. keep Hf6. keep Hf5. keep Hf4. keep Hf3. keep Hf2. exact Hb.
  - exists f. keep Hf7. keep Hf6. keep Hf5. keep Hf4. keep Hf3. exact Hf.
  - exists rs. keep Hf7. keep Hf6. keep Hf5. keep Hf4. exact Hrs.
  - exists g. keep Hf7. keep Hf6. keep Hf5. exact Hg.
  - exists p. keep Hf7. keep Hf6. keep Hf5. exact Hp.
  - exists l. keep Hf7. keep Hf6. keep Hf5. exact Hl.
  - exists c. keep Hf7. keep Hf6. keep Hf5. exact Hc.
  - eexists. keep Hf7. exact Hlat6.
  - exists pk. exact Hpk.
Qed.

Lemma initializeConnectionMatrices_runs G mP s :
  returns_normally mP ->
  exists s', initializeConnectionMatrices G mP s = (Ok tt, s').
Proof.
  intros (HnR & HnF & HnG & HnK & HnP & Hmode & Hsp).
  unfold initializeConnectionMatrices.
  destruct (step_F2Rbinary_runs G mP s HnR HnF Hmode) as (s1 & H1).
  eapply bind_progress; [exact H1|].
  apply step_F2Rbinary_spec in H1 as (_ & _ & b & Hb & _).
  destruct (step_F2R_runs G mP s1 b Hb) as (s2 & H2).
  eapply bind_progress; [exact H2|].
  destruct (step_Rspont_runs G mP s2 HnG Hsp) as (s3 & H3).
  eapply bind_progress; [exact H3|].
  destruct (step_R2_runs G mP s3 HnG) as (s4 & H4).
  eapply bind_progress; [exact H4|].
  destruct (step_L2G_runs G mP s4 HnG) as (s5 & H5).
  eapply bind_progress; [exact H5|].
  apply step_L2G_spec in H5 as (_ & l & Hl & _).
  destruct (step_L2etc_runs G mP s5 l HnG Hl) as (s6 & H6).
  eapply bind_progress; [exact H6|].
  apply step_P2K_runs; assumption.
Qed.

(** ** Malformed hyper-parameters *)

(** C8 (as stated, refuted).  With no glomerulus ([nG = 0]), connection
    probabilities equal to 2 and a negative standard deviation, the function
    returns normally, having set every matrix.  With [nG = -1] it raises the
    [ValueError] of the array allocation of line 58, after [F2Rbinary] and
    [F2R] have been built. *)
Lemma malformed_params_counterexample :
  let G := constant_generator 0 in
  let mP := small_params 0 (1 # 2) (Some 2) false (-1) 5 2 20 in
  let mP' := small_params (-1) (1 # 2) (Some 2) false (-1) 5 2 20 in
  (nG mP = 0%Z /\ RperSFrMu mP = Some 2 /\ 1 < KperPfrMu mP /\ F2Rstd mP < 0)
  /\ (exists s',
        initializeConnectionMatrices G mP fresh_state = (Ok tt, s')
        /\ forall x, In x matrix_names -> env s' x <> None)
  /\ (exists s' f,
        initializeConnectionMatrices G mP' fresh_state = (Raise ValueError, s')
        /\ env s' F2R = Some f
        /\ env s' Rspont = None).
Proof.
  intros G mP mP'.
  split. { repeat split; reflexivity. }
  split.
  - eexists. split; [vm_compute; reflexivity|].
    intros x Hx. unfold matrix_names in Hx. simpl in Hx.
    repeat (destruct Hx as [<-|Hx]; [vm_compute; discriminate|]).
    destruct Hx.
  - eexists. eexists. split; [vm_compute; reflexivity|].
    split; vm_compute; reflexivity.
Qed.

(** C8 (amended).  The function checks no hyper-parameter.  It returns
    normally, having set every matrix, as soon as the layer sizes are
    non-negative with [nK] and [nP] at least 1, the branch of lines 24-49
    that is taken does not raise, and the gamma branch, if taken, has
    positive parameters: whatever the connection probabilities, the means and
    the other standard deviations are. *)
Theorem no_configuration_check G mP s :
  returns_normally mP ->
  exists s',
    initializeConnectionMatrices G mP s = (Ok tt, s')
    /\ forall x, In x matrix_names -> exists a, env s' x = Some a.
Proof.
  intro Hp. destruct (initializeConnectionMatrices_runs G mP s Hp) as (s' & H).
  exists s'. split; [exact H|]. now apply (final_present G mP s s').
Qed.

Lemma no_configuration_check_witness :
  let mP := small_params 0 (1 # 2) (Some 2) false (-1) 5 2 20 in
  returns_normally mP
  /\ exists s',
      initializeConnectionMatrices (constant_generator 0) mP fresh_state
      = (Ok tt, s')
      /\ forall x, In x matrix_names -> exists a, env s' x = Some a.
Proof.
  intro mP.
  assert (Hp : returns_normally mP).
  { unfold returns_normally, mP. simpl.
    do 5 (split; [lia|]).
    split.
    - left. split; [lra|]. split; [discriminate|reflexivity].
    - left. reflexivity. }
  split; [exact Hp|].
  exact (no_configuration_check (constant_generator 0) mP fresh_state Hp).
Defined.

(** ** The digit queues *)

Lemma wp_bind {A B} (c : M A) (k : A -> M B) Q E s :
  wp c (fun a s' => wp (k a) Q E s') E s -> wp (bind c k) Q E s.
Proof.
  unfold wp, bind. destruct (c s) as [[a|e] s1]; auto.
Qed.

Lemma wp_ret {A} (a : A) (Q : A -> State -> Prop) E s : Q a s -> wp (ret a) Q E s.
Proof. auto. Qed.

Lemma wp_lift {A} (r : result A) (Q : A -> State -> Prop) E s :
  (forall a, r = Ok a -> Q a s) -> E s -> wp (lift r) Q E s.
Proof. unfold wp, lift. destruct r; auto. Qed.

Lemma wp_getv x (Q : ndarray -> State -> Prop) E s :
  (forall a, env s x = Some a -> Q a s) -> E s -> wp (getv x) Q E s.
Proof. unfold wp, getv. destruct (env s x); auto. Qed.

Lemma wp_setv x a (Q : unit -> State -> Prop) E s :
  Q tt (mk_state (upd (env s) x a) (rng s)) -> wp (setv x a) Q E s.
Proof. auto. Qed.

Lemma wp_choice G top n (Q : list nat -> State -> Prop) E s :
  (forall l, Q l (mk_state (env s) (rng s + n))) -> E s ->
  wp (choice G top n) Q E s.
Proof. unfold wp, choice. destruct (top =? 0)%nat; auto. Qed.

Lemma wp_for_each {A} (I : State -> Prop) (l : list A) (body : A -> M unit) :
  (forall x s, I s -> wp (body x) (fun _ => I) I s) ->
  forall s, I s -> wp (for_each l body) (fun _ => I) I s.
Proof.
  intro Hb. induction l as [|x l IH]; intros s Hs; simpl.
  - exact Hs.
  - apply wp_bind. specialize (Hb x s Hs). unfold wp in *.
    destruct (body x s) as [[[]|e] s1]; [apply IH|]; exact Hb.
Qed.

Lemma index3_col (n1 n2 p c i : nat) :
  (c < n1)%nat -> (i < n2)%nat -> (((p * n1 + c) * n2 + i) / n2 mod n1 = c)%nat.
Proof.
  intros Hc Hi. rewrite index2_div by exact Hi. now apply index2_mod.
Qed.

(** A slice assignment keeps the shape, and changes no entry in a column
    outside the slice. *)
Lemma assign_columns_Ok dq a b i src dq' n0 n1 n2 :
  shape dq = [n0; n1; n2] ->
  assign_columns dq a b i src = Ok dq' ->
  shape dq' = shape dq /\ length (data dq') = length (data dq)
  /\ forall t, (b <= (t / n2) mod n1)%nat -> nth t (data dq') 0 = nth t (data dq) 0.
Proof.
  intros Hsh. unfold assign_columns. rewrite Hsh.
  destruct (n2 <=? i)%nat; [discriminate|].
  destruct (_ || _); [|discriminate].
  intro H. inversion H; subst dq'; clear H.
  split; [reflexivity|]. split; [simpl; now len_simpl|].
  intros t Ht. cbn [data].
  destruct (Nat.lt_ge_cases t (length (data dq))) as [Hlt|Hge].
  - rewrite nth_map_seq by exact Hlt. cbn [Nat.add].
    destruct (Nat.ltb_spec (t / n2 mod n1)
                (Nat.max (Nat.min a n1) (Nat.min b n1))) as [Hhi|Hhi];
      [|now rewrite andb_false_r].
    destruct (Nat.leb_spec (Nat.min a n1) (t / n2 mod n1)) as [Hlo|Hlo];
      [exfalso; lia|].
    now rewrite andb_false_r.
  - rewrite !nth_overflow; [reflexivity|exact Hge|now len_simpl].
Qed.

Lemma tail_untouched_assign n0 n1 n2 bound init e dq a b i src dq' :
  tail_untouched n0 n1 n2 bound init e ->
  e digitQueues = Some dq ->
  (b <= bound)%nat ->
  assign_columns dq a b i src = Ok dq' ->
  tail_untouched n0 n1 n2 bound init (upd e digitQueues dq').
Proof.
  intros (dq0 & Hdq0 & Hsh & Hlen & Hkeep) Hdq Hb Ha.
  rewrite Hdq in Hdq0. injection Hdq0 as <-.
  destruct (assign_columns_Ok _ _ _ _ _ _ _ _ _ Hsh Ha) as (Hsh' & Hlen' & Hkeep').
  exists dq'. split; [reflexivity|]. split; [congruence|]. split; [congruence|].
  intros t Ht. rewrite Hkeep' by lia. now apply Hkeep.
Qed.

(** One turn of the loop over the classes writes no column from
    [2 * val_per_class + tr_per_class * num_sniffs] on, whether it returns or
    raises. *)
Lemma fill_class_tail G v tr sn fA i n0 n1 n2 init s :
  let J := tail_untouched n0 n1 n2 (2 * v + tr * sn) init in
  J (env s) ->
  wp (fill_class G v tr sn fA i) (fun _ t => J (env t)) (fun t => J (env t)) s.
Proof.
  intros J HJ. unfold fill_class.
  (* baseline images *)
  apply wp_bind, wp_choice; [intro r1|exact HJ]. cbn [env].
  apply wp_bind, wp_lift; [intros src1 _|exact HJ].
  apply wp_bind, wp_getv; [intros dq1 Hdq1|exact HJ].
  apply wp_bind, wp_lift; [intros dq1' Ha1|exact HJ].
  apply wp_bind, wp_setv. cbn [env rng].
  assert (HJ1 : J (upd (env s) digitQueues dq1')).
  { cbn [env] in Hdq1.
    eapply tail_untouched_assign; [exact HJ|exact Hdq1| |exact Ha1]. lia. }
  (* training images *)
  apply wp_bind, wp_choice; [intro r2|exact HJ1]. cbn [env rng].
  apply wp_bind, wp_lift; [intros src2 _|exact HJ1].
  apply wp_bind, wp_getv; [intros dq2 Hdq2|exact HJ1].
  apply wp_bind, wp_lift; [intros dq2' Ha2|exact HJ1].
  apply wp_bind, wp_setv. cbn [env rng] in *.
  assert (HJ2 : J (upd (upd (env s) digitQueues dq1') digitQueues dq2')).
  { eapply tail_untouched_assign; [exact HJ1|exact Hdq2| |exact Ha2]. lia. }
  (* post-training images *)
  apply wp_bind, wp_choice; [intro r3|exact HJ2]. cbn [env rng].
  apply wp_bind, wp_lift; [intros src3 _|exact HJ2].
  apply wp_bind, wp_getv; [intros dq3 Hdq3|exact HJ2].
  apply wp_bind, wp_lift; [intros dq3' Ha3|exact HJ2].
  apply wp_setv. cbn [env rng] in *.
  eapply tail_untouched_assign; [exact HJ2|exact Hdq3| |exact Ha3]. lia.
Qed.

(** C10.  [digitQueues] is allocated with the shape of [fA]; whether the
    assembly loop returns or raises, [digitQueues] keeps that shape and every
    entry in a column of index at least
    [2 * val_per_class + tr_per_class * num_sniffs] is still 0: no such
    column is ever written. *)
Theorem digitQueues_tail_is_zero G val_per_class tr_per_class num_sniffs fA
    n0 n1 n2 s :
  shape fA = [n0; n1; n2] ->
  let out := assemble_digitQueues G val_per_class tr_per_class num_sniffs fA s in
  exists dq,
    env (snd out) digitQueues = Some dq
    /\ shape dq = shape fA
    /\ length (data dq) = (n0 * (n1 * n2))%nat
    /\ forall p c i,
         (p < n0)%nat -> (c < n1)%nat -> (i < n2)%nat ->
         (2 * val_per_class + tr_per_class * num_sniffs <= c)%nat ->
         get3 n1 n2 (data dq) p c i = 0.
Proof.
  intros Hsh out.
  set (bound := (2 * val_per_class + tr_per_class * num_sniffs)%nat).
  set (init := repeat 0 (size_of (shape fA))).
  set (J := tail_untouched n0 n1 n2 bound init).
  set (s0 := mk_state (upd (env s) digitQueues (nd_zeros (shape fA))) (rng s)).
  assert (HJ0 : J (env s0)).
  { exists (nd_zeros (shape fA)). split; [reflexivity|].
    split; [exact Hsh|]. split; [reflexivity|]. intros t _. reflexivity. }
  assert (Hloop : wp (for_each class_labels
                        (fill_class G val_per_class tr_per_class num_sniffs fA))
                     (fun _ t => J (env t)) (fun t => J (env t)) s0).
  { apply (wp_for_each (fun t => J (env t))); [|exact HJ0].
    intros i t Ht. now apply fill_class_tail. }
  assert (Hout : J (env (snd out))).
  { unfold out, assemble_digitQueues, bind, setv. fold s0.
    unfold wp in Hloop. destruct (for_each _ _ s0) as [[[]|e] s1]; exact Hloop. }
  destruct Hout as (dq & Hdq & Hdsh & Hlen & Hkeep).
  exists dq. split; [exact Hdq|]. split; [congruence|].
  split. { rewrite Hlen. unfold init. rewrite repeat_length, Hsh. unfold size_of. simpl. lia. }
  intros p c i Hp Hc Hi Hb. unfold get3.
  rewrite Hkeep by (rewrite index3_col by assumption; exact Hb).
  unfold init. apply nth_repeat.
Qed.

Lemma digitQueues_tail_is_zero_witness :
  let fA := mk_nd [1%nat; 400%nat; 10%nat]
              (map (fun k => inject_Z (Z.of_nat k)) (seq 0 4000)) in
  shape fA = [1%nat; 400%nat; 10%nat]
  /\ (let out := assemble_digitQueues stepping_generator 15 3 2 fA fresh_state in
      exists dq,
        env (snd out) digitQueues = Some dq
        /\ shape dq = shape fA
        /\ length (data dq) = (1 * (400 * 10))%nat
        /\ forall p c i,
             (p < 1)%nat -> (c < 400)%nat -> (i < 10)%nat ->
             (2 * 15 + 3 * 2 <= c)%nat ->
             get3 400 10 (data dq) p c i = 0).
Proof.
  intro fA. split; [reflexivity|].
  exact (digitQueues_tail_is_zero stepping_generator 15 3 2 fA 1 400 10
           fresh_state eq_refl).
Defined.

(* ================================================================== *)
(** * Further properties of [initializeConnectionMatrices]              *)
(* ================================================================== *)

(** ** Shapes *)

Lemma step_R2_shapes G mP s s' :
  step_R2 G mP s = (Ok tt, s') ->
  forall x, In x [R2G; R2P; R2L; R2PIcol] ->
  exists a, env s' x = Some a
            /\ shape a = [Z.to_nat (nG mP); 1%nat] /\ wf a.
Proof.
  unfold step_R2. intro H. steps H. intros x Hx. simpl in Hx.
  destruct Hx as [<-|[<-|[<-|[<-|[]]]]]; simpl_env;
    (eexists; split; [reflexivity|]; split; [reflexivity|];
     unfold wf, nd_ones, size_of; simpl; len_simpl; lia).
Qed.

(** As [split_run], keeping the equations of the seven steps as [E1] to
    [E7]. *)
Ltac split_run_keep H :=
  let H' := fresh "H" in
  pose proof H as H';
  apply initializeConnectionMatrices_Ok_inv in H';
  destruct H' as (s1 & s2 & s3 & s4 & s5 & s6 & E1 & E2 & E3 & E4 & E5 & E6 & E7);
  pose proof E1 as H1; pose proof E2 as H2; pose proof E3 as H3;
  pose proof E4 as H4; pose proof E5 as H5; pose proof E6 as H6;
  pose proof E7 as H7;
  apply step_F2Rbinary_spec in H1;
  destruct H1 as (HnR & HnF & b & Hb & Hbsh & Hbwf & Hf1);
  apply step_F2R_spec in H2;
  destruct H2 as (b' & f & Hb' & Hf & Hfsh & Hflen & Hfnn & Hfz & Hf2);
  rewrite Hb in Hb'; injection Hb' as <-;
  apply step_Rspont_spec in H3;
  destruct H3 as (rs & Hrs & Hrssh & Hrslen & Hrsnn & Hf3);
  apply step_R2_spec in H4;
  destruct H4 as (g & p & l & c & Hg & Hp & Hl & Hc & Hgnn & Hpnn & Hlnn & Hcnn & Hf4);
  apply step_L2G_spec in H5;
  destruct H5 as (HnG & lat & Hlat & Hlatsh & Hlatlen & Hlatnn & Hlatd & Hf5);
  apply step_L2etc_spec in H6;
  destruct H6 as (lat' & lg & Hlat' & Hlat6 & Hlg & Hlgsh & Hlglen & Hlgz & Hlgnn
                  & Hder & Hf6);
  rewrite Hlat in Hlat'; injection Hlat' as <-;
  apply step_P2K_spec in H7;
  destruct H7 as (cm & pk & Hcm & Hpk & Hpksh & Hcmsh & Hcmlen & Hpklen & Hpkle
                  & Hpknn & Hpkz & Hf7).

(** Whenever the function returns, each of the thirteen attributes it sets
    has the shape the layer sizes give it, and a buffer of that size. *)
Theorem matrices_have_declared_shapes G mP s s' :
  initializeConnectionMatrices G mP s = (Ok tt, s') ->
  forall x, In x matrix_names ->
  exists a, env s' x = Some a /\ shape a = declared_shape mP x /\ wf a.
Proof.
  intros H x Hx.
  split_run_keep H.
  pose proof (step_R2_shapes _ _ _ _ E4) as HR.
  unfold matrix_names in Hx. simpl in Hx.
  assert (Hsq : size_of [Z.to_nat (nG mP); Z.to_nat (nG mP)]
                = (Z.to_nat (nG mP) * Z.to_nat (nG mP))%nat)
    by (unfold size_of; simpl; lia).
  destruct Hx as [<-|[<-|[<-|[Hx|[Hx|[Hx|[Hx|[<-|[Hx|[Hx|[Hx|[Hx|[<-|[]]]]]]]]]]]]]].
  - exists b. split; [|split; assumption].
    keep Hf7. keep Hf6. keep Hf5. keep Hf4. keep Hf3. keep Hf2. exact Hb.
  - exists f. split; [|split].
    + keep Hf7. keep Hf6. keep Hf5. keep Hf4. keep Hf3. exact Hf.
    + simpl. congruence.
    + unfold wf in *. rewrite Hfsh, (Hflen Hbwf). exact Hbwf.
  - exists rs. split; [|split].
    + keep Hf7. keep Hf6. keep Hf5. keep Hf4. exact Hrs.
    + exact Hrssh.
    + unfold wf. rewrite Hrssh, Hrslen. unfold size_of. simpl. lia.
  - destruct (HR x ltac:(subst x; simpl; tauto)) as (a & Ha & Hash & Hawf).
    exists a. subst x. split; [|split; assumption].
    keep Hf7. keep Hf6. keep Hf5. exact Ha.
  - destruct (HR x ltac:(subst x; simpl; tauto)) as (a & Ha & Hash & Hawf).
    exists a. subst x. split; [|split; assumption].
    keep Hf7. keep Hf6. keep Hf5. exact Ha.
  - destruct (HR x ltac:(subst x; simpl; tauto)) as (a & Ha & Hash & Hawf).
    exists a. subst x. split; [|split; assumption].
    keep Hf7. keep Hf6. keep Hf5. exact Ha.
  - destruct (HR x ltac:(subst x; simpl; tauto)) as (a & Ha & Hash & Hawf).
    exists a. subst x. split; [|split; assumption].
    keep Hf7. keep Hf6. keep Hf5. exact Ha.
  - eexists. split; [keep Hf7; exact Hlat6|]. split; [exact Hlatsh|].
    unfold wf. cbn [shape data nd_map]. rewrite length_map, Hlatsh, Hsq. exact Hlatlen.
  - destruct (Hder x ltac:(subst x; simpl; tauto)) as (a & Ha & Hash & Halen & _).
    exists a. subst x. split; [keep Hf7; exact Ha|]. split; [exact Hash|].
    unfold wf. rewrite Hash, Hsq, (Halen Hlatlen), (Hlglen Hlatlen). exact Hlatlen.
  - destruct (Hder x ltac:(subst x; simpl; tauto)) as (a & Ha & Hash & Halen & _).
    exists a. subst x. split; [keep Hf7; exact Ha|]. split; [exact Hash|].
    unfold wf. rewrite Hash, Hsq, (Halen Hlatlen), (Hlglen Hlatlen). exact Hlatlen.
  - destruct (Hder x ltac:(subst x; simpl; tauto)) as (a & Ha & Hash & Halen & _).
    exists a. subst x. split; [keep Hf7; exact Ha|]. split; [exact Hash|].
    unfold wf. rewrite Hash, Hsq, (Halen Hlatlen), (Hlglen Hlatlen). exact Hlatlen.
  - destruct (Hder x ltac:(subst x; simpl; tauto)) as (a & Ha & Hash & Halen & _).
    exists a. subst x. split; [keep Hf7; exact Ha|]. split; [exact Hash|].
    unfold wf. rewrite Hash, Hsq, (Halen Hlatlen), (Hlglen Hlatlen). exact Hlatlen.
  - exists pk. split; [exact Hpk|]. split; [exact Hpksh|].
    unfold wf. rewrite Hpksh, Hpklen, Hcmlen. unfold size_of. simpl. lia.
Qed.

Lemma matrices_have_declared_shapes_witness :
  let s' := snd (initializeConnectionMatrices stepping_generator template_params
                   fresh_state) in
  initializeConnectionMatrices stepping_generator template_params fresh_state
  = (Ok tt, s')
  /\ forall x, In x matrix_names ->
     exists a, env s' x = Some a
               /\ shape a = declared_shape template_params x /\ wf a.
Proof.
  intro s'.
  assert (Hrun : initializeConnectionMatrices stepping_generator template_params
                   fresh_state = (Ok tt, s')) by (vm_compute; reflexivity).
  split; [exact Hrun|].
  exact (matrices_have_declared_shapes _ _ _ _ Hrun).
Defined.

(** ** Layer sizes that numpy or Python refuses *)

Lemma bind_raises {A B} (c : M A) (k : A -> M B) s e s1 :
  c s = (Raise e, s1) -> bind c k s = (Raise e, s1).
Proof. unfold bind. now intros ->. Qed.

Lemma check_dims_negative (d1 d2 : Z) :
  (d1 < 0 \/ d2 < 0)%Z -> check_dims [d1; d2] = Raise ValueError.
Proof.
  intro H. unfold check_dims. simpl.
  destruct (Z.ltb_spec d1 0); [reflexivity|].
  destruct (Z.ltb_spec d2 0); [reflexivity|]. lia.
Qed.

(** A negative number of receptors or of features makes the function raise
    [ValueError] at its first allocation (line 25 or line 39): no attribute
    is assigned and no variate is drawn. *)
Theorem negative_mask_size_raises_at_once G mP s :
  (nR mP < 0 \/ nF mP < 0)%Z ->
  initializeConnectionMatrices G mP s = (Raise ValueError, s).
Proof.
  intro H. unfold initializeConnectionMatrices.
  apply bind_raises. unfold step_F2Rbinary.
  destruct (Qlt_bool 0 (RperFFrMu mP)); apply bind_raises.
  - unfold rand. apply bind_raises. unfold lift.
    now rewrite check_dims_negative.
  - unfold np_zeros. apply bind_raises. unfold lift.
    now rewrite check_dims_negative.
Qed.

Lemma negative_mask_size_raises_at_once_witness :
  let mP := resize (-2) 2 3 1 2 template_params in
  (nR mP < 0 \/ nF mP < 0)%Z
  /\ initializeConnectionMatrices stepping_generator mP fresh_state
     = (Raise ValueError, fresh_state).
Proof.
  intro mP.
  assert (H : (nR mP < 0 \/ nF mP < 0)%Z) by (left; reflexivity).
  split; [exact H|].
  exact (negative_mask_size_raises_at_once stepping_generator mP fresh_state H).
Defined.

(** In the fixed fan-in mode with no receptor ([nR = 0]), the function raises
    [ZeroDivisionError] at line 42, after it has assigned an empty mask and
    an empty [counts], and before any weight matrix. *)
Theorem no_receptor_raises_ZeroDivisionError G mP s :
  RperFFrMu mP <= 0 -> nR mP = 0%Z -> (0 <= nF mP)%Z ->
  initializeConnectionMatrices G mP s =
  (Raise ZeroDivisionError,
   mk_state (upd (upd (env s) F2Rbinary (nd_zeros [0%nat; Z.to_nat (nF mP)]))
                 counts (nd_zeros [0%nat; 1%nat]))
            (rng s)).
Proof.
  intros Hff HnR HnF. unfold initializeConnectionMatrices.
  apply bind_raises. unfold step_F2Rbinary.
  apply Qlt_bool_false_iff in Hff. rewrite Hff, HnR.
  rewrite (bind_run _ _ _ _ _ (np_zeros_run [0%Z; nF mP] s ltac:(dims_ok))).
  rewrite (bind_run _ _ s tt (mk_state (upd (env s) F2Rbinary
             (nd_zeros (map Z.to_nat [0%Z; nF mP]))) (rng s))) by reflexivity.
  rewrite (bind_run _ _ _ _ _ (np_zeros_run [0%Z; 1%Z] _ ltac:(dims_ok))).
  rewrite (bind_run _ _ _ tt (mk_state (upd (upd (env s) F2Rbinary
             (nd_zeros (map Z.to_nat [0%Z; nF mP]))) counts
             (nd_zeros (map Z.to_nat [0%Z; 1%Z]))) (rng s))) by reflexivity.
  apply bind_raises. reflexivity.
Qed.

Lemma no_receptor_raises_ZeroDivisionError_witness :
  let mP := resize 0 2 3 1 2 template_params in
  RperFFrMu mP <= 0 /\ nR mP = 0%Z /\ (0 <= nF mP)%Z
  /\ initializeConnectionMatrices stepping_generator mP fresh_state =
     (Raise ZeroDivisionError,
      mk_state (upd (upd (env fresh_state) F2Rbinary
                       (nd_zeros [0%nat; Z.to_nat (nF mP)]))
                    counts (nd_zeros [0%nat; 1%nat]))
               (rng fresh_state)).
Proof.
  intro mP.
  assert (H1 : RperFFrMu mP <= 0) by (simpl; lra).
  assert (H2 : nR mP = 0%Z) by reflexivity.
  assert (H3 : (0 <= nF mP)%Z) by (simpl; lia).
  split; [exact H1|]. split; [exact H2|]. split; [exact H3|].
  exact (no_receptor_raises_ZeroDivisionError stepping_generator mP fresh_state
           H1 H2 H3).
Defined.

(** ** An empty [P2K] *)

Lemma np_max_raises a s : data a = [] -> np_max a s = (Raise ValueError, s).
Proof. unfold np_max. now intros ->. Qed.

Lemma step_P2K_empty G mP s :
  (0 <= nK mP)%Z -> (0 <= nP mP)%Z -> (nK mP = 0 \/ nP mP = 0)%Z ->
  exists s' p,
    step_P2K G mP s = (Raise ValueError, s')
    /\ env s' P2K = Some p /\ data p = []
    /\ frame [P2KconnMatrix; P2K] s s'.
Proof.
  intros HnK HnP Hz. unfold step_P2K.
  repeat (rewrite ?bind_assoc_at; erewrite bind_run; [|run_prim]; simpl_env).
  eexists. eexists. split.
  - apply bind_raises, np_max_raises, length_zero_iff_nil.
    simpl. len_simpl. nia.
  - simpl_env. split; [reflexivity|]. split.
    + apply length_zero_iff_nil. simpl. len_simpl. nia.
    + solve_frame.
Qed.

(** With no Kenyon cell or no projection neuron ([nK = 0] or [nP = 0]) and
    otherwise acceptable sizes, the function builds every matrix and then
    raises [ValueError] at line 132, where it prints the maximum of the
    empty [P2K]. *)
Theorem empty_P2K_raises_after_building G mP s :
  (0 <= nR mP)%Z -> (0 <= nF mP)%Z -> (0 <= nG mP)%Z ->
  (0 <= nK mP)%Z -> (0 <= nP mP)%Z -> (nK mP = 0 \/ nP mP = 0)%Z ->
  (0 < RperFFrMu mP /\ RperSFrMu mP <> None
   /\ makeFeaturesOrthogonalFlag mP = false)
  \/ (RperFFrMu mP <= 0 /\ (1 <= nR mP)%Z) ->
  spontRdistFlag mP = 1%Z \/ (0 < spontRmu mP /\ 0 < spontRstd mP) ->
  exists s',
    initializeConnectionMatrices G mP s = (Raise ValueError, s')
    /\ forall x, In x matrix_names -> exists a, env s' x = Some a.
Proof.
  intros HnR HnF HnG HnK HnP Hz Hmode Hsp.
  unfold initializeConnectionMatrices.
  destruct (step_F2Rbinary_runs G mP s HnR HnF Hmode) as (s1 & E1).
  rewrite (bind_run _ _ _ _ _ E1).
  apply step_F2Rbinary_spec in E1 as (_ & _ & b & Hb & _ & _ & _).
  destruct (step_F2R_runs G mP s1 b Hb) as (s2 & E2).
  rewrite (bind_run _ _ _ _ _ E2).
  apply step_F2R_spec in E2 as (b' & f & _ & Hf & _ & _ & _ & _ & Hf2).
  destruct (step_Rspont_runs G mP s2 HnG Hsp) as (s3 & E3).
  rewrite (bind_run _ _ _ _ _ E3).
  apply step_Rspont_spec in E3 as (rs & Hrs & _ & _ & _ & Hf3).
  destruct (step_R2_runs G mP s3 HnG) as (s4 & E4).
  rewrite (bind_run _ _ _ _ _ E4).
  apply step_R2_spec in E4 as (g & p & l & c & Hg & Hp & Hl & Hc & _ & _ & _ & _ & Hf4).
  destruct (step_L2G_runs G mP s4 HnG) as (s5 & E5).
  rewrite (bind_run _ _ _ _ _ E5).
  apply step_L2G_spec in E5 as (_ & lat & Hlat & _ & _ & _ & _ & Hf5).
  destruct (step_L2etc_runs G mP s5 lat HnG Hlat) as (s6 & E6).
  rewrite (bind_run _ _ _ _ _ E6).
  apply step_L2etc_spec in E6
    as (lat' & lg & _ & Hlat6 & _ & _ & _ & _ & _ & Hder & Hf6).
  destruct (step_P2K_empty G mP s6 HnK HnP Hz) as (s' & pk & E7 & Hpk & _ & Hf7).
  exists s'. split; [exact E7|].
  intros x Hx. unfold matrix_names in Hx. simpl in Hx.
  destruct Hx as [<-|[<-|[<-|[<-|[<-|[<-|[<-|[<-|[Hx|[Hx|[Hx|[Hx|[<-|[]]]]]]]]]]]]]];
    try (destruct (Hder x ltac:(subst x; simpl; tauto)) as (a & Ha & _);
         exists a; subst x; keep Hf7; exact Ha).
  - exists b. keep Hf7. keep Hf6. keep Hf5. keep Hf4. keep Hf3. keep Hf2. exact Hb.
  - exists f. keep Hf7. keep Hf6. keep Hf5. keep Hf4. keep Hf3. exact Hf.
  - exists rs. keep Hf7. keep Hf6. keep Hf5. keep Hf4. exact Hrs.
  - exists g. keep Hf7. keep Hf6. keep Hf5. exact Hg.
  - exists p. keep Hf7. keep Hf6. keep Hf5. exact Hp.
  - exists l. keep Hf7. keep Hf6. keep Hf5. exact Hl.
  - exists c. keep Hf7. keep Hf6. keep Hf5. exact Hc.
  - eexists. keep Hf7. exact Hlat6.
  - exists pk. exact Hpk.
Qed.

Lemma empty_P2K_raises_after_building_witness :
  let mP := resize 2 2 3 0 2 template_params in
  exists s',
    initializeConnectionMatrices stepping_generator mP fresh_state
    = (Raise ValueError, s')
    /\ forall x, In x matrix_names -> exists a, env s' x = Some a.
Proof.
  intro mP.
  apply (empty_P2K_raises_after_building stepping_generator mP fresh_state);
    try (simpl; lia).
  right. split; [simpl; lra|simpl; lia].
Defined.

(** ** The gamma branch of the spontaneous rates *)

Lemma Qeq_bool_false_neq (x y : Q) : Qeq_bool x y = false -> ~ x == y.
Proof. intros H E. apply Qeq_bool_iff in E. congruence. Qed.

Lemma Qeq_bool_congr (x y : Q) : (x == 0 <-> y == 0) -> Qeq_bool x 0 = Qeq_bool y 0.
Proof.
  intro H. destruct (Qeq_bool x 0) eqn:Ex, (Qeq_bool y 0) eqn:Ey; try reflexivity.
  - apply Qeq_bool_iff in Ex. apply Qeq_bool_false_neq in Ey. tauto.
  - apply Qeq_bool_iff in Ey. apply Qeq_bool_false_neq in Ex. tauto.
Qed.

Lemma Qlt_bool_congr (x y : Q) : (x < 0 <-> y < 0) -> Qlt_bool x 0 = Qlt_bool y 0.
Proof.
  intro H. destruct (Qlt_bool x 0) eqn:Ex, (Qlt_bool y 0) eqn:Ey; try reflexivity.
  - apply Qlt_bool_iff in Ex. apply Qlt_bool_false_iff in Ey. apply H in Ex. lra.
  - apply Qlt_bool_iff in Ey. apply Qlt_bool_false_iff in Ex. apply H in Ey. lra.
Qed.

(** In the branch of lines 61-64 the outcome depends on the signs of
    [spontRmu] and [spontRstd] alone: a zero among them makes line 61 or
    line 62 raise [ZeroDivisionError], a negative one makes
    [np.random.gamma] raise [ValueError], and otherwise the step returns. *)
Theorem gamma_branch_outcome G mP s :
  spontRdistFlag mP <> 1%Z -> (0 <= nG mP)%Z ->
  fst (step_Rspont G mP s) =
  if Qeq_bool (spontRstd mP) 0 || Qeq_bool (spontRmu mP) 0
  then Raise ZeroDivisionError
  else if Qlt_bool (spontRmu mP) 0 || Qlt_bool (spontRstd mP) 0
       then Raise ValueError
       else Ok tt.
Proof.
  intros Hflag HnG. unfold step_Rspont.
  destruct (Z.eqb_spec (spontRdistFlag mP) 1) as [E|_]; [contradiction|].
  set (mu := spontRmu mP). set (sd := spontRstd mP).
  unfold py_div at 1. unfold bind at 1.
  destruct (Qeq_bool sd 0) eqn:Esd; [reflexivity|].
  apply Qeq_bool_false_neq in Esd.
  unfold ret at 1. cbv beta iota.
  assert (Ha : (mu / sd) * sd == mu) by (field; exact Esd).
  unfold py_div at 1. unfold bind at 1.
  rewrite (Qeq_bool_congr (mu / sd) mu).
  2:{ split; intro H.
      - rewrite <- Ha, H. ring.
      - unfold Qdiv. rewrite H. ring. }
  simpl orb.
  destruct (Qeq_bool mu 0) eqn:Emu; [reflexivity|].
  apply Qeq_bool_false_neq in Emu.
  unfold ret at 1. cbv beta iota.
  assert (Hane : ~ mu / sd == 0).
  { intro H. apply Emu. rewrite <- Ha, H. ring. }
  assert (Hb : mu / (mu / sd) == sd).
  { field. split; assumption. }
  unfold gamma, bind at 1.
  assert (Hsign : Qlt_bool (mu / sd) 0 || Qlt_bool (mu / (mu / sd)) 0
                  = Qlt_bool mu 0 || Qlt_bool sd 0).
  { rewrite (Qlt_bool_congr (mu / (mu / sd)) sd) by (rewrite Hb; tauto).
    destruct (Qlt_bool sd 0) eqn:E1.
    - now rewrite !orb_true_r.
    - rewrite !orb_false_r. apply Qlt_bool_false_iff in E1.
      assert (Hpos : 0 < sd) by lra.
      apply Qlt_bool_congr. split; intro H.
      + rewrite <- Ha. setoid_replace 0 with (0 * sd) by ring.
        apply Qmult_lt_compat_r; assumption.
      + apply Qlt_shift_div_r; [exact Hpos|]. lra. }
  rewrite Hsign.
  destruct (Qlt_bool mu 0 || Qlt_bool sd 0); [reflexivity|].
  unfold bind, lift. rewrite check_dims_nonneg by dims_ok.
  reflexivity.
Qed.

Lemma gamma_branch_outcome_witness :
  let mP := with_spont 2 (1 # 10) (- (1 # 20)) 0 template_params in
  spontRdistFlag mP <> 1%Z /\ (0 <= nG mP)%Z
  /\ fst (step_Rspont stepping_generator mP fresh_state) = Raise ValueError.
Proof.
  intro mP.
  assert (H1 : spontRdistFlag mP <> 1%Z) by (simpl; lia).
  assert (H2 : (0 <= nG mP)%Z) by (simpl; lia).
  split; [exact H1|]. split; [exact H2|].
  exact (gamma_branch_outcome stepping_generator mP fresh_state H1 H2).
Defined.

(** ** The fraction of lateral connections at its ends *)

Lemma count_le_length {A} (p : A -> bool) (l : list A) :
  (count p l <= length l)%nat.
Proof. unfold count. apply filter_length_le. Qed.

Lemma count_full {A} (p : A -> bool) (l : list A) :
  count p l = length l -> Forall (fun x => p x = true) l.
Proof.
  unfold count. induction l as [|x l IH]; simpl; intro H; [constructor|].
  pose proof (filter_length_le p l) as Hle.
  destruct (p x) eqn:E; simpl in H.
  - constructor; [exact E|]. apply IH. lia.
  - lia.
Qed.

(** The number of entries that line 91 divides by is the number of non-zero
    entries of [L2G]; it is not negative. *)
Lemma denominator_nonneg mP (l : ndarray) :
  (0 <= nG mP)%Z ->
  length (data l) = (Z.to_nat (nG mP) * Z.to_nat (nG mP))%nat ->
  (0 <= nG mP ^ 2 - nG mP - numZero_of mP l)%Z.
Proof.
  intros HnG Hlen. unfold numZero_of.
  pose proof (count_le_length (fun x => Qeq_bool x 0) (data l)) as Hc.
  rewrite Hlen in Hc. rewrite Z.pow_2_r. nia.
Qed.

Lemma inject_Z_ge0 (z : Z) : (0 <= z)%Z -> 0 <= inject_Z z.
Proof. intro H. unfold Qle. simpl. lia. Qed.

(** With [L2Gfr <= 0], [numToKill] is at least the number of non-zero
    entries. *)
Lemma numToKill_large mP (numZero : Z) :
  (0 <= nG mP)%Z -> L2Gfr mP <= 0 ->
  (nG mP ^ 2 - nG mP - numZero <= numToKill_of mP numZero)%Z.
Proof.
  intros HnG Hfr. unfold numToKill_of.
  rewrite <- (Qfloor_Z (nG mP ^ 2 - nG mP - numZero)).
  apply Qfloor_resp_le.
  assert (HN : 0 <= inject_Z (nG mP ^ 2 - nG mP)).
  { apply inject_Z_ge0. rewrite Z.pow_2_r. nia. }
  unfold Z.sub at 1. rewrite inject_Z_plus, inject_Z_opp.
  assert (0 <= (- L2Gfr mP) * inject_Z (nG mP ^ 2 - nG mP)).
  { apply Qmult_le_0_compat; [lra|exact HN]. }
  lra.
Qed.

Lemma lt_quot_certain (u : Q) (n d : Z) :
  u < 1 -> (0 < n)%Z -> (0 <= d <= n)%Z -> lt_quot u n d = true.
Proof.
  intros Hu Hn Hd. unfold lt_quot.
  destruct (Z.eqb_spec d 0) as [E|E]; [now apply Z.ltb_lt|].
  apply Qlt_bool_iff. apply Qlt_le_trans with 1; [exact Hu|].
  apply Qle_shift_div_l.
  - change 0 with (inject_Z 0). rewrite <- Zlt_Qlt. lia.
  - rewrite Qmult_1_l, <- Zle_Qle. lia.
Qed.

Lemma downsample_wipes G mP s l :
  env s L2G = Some l -> (0 <= nG mP)%Z ->
  length (data l) = (Z.to_nat (nG mP) * Z.to_nat (nG mP))%nat ->
  all_entries (fun x => 0 <= x) l ->
  L2Gfr mP <= 0 ->
  exists l',
    env (snd (downsample_L2G G mP s)) L2G = Some l'
    /\ forall k, nth k (data l') 0 == 0.
Proof.
  intros Hl HnG Hlen Hnn Hfr.
  destruct (downsample_L2G_exact G mP s l Hl) as (l' & _ & Hl' & Hdata).
  exists l'. split; [exact Hl'|].
  pose proof (denominator_nonneg mP l HnG Hlen) as Hd.
  pose proof (numToKill_large mP (numZero_of mP l) HnG Hfr) as Hk.
  intro k. rewrite Hdata.
  destruct (Z.ltb_spec 0 (numToKill_of mP (numZero_of mP l))) as [Hpos|Hneg].
  - rewrite nth_map2_kill by apply length_kill_flags.
    destruct (Nat.lt_ge_cases k (length (data l))) as [Hlt|Hge].
    + rewrite nth_kill_flags by exact Hlt.
      rewrite lt_quot_certain; [|apply uniform_lt1|exact Hpos|lia].
      unfold kill_entry. simpl.
      destruct (Qlt_bool 0 (nth k (data l) 0)) eqn:E; [reflexivity|].
      apply Qlt_bool_false_iff in E. simpl.
      assert (0 <= nth k (data l) 0) by (apply nth_default_ok; [lra|exact Hnn]).
      lra.
    + rewrite (nth_overflow (data l)) by exact Hge.
      unfold kill_entry. simpl. reflexivity.
  - assert (Hz : count (fun x => Qeq_bool x 0) (data l) = length (data l)).
    { rewrite Hlen.
      assert (Hdz : (nG mP ^ 2 - nG mP - numZero_of mP l = 0)%Z) by lia.
      unfold numZero_of in Hdz. rewrite Z.pow_2_r in Hdz.
      assert (Hn : Z.of_nat (Z.to_nat (nG mP)) = nG mP) by lia.
      nia. }
    apply count_full in Hz.
    apply (nth_default_ok (fun x => x == 0)); [reflexivity|].
    eapply Forall_impl; [|exact Hz]. intros x Hx. now apply Qeq_bool_iff.
Qed.

Lemma reshape_F_zero l n l' :
  reshape_F l n n = Ok l' -> (forall k, nth k (data l) 0 == 0) ->
  forall k, nth k (data l') 0 == 0.
Proof.
  unfold reshape_F. destruct (_ =? _)%nat; [|discriminate].
  intro H. injection H as <-. intros Hz k.
  assert (Hr : forall t, nth t (ravel_F l) 0 == 0).
  { intro t. unfold ravel_F.
    destruct (shape l) as [|r0 [|c0 [|? ?]]]; try apply Hz.
    destruct (Nat.lt_ge_cases t (r0 * c0)) as [Ht|Ht].
    - rewrite nth_map_seq by exact Ht. unfold get2. apply Hz.
    - rewrite nth_overflow by (len_simpl; exact Ht). reflexivity. }
  unfold tab2. cbn [data].
  destruct (Nat.lt_ge_cases k (n * n)) as [Hk|Hk].
  - rewrite nth_map_seq by exact Hk. apply Hr.
  - rewrite nth_overflow by (len_simpl; exact Hk). reflexivity.
Qed.

Lemma step_L2G_wiped G mP s s' :
  L2Gfr mP <= 0 -> step_L2G G mP s = (Ok tt, s') ->
  exists l, env s' L2G = Some l /\ forall k, nth k (data l) 0 == 0.
Proof.
  intros Hfr. unfold step_L2G. intro H. steps H.
  match goal with
  | H0 : Forall _ [nG mP; nG mP] |- _ => inversion H0 as [|? ? HnG _]; subst
  end.
  set (n := Z.to_nat (nG mP)) in *.
  set (l1 := nd_map (clip_min 0)
               (nd_map (fun x => L2Gmu mP + L2Gstd mP * x)
                  (mk_nd [n; n] (map (uniform G) (seq (rng s) (n * (n * 1))))))) in *.
  assert (Hl1 : shape l1 = [n; n] /\ length (data l1) = (n * n)%nat
                /\ all_entries (fun x => 0 <= x) l1).
  { split; [reflexivity|]. split.
    - unfold l1. simpl. len_simpl. lia.
    - apply all_nd_map. intro x. apply clip_min_ge. }
  destruct Hl1 as (Hsh1 & Hlen1 & Hnn1).
  destruct (sub_diag_facts n l1 Hsh1 Hlen1 Hnn1) as (Hsh2 & Hlen2 & Hnn2 & Hd2).
  match goal with
  | E : downsample_L2G _ _ ?st = _ |- _ =>
      destruct (downsample_wipes G mP st _ eq_refl HnG Hlen2 Hnn2 Hfr)
        as (l3 & Hl3 & Hz3);
      rewrite E in Hl3; simpl in Hl3
  end.
  match goal with
  | E : env _ L2G = Some ?a |- _ =>
      tryif constr_eq a l3 then fail else (rewrite Hl3 in E; injection E as <-)
  end.
  match goal with
  | E : reshape_F l3 n n = Ok ?l4 |- _ =>
      exists l4; split; [reflexivity|]; exact (reshape_F_zero _ _ _ E Hz3)
  end.
Qed.

(** With [L2Gfr <= 0] the function, when it returns, leaves no lateral
    connection: [L2G], [L2R], [L2P], [L2L] and [L2PI] are zero everywhere.
    Line 88 then asks for at least as many entries to be zeroed as there are
    non-zero ones, the probability of line 91 is at least 1, and every
    uniform variate is below 1. *)
Theorem nonpositive_L2Gfr_removes_lateral_connections G mP s s' :
  L2Gfr mP <= 0 ->
  initializeConnectionMatrices G mP s = (Ok tt, s') ->
  forall x, In x [L2G; L2R; L2P; L2L; L2PI] ->
  exists a, env s' x = Some a
            /\ shape a = [Z.to_nat (nG mP); Z.to_nat (nG mP)]
            /\ all_entries (fun v => v == 0) a.
Proof.
  intros Hfr H x Hx. split_run_keep H.
  destruct (step_L2G_wiped G mP s4 s5 Hfr E5) as (lat0 & Hlat0 & Hz).
  rewrite Hlat in Hlat0. injection Hlat0 as <-.
  assert (Hall : forall a : ndarray,
             (forall k, nth k (data a) 0 == 0) -> all_entries (fun v => v == 0) a).
  { intros a Ha. unfold all_entries. apply (Forall_nth_iff _ _ 0).
    intros k _. apply Ha. }
  simpl in Hx. destruct Hx as [<-|Hx].
  - eexists. split; [keep Hf7; exact Hlat6|].
    split; [exact Hlatsh|].
    apply Hall. intro k. simpl. apply nth_map_zero; [|apply Hz].
    intros v Hv. rewrite Hv. ring.
  - destruct (Hder x Hx) as (a & Ha & Hash & _ & Haz & _).
    exists a. split.
    { destruct Hx as [<-|[<-|[<-|[<-|[]]]]]; keep Hf7; exact Ha. }
    split; [exact Hash|].
    apply Hall. intro k. apply Haz, Hlgz, Hz.
Qed.

Lemma nonpositive_L2Gfr_removes_lateral_connections_witness :
  let mP := with_L2Gfr 0 template_params in
  let s' := snd (initializeConnectionMatrices stepping_generator mP fresh_state) in
  L2Gfr mP <= 0
  /\ initializeConnectionMatrices stepping_generator mP fresh_state = (Ok tt, s')
  /\ forall x, In x [L2G; L2R; L2P; L2L; L2PI] ->
     exists a, env s' x = Some a
               /\ shape a = [Z.to_nat (nG mP); Z.to_nat (nG mP)]
               /\ all_entries (fun v => v == 0) a.
Proof.
  intros mP s'.
  assert (Hfr : L2Gfr mP <= 0) by (simpl; lra).
  assert (Hrun : initializeConnectionMatrices stepping_generator mP fresh_state
                 = (Ok tt, s')) by (vm_compute; reflexivity).
  split; [exact Hfr|]. split; [exact Hrun|].
  exact (nonpositive_L2Gfr_removes_lateral_connections _ _ _ _ Hfr Hrun).
Defined.

(** ** The layout of the lateral matrix *)

Lemma downsample_L2G_value G mP s l :
  env s L2G = Some l ->
  fst (downsample_L2G G mP s) = Ok tt
  /\ env (snd (downsample_L2G G mP s)) L2G =
     Some (if (0 <? numToKill_of mP (numZero_of mP l))%Z
           then mk_nd [length (data l)]
                  (map2 kill_entry (data l) (kill_flags G mP l (rng s)))
           else l).
Proof.
  intro Hl. unfold downsample_L2G, bind, getv. rewrite Hl.
  destruct (0 <? numToKill_of mP (numZero_of mP l))%Z.
  - unfold setv, rand_shape, flatten. simpl_env.
    split; [reflexivity|].
    unfold kill_flags, size_of. simpl. now rewrite Nat.mul_1_r.
  - unfold ret. simpl. tauto.
Qed.

(** [reshape(order="F")] of a flattened square array transposes it; of the
    square array itself it changes nothing. *)
Lemma reshape_F_flat (n m : nat) (buf : list Q) (l' : ndarray) :
  reshape_F (mk_nd [m] buf) n n = Ok l' ->
  forall i j, (i < n)%nat -> (j < n)%nat -> entry l' i j = nth (j * n + i) buf 0.
Proof.
  unfold reshape_F. cbn [data]. destruct (_ =? _)%nat; [|discriminate].
  intro H. injection H as <-. intros i j Hi Hj.
  rewrite entry_tab2 by assumption. unfold ravel_F. cbn [shape data].
  f_equal. lia.
Qed.

Lemma reshape_F_square (n : nat) (l l' : ndarray) :
  shape l = [n; n] ->
  reshape_F l n n = Ok l' ->
  forall i j, (i < n)%nat -> (j < n)%nat -> entry l' i j = entry l i j.
Proof.
  intros Hsh. unfold reshape_F. destruct (_ =? _)%nat; [|discriminate].
  intro H. injection H as <-. intros i j Hi Hj.
  rewrite entry_tab2 by assumption. unfold ravel_F. rewrite Hsh.
  rewrite nth_map_seq by nia. cbn [Nat.add].
  replace (i + j * n)%nat with (j * n + i)%nat by lia.
  rewrite index2_div, index2_mod by exact Hi.
  unfold entry, ncols. rewrite Hsh. reflexivity.
Qed.

Lemma step_L2G_entries G mP s s' :
  step_L2G G mP s = (Ok tt, s') ->
  let n := Z.to_nat (nG mP) in
  let l2 := L2G_before_downsampling G mP (rng s) in
  exists l,
    env s' L2G = Some l
    /\ shape l = [n; n]
    /\ forall i j, (i < n)%nat -> (j < n)%nat ->
         entry l i j =
         if (0 <? numToKill_of mP (numZero_of mP l2))%Z
         then kill_entry (entry l2 j i)
                (nth (j * n + i) (kill_flags G mP l2 (rng s + n * n)) 0)
         else entry l2 i j.
Proof.
  intros H. cbv zeta. unfold L2G_before_downsampling.
  unfold step_L2G in H. steps H.
  match goal with
  | E : downsample_L2G _ _ (mk_state ?e ?r) = (_, ?s1) |- _ =>
      destruct (downsample_L2G_value G mP (mk_state e r) _ eq_refl) as (_ & Hl3);
      rewrite E in Hl3;
      cbv beta iota delta [snd] in Hl3;
      change (rng (mk_state e r)) with r in Hl3
  end.
  match goal with
  | E : env _ L2G = Some ?a |- _ =>
      is_var a; rewrite Hl3 in E; injection E as E; subst a
  end.
  rewrite Nat.mul_1_r in *.
  set (n := Z.to_nat (nG mP)) in *.
  match goal with
  | |- context [numZero_of mP ?x] => set (l2 := x) in *
  end.
  assert (Hsh2 : shape l2 = [n; n]) by reflexivity.
  match goal with
  | E : reshape_F _ n n = Ok ?l4 |- _ => exists l4; rename E into Hr
  end.
  split; [reflexivity|].
  split.
  { unfold reshape_F in Hr. destruct (_ =? _)%nat; [|discriminate].
    injection Hr as <-. reflexivity. }
  intros i j Hi Hj.
  destruct (0 <? numToKill_of mP (numZero_of mP l2))%Z.
  - rewrite (reshape_F_flat n _ _ _ Hr i j Hi Hj).
    rewrite nth_map2_kill by apply length_kill_flags.
    unfold entry, get2, ncols. rewrite Hsh2. reflexivity.
  - exact (reshape_F_square n l2 _ Hsh2 Hr i j Hi Hj).
Qed.

(** Lines 81-94.  When the down-sampling of lines 89-92 runs, the matrix
    that line 94 stores is the transpose of the down-sampled one: entry
    [(i, j)] comes from entry [(j, i)] of the matrix of line 84, zeroed when
    that entry is positive and its flag is set.  When the down-sampling does
    not run, line 94 stores the matrix of line 84 as it is. *)
Theorem downsampled_L2G_is_transposed G mP s s' :
  step_L2G G mP s = (Ok tt, s') ->
  let n := Z.to_nat (nG mP) in
  let l2 := L2G_before_downsampling G mP (rng s) in
  exists l,
    env s' L2G = Some l
    /\ shape l = [n; n]
    /\ forall i j, (i < n)%nat -> (j < n)%nat ->
         entry l i j =
         if (0 <? numToKill_of mP (numZero_of mP l2))%Z
         then kill_entry (entry l2 j i)
                (nth (j * n + i) (kill_flags G mP l2 (rng s + n * n)) 0)
         else entry l2 i j.
Proof.
  exact (step_L2G_entries G mP s s').
Qed.

Lemma downsampled_L2G_is_transposed_witness :
  let G := stepping_generator in
  let mP := template_params in
  let s' := snd (step_L2G G mP fresh_state) in
  let l2 := L2G_before_downsampling G mP 0 in
  step_L2G G mP fresh_state = (Ok tt, s')
  /\ exists l,
      env s' L2G = Some l
      /\ shape l = [3%nat; 3%nat]
      /\ forall i j, (i < 3)%nat -> (j < 3)%nat ->
           entry l i j =
           if (0 <? numToKill_of mP (numZero_of mP l2))%Z
           then kill_entry (entry l2 j i)
                  (nth (j * 3 + i) (kill_flags G mP l2 9) 0)
           else entry l2 i j.
Proof.
  intros G mP s' l2.
  assert (Hrun : step_L2G G mP fresh_state = (Ok tt, s'))
    by (vm_compute; reflexivity).
  split; [exact Hrun|].
  exact (downsampled_L2G_is_transposed G mP fresh_state s' Hrun).
Defined.

(** ** The probability of line 91 *)

Lemma inject_Z_sub (a b : Z) : inject_Z (a - b) == inject_Z a - inject_Z b.
Proof. unfold Z.sub. rewrite inject_Z_plus, inject_Z_opp. reflexivity. Qed.

(** With [L2Gfr >= 0], whenever the down-sampling runs ([numToKill > 0]) the
    number line 91 divides by is positive and the quotient is a probability:
    it lies in [(0, 1]].  The array [l] is the matrix [L2G] of line 87. *)
Theorem kill_probability_is_proper mP (l : ndarray) :
  (0 <= nG mP)%Z -> 0 <= L2Gfr mP ->
  let numToKill := numToKill_of mP (numZero_of mP l) in
  let rest := (nG mP ^ 2 - nG mP - numZero_of mP l)%Z in
  (0 < numToKill)%Z ->
  (0 < rest)%Z
  /\ 0 < inject_Z numToKill / inject_Z rest
  /\ inject_Z numToKill / inject_Z rest <= 1.
Proof.
  intros HnG Hfr numToKill rest Hpos.
  assert (Hle : (numToKill <= rest)%Z).
  { unfold numToKill, rest, numToKill_of.
    rewrite <- (Qfloor_Z (nG mP ^ 2 - nG mP - numZero_of mP l)) at 1.
    apply Qfloor_resp_le.
    assert (HN : 0 <= inject_Z (nG mP ^ 2 - nG mP)).
    { apply inject_Z_ge0. rewrite Z.pow_2_r. nia. }
    rewrite (inject_Z_sub (nG mP ^ 2 - nG mP)).
    assert (0 <= L2Gfr mP * inject_Z (nG mP ^ 2 - nG mP)).
    { apply Qmult_le_0_compat; [exact Hfr|exact HN]. }
    lra. }
  assert (Hrest : (0 < rest)%Z) by lia.
  assert (HrQ : 0 < inject_Z rest).
  { change 0 with (inject_Z 0). rewrite <- Zlt_Qlt. exact Hrest. }
  split; [exact Hrest|]. split.
  - apply Qlt_shift_div_l; [exact HrQ|]. rewrite Qmult_0_l.
    change 0 with (inject_Z 0). rewrite <- Zlt_Qlt. exact Hpos.
  - apply Qle_shift_div_r; [exact HrQ|]. rewrite Qmult_1_l.
    rewrite <- Zle_Qle. exact Hle.
Qed.

Lemma kill_probability_is_proper_witness :
  let mP := template_params in
  let l := mk_nd [3%nat; 3%nat] [0; 1; 1; 1; 0; 1; 1; 1; 0] in
  (0 <= nG mP)%Z /\ 0 <= L2Gfr mP
  /\ (0 < numToKill_of mP (numZero_of mP l))%Z
  /\ (0 < nG mP ^ 2 - nG mP - numZero_of mP l)%Z
  /\ 0 < inject_Z (numToKill_of mP (numZero_of mP l))
         / inject_Z (nG mP ^ 2 - nG mP - numZero_of mP l)
  /\ inject_Z (numToKill_of mP (numZero_of mP l))
     / inject_Z (nG mP ^ 2 - nG mP - numZero_of mP l) <= 1.
Proof.
  intros mP l.
  assert (H1 : (0 <= nG mP)%Z) by (simpl; lia).
  assert (H2 : 0 <= L2Gfr mP) by (simpl; lra).
  assert (H3 : (0 < numToKill_of mP (numZero_of mP l))%Z) by reflexivity.
  split; [exact H1|]. split; [exact H2|]. split; [exact H3|].
  exact (kill_probability_is_proper mP l H1 H2 H3).
Defined.

(** ** Orthogonal features *)

(** Lines 24-36 with [makeFeaturesOrthogonalFlag] set.  The loop never
    changes the mask of line 25.  The step returns when no row of that mask
    has more than one active entry, and raises [TypeError] (line 33)
    otherwise; in both cases [F2Rbinary] is the mask of line 25. *)
Theorem orthogonalization_keeps_or_raises G mP s p :
  0 < RperFFrMu mP -> RperSFrMu mP = Some p ->
  makeFeaturesOrthogonalFlag mP = true ->
  (0 <= nR mP)%Z -> (0 <= nF mP)%Z ->
  let b := bernoulli_mask G mP p (rng s) in
  step_F2Rbinary G mP s =
  (if existsb (overlapping_row b) (seq 0 (Z.to_nat (nR mP)))
   then Raise TypeError else Ok tt,
   mk_state (upd (env s) F2Rbinary b)
            (rng s + Z.to_nat (nR mP) * Z.to_nat (nF mP))).
Proof.
  intros Hff Hsf Horth HnR HnF b.
  unfold step_F2Rbinary. apply Qlt_bool_iff in Hff. rewrite Hff, Hsf, Horth.
  rewrite (bind_run _ _ _ _ _ (rand_run G [nR mP; nF mP] s ltac:(dims_ok))).
  unfold read_attr. unfold bind at 1. unfold ret at 1.
  unfold bind at 1. unfold setv at 1.
  unfold for_range.
  cbn [map size_of fold_right env rng]. rewrite Nat.mul_1_r.
  fold (bernoulli_mask G mP p (rng s)). fold b.
  rewrite (orthogonalize_rows_run _ _ b) by (simpl_env; reflexivity).
  unfold overlapping_row.
  destruct (existsb _ _); reflexivity.
Qed.

Lemma orthogonalization_keeps_or_raises_witness :
  let G := constant_generator 0 in
  let mP := small_params 3 1 (Some 1) true 0 5 (1 # 5) 20 in
  0 < RperFFrMu mP /\ RperSFrMu mP = Some 1
  /\ makeFeaturesOrthogonalFlag mP = true
  /\ (0 <= nR mP)%Z /\ (0 <= nF mP)%Z
  /\ step_F2Rbinary G mP fresh_state =
     (Raise TypeError,
      mk_state (upd empty_env F2Rbinary (mk_nd [2%nat; 2%nat] [1; 1; 1; 1])) 4).
Proof.
  intros G mP.
  assert (H1 : 0 < RperFFrMu mP) by (simpl; lra).
  assert (H2 : RperSFrMu mP = Some 1) by reflexivity.
  assert (H3 : makeFeaturesOrthogonalFlag mP = true) by reflexivity.
  assert (H4 : (0 <= nR mP)%Z) by (simpl; lia).
  assert (H5 : (0 <= nF mP)%Z) by (simpl; lia).
  split; [exact H1|]. split; [exact H2|]. split; [exact H3|].
  split; [exact H4|]. split; [exact H5|].
  exact (orthogonalization_keeps_or_raises G mP fresh_state 1 H1 H2 H3 H4 H5).
Defined.

(** ** Masks and the range of the weights *)

Lemma fancy_set_col_binary b idx j b' :
  fancy_set_col b idx j 1 = Ok b' -> binary b -> binary b'.
Proof.
  unfold fancy_set_col. destruct (_ && _); intro H; inversion H; subst; clear H.
  intro Hb. unfold binary, all_entries. cbn [data].
  apply Forall_forall. intros y Hy. apply in_map_iff in Hy as (k & <- & _).
  destruct (_ && _); [now right|].
  apply (nth_default_ok (fun x => x = 0 \/ x = 1)); [now left|exact Hb].
Qed.

Lemma connect_feature_binary G m j s s' b :
  env s F2Rbinary = Some b -> binary b ->
  connect_feature G m j s = (Ok tt, s') ->
  exists b', env s' F2Rbinary = Some b' /\ binary b'.
Proof.
  intros Hb Hbin. unfold connect_feature. intro H.
  apply bind_Ok_inv in H as (c & s1 & H1 & H).
  apply getv_Ok_inv in H1 as [Hc ->].
  apply bind_Ok_inv in H as (a & s1 & H1 & H).
  unfold randint in H1. simpl in H1. inversion H1; subst; clear H1.
  steps H.
  match goal with
  | E : fancy_set_col ?b0 _ _ _ = Ok ?b' |- _ =>
      exists b'; split; [reflexivity|];
      apply (fancy_set_col_binary _ _ _ _ E)
  end.
  match goal with
  | E : env s F2Rbinary = Some ?x |- binary ?x => idtac
  | E : env s F2Rbinary = Some ?x |- binary ?y =>
      rewrite Hb in E; injection E as <-
  end.
  exact Hbin.
Qed.

Lemma step_F2Rbinary_binary G mP s s' :
  step_F2Rbinary G mP s = (Ok tt, s') ->
  exists b, env s' F2Rbinary = Some b /\ binary b.
Proof.
  unfold step_F2Rbinary. intro H.
  destruct (Qlt_bool 0 (RperFFrMu mP)).
  - apply bind_Ok_inv in H as (u & s1 & H1 & H).
    apply rand_Ok_inv in H1 as (Hd & -> & ->).
    apply bind_Ok_inv in H as (p & s1 & H1 & H).
    apply read_attr_Ok_inv in H1 as [Hp ->].
    apply bind_Ok_inv in H as ([] & s1 & H1 & H).
    apply setv_Ok_inv in H1. subst s1. simpl_env.
    assert (Hs : s' = mk_state
                   (upd (env s) F2Rbinary
                      (nd_lt_scalar
                         (mk_nd (map Z.to_nat [nR mP; nF mP])
                            (map (uniform G)
                               (seq (rng s) (size_of (map Z.to_nat [nR mP; nF mP])))))
                         p))
                   (rng s + size_of (map Z.to_nat [nR mP; nF mP]))).
    { destruct (makeFeaturesOrthogonalFlag mP).
      - unfold for_range in H.
        apply (for_each_Ok_inv (fun t => t = _) _ _
                 (fun x t t' _ Ht Hb =>
                    eq_trans (orthogonalize_row_Ok x t t' Hb) Ht) _ s' eq_refl H).
      - now apply ret_Ok_inv in H as [_ ->]. }
    subst s'. eexists. split; [reflexivity|].
    apply all_nd_map. intro x. destruct (Qlt_bool x p); [now right|now left].
  - apply bind_Ok_inv in H as (z & s1 & H1 & H).
    apply np_zeros_Ok_inv in H1 as (Hd & -> & ->).
    apply bind_Ok_inv in H as ([] & s1 & H1 & H).
    apply setv_Ok_inv in H1. subst s1.
    apply bind_Ok_inv in H as (c & s1 & H1 & H).
    apply np_zeros_Ok_inv in H1 as (_ & -> & ->).
    apply bind_Ok_inv in H as ([] & s1 & H1 & H).
    apply setv_Ok_inv in H1. subst s1. simpl_env.
    apply bind_Ok_inv in H as (q & s1 & H1 & H).
    apply py_div_Ok_inv in H1 as (_ & _ & ->).
    set (s0 := mk_state _ _) in H.
    set (I := fun t : State => exists b, env t F2Rbinary = Some b /\ binary b).
    assert (HI0 : I s0).
    { eexists. split; [reflexivity|].
      unfold binary, all_entries, nd_zeros. cbn [data].
      apply Forall_forall. intros y Hy. apply repeat_spec in Hy. now left. }
    unfold for_range in H.
    refine (for_each_Ok_inv I _ _ _ s0 s' HI0 H).
    intros _ t t' _ Ht Hin.
    refine (for_each_Ok_inv I _ _ _ t t' Ht Hin).
    intros j u u' _ (b & Hb & Hbin) Hc.
    exact (connect_feature_binary G _ j u u' b Hb Hbin Hc).
Qed.

Lemma step_F2R_value G mP s s' b :
  env s F2Rbinary = Some b ->
  step_F2R G mP s = (Ok tt, s') ->
  env s' F2R =
  Some (nd_map (clip_min 0)
          (nd_map2 Qmult
             (nd_map2 Qplus (nd_map (Qmult (F2Rmu mP)) b)
                (nd_map (Qmult (F2Rstd mP))
                   (mk_nd (shape b)
                      (map (uniform G) (seq (rng s) (size_of (shape b)))))))
             b)).
Proof.
  intros Hb. unfold step_F2R. intro H. steps H.
  try match goal with
  | E : env s F2Rbinary = Some ?x |- _ =>
      tryif constr_eq x b then fail
      else (rewrite Hb in E; injection E as E; subst)
  end.
  reflexivity.
Qed.

(** When the function returns, [F2Rbinary] holds only 0 and 1; [F2R] is 0
    where the mask is 0, and where the mask is 1 its entry lies between
    [F2Rmu] and [F2Rmu + F2Rstd], for non-negative [F2Rmu] and [F2Rstd]. *)
Theorem F2R_weights_are_bounded G mP s s' :
  0 <= F2Rmu mP -> 0 <= F2Rstd mP ->
  initializeConnectionMatrices G mP s = (Ok tt, s') ->
  exists b f,
    env s' F2Rbinary = Some b /\ env s' F2R = Some f
    /\ length (data f) = length (data b)
    /\ forall k, (k < length (data b))%nat ->
         (nth k (data b) 0 = 0 /\ nth k (data f) 0 == 0)
         \/ (nth k (data b) 0 = 1
             /\ F2Rmu mP <= nth k (data f) 0 <= F2Rmu mP + F2Rstd mP).
Proof.
  intros Hmu Hsd H. split_run_keep H.
  destruct (step_F2Rbinary_binary G mP s s1 E1) as (b0 & Hb0 & Hbin).
  rewrite Hb in Hb0. injection Hb0 as <-.
  pose proof (step_F2R_value G mP s1 s2 b Hb E2) as Hval.
  rewrite Hf in Hval. injection Hval as Hval.
  exists b, f.
  split. { keep Hf7. keep Hf6. keep Hf5. keep Hf4. keep Hf3. keep Hf2. exact Hb. }
  split. { keep Hf7. keep Hf6. keep Hf5. keep Hf4. keep Hf3. exact Hf. }
  split; [now apply Hflen|].
  intros k Hk.
  assert (Hbk : nth k (data b) 0 = 0 \/ nth k (data b) 0 = 1).
  { apply (nth_default_ok (fun x => x = 0 \/ x = 1)); [now left|exact Hbin]. }
  destruct Hbk as [Hz|Ho].
  - left. split; [exact Hz|]. apply Hfz. rewrite Hz. reflexivity.
  - right. split; [exact Ho|].
    rewrite Hval. cbn [data nd_map nd_map2].
    unfold wf in Hbwf.
    rewrite (nth_map_lt _ _ _ 0 0) by (len_simpl; lia).
    rewrite (nth_map2 Qmult _ _ k 0 0 0) by (len_simpl; lia).
    rewrite (nth_map2 Qplus _ _ k 0 0 0) by (len_simpl; lia).
    rewrite !(nth_map_lt _ _ _ 0 0) by (len_simpl; lia).
    rewrite nth_map_seq by lia.
    rewrite Ho.
    pose proof (uniform_ge0 G (rng s1 + k)) as Hu0.
    pose proof (uniform_lt1 G (rng s1 + k)) as Hu1.
    set (u := uniform G (rng s1 + k)) in *.
    assert (Hlo : 0 <= F2Rstd mP * u) by (apply mult_ge0; assumption).
    assert (Hhi : F2Rstd mP * u <= F2Rstd mP).
    { assert (0 <= F2Rstd mP * (1 - u)) by (apply mult_ge0; lra). lra. }
    unfold clip_min.
    destruct (Qlt_bool _ 0) eqn:E.
    + apply Qlt_bool_iff in E. lra.
    + lra.
Qed.

Lemma F2R_weights_are_bounded_witness :
  let G := stepping_generator in
  let mP := small_params 3 0 None false (1 # 2) 5 (1 # 5) 20 in
  let s' := snd (initializeConnectionMatrices G mP fresh_state) in
  0 <= F2Rmu mP /\ 0 <= F2Rstd mP
  /\ initializeConnectionMatrices G mP fresh_state = (Ok tt, s')
  /\ exists b f,
      env s' F2Rbinary = Some b /\ env s' F2R = Some f
      /\ length (data f) = length (data b)
      /\ forall k, (k < length (data b))%nat ->
           (nth k (data b) 0 = 0 /\ nth k (data f) 0 == 0)
           \/ (nth k (data b) 0 = 1
               /\ F2Rmu mP <= nth k (data f) 0 <= F2Rmu mP + F2Rstd mP).
Proof.
  intros G mP s'.
  assert (H1 : 0 <= F2Rmu mP) by (simpl; lra).
  assert (H2 : 0 <= F2Rstd mP) by (simpl; lra).
  assert (Hrun : initializeConnectionMatrices G mP fresh_state = (Ok tt, s'))
    by (vm_compute; reflexivity).
  split; [exact H1|]. split; [exact H2|]. split; [exact Hrun|].
  exact (F2R_weights_are_bounded G mP fresh_state s' H1 H2 Hrun).
Defined.

(* ------------------------------------------------------------------ *)
(** * Further properties of the digit queues                            *)
(* ------------------------------------------------------------------ *)

(** ** Indices and slices *)

Lemma index3_plane (n1 n2 p c i : nat) :
  (c < n1)%nat -> (i < n2)%nat -> (((p * n1 + c) * n2 + i) / (n1 * n2) = p)%nat.
Proof.
  intros Hc Hi.
  replace ((p * n1 + c) * n2 + i)%nat with (p * (n1 * n2) + (c * n2 + i))%nat by lia.
  apply index2_div. nia.
Qed.

Lemma index3_class (n1 n2 p c i : nat) :
  (i < n2)%nat -> (((p * n1 + c) * n2 + i) mod n2 = i)%nat.
Proof. intro Hi. now apply index2_mod. Qed.

Lemma index3_lt (n0 n1 n2 p c i : nat) :
  (p < n0)%nat -> (c < n1)%nat -> (i < n2)%nat ->
  ((p * n1 + c) * n2 + i < n0 * (n1 * n2))%nat.
Proof.
  intros Hp Hc Hi.
  assert (H1 : (p * n1 + c + 1 <= n0 * n1)%nat) by nia.
  assert (H2 : ((p * n1 + c + 1) * n2 <= n0 * n1 * n2)%nat)
    by (apply Nat.mul_le_mono_r; exact H1).
  lia.
Qed.

(** The entries of a queue after [dq[:, a:b, i] = src], for a slice inside
    the axis. *)
Lemma assign_columns_entry dq a b i src dq' n0 n1 n2 :
  shape dq = [n0; n1; n2] -> length (data dq) = (n0 * (n1 * n2))%nat ->
  (a <= b)%nat -> (b <= n1)%nat ->
  assign_columns dq a b i src = Ok dq' ->
  (i < n2)%nat
  /\ (ncols src = (b - a)%nat \/ ncols src = 1%nat)
  /\ shape dq' = [n0; n1; n2] /\ length (data dq') = (n0 * (n1 * n2))%nat
  /\ forall p c k, (p < n0)%nat -> (c < n1)%nat -> (k < n2)%nat ->
       get3 n1 n2 (data dq') p c k =
       if (k =? i)%nat && (a <=? c)%nat && (c <? b)%nat
       then entry src p (if (ncols src =? 1)%nat then 0 else c - a)
       else get3 n1 n2 (data dq) p c k.
Proof.
  intros Hsh Hlen Hab Hb. unfold assign_columns. rewrite Hsh.
  destruct (Nat.leb_spec n2 i) as [Hi|Hi]; [discriminate|].
  replace (Nat.min a n1) with a by lia.
  replace (Nat.max a (Nat.min b n1)) with b by lia.
  destruct (_ || _) eqn:Hw; [|discriminate].
  intro H. inversion H; subst dq'; clear H.
  split; [exact Hi|].
  split.
  { apply orb_true_iff in Hw as [Hw|Hw]; apply Nat.eqb_eq in Hw; tauto. }
  split; [reflexivity|]. split; [cbn [data]; now len_simpl|].
  intros p c k Hp Hc Hk. unfold get3 at 1. cbn [data].
  rewrite nth_map_seq by (rewrite Hlen; now apply index3_lt).
  cbn [Nat.add].
  rewrite index3_plane, index3_col, index3_class by assumption.
  reflexivity.
Qed.

Lemma take_samples_Ok fA inds i src n0 n1 n2 :
  shape fA = [n0; n1; n2] ->
  take_samples fA inds i = Ok src ->
  (i < n2)%nat /\ Forall (fun c => (c < n1)%nat) inds
  /\ ncols src = length inds
  /\ forall p k, (p < n0)%nat -> (k < length inds)%nat ->
       entry src p k = get3 n1 n2 (data fA) p (nth k inds 0%nat) i.
Proof.
  intros Hsh. unfold take_samples. rewrite Hsh.
  destruct (forallb _ inds) eqn:Hf; [|discriminate].
  destruct (Nat.ltb_spec i n2) as [Hi|Hi]; [|discriminate].
  cbn [andb]. intro H. inversion H; subst src; clear H.
  split; [exact Hi|].
  split.
  { apply Forall_forall. intros c Hc.
    rewrite forallb_forall in Hf. apply Nat.ltb_lt. now apply Hf. }
  split; [reflexivity|].
  intros p k Hp Hk. now rewrite entry_tab2.
Qed.

Lemma choice_Ok_inv G top size l s s' :
  choice G top size s = (Ok l, s') ->
  length l = size /\ Forall (fun x => (x < top)%nat) l
  /\ s' = mk_state (env s) (rng s + size).
Proof.
  unfold choice. destruct (Nat.eqb_spec top 0) as [E|E]; [discriminate|].
  intro H. inversion H; subst; clear H.
  split; [now len_simpl|]. split; [|reflexivity].
  apply Forall_forall. intros x Hx. apply in_map_iff in Hx as (k & <- & _).
  pose proof (Z.mod_pos_bound (raw G k) (Z.of_nat top) ltac:(lia)). lia.
Qed.

Lemma length_tile (l : list nat) (n : nat) :
  length (tile l n) = (length l * n)%nat.
Proof.
  unfold tile. induction n as [|n IH]; simpl; [lia|].
  rewrite length_app, IH. lia.
Qed.

(** [np.tile(l, n)] repeats [l]: its entry [m * len(l) + k] is [l[k]]. *)
Lemma nth_tile (l : list nat) (n m k : nat) :
  (k < length l)%nat -> (m < n)%nat ->
  nth (m * length l + k) (tile l n) 0%nat = nth k l 0%nat.
Proof.
  unfold tile. revert m. induction n as [|n IH]; intros m Hk Hm; [lia|].
  simpl. destruct m as [|m].
  - simpl. now rewrite app_nth1.
  - rewrite app_nth2 by (simpl; lia).
    replace (S m * length l + k - length l)%nat with (m * length l + k)%nat
      by (simpl; lia).
    apply IH; [exact Hk|lia].
Qed.

(** ** One class of the queue *)

Lemma pool_indices (lo top : nat) (r : list nat) :
  Forall (fun x => (x < top)%nat) r ->
  Forall (fun x => In x (seq lo top)) (map (Nat.add lo) r).
Proof.
  intro H. apply Forall_forall. intros y Hy.
  apply in_map_iff in Hy as (x & <- & Hx).
  rewrite Forall_forall in H. specialize (H x Hx).
  apply in_seq. lia.
Qed.

Lemma nth_map_add (lo : nat) (r : list nat) (k : nat) :
  (k < length r)%nat -> nth k (map (Nat.add lo) r) 0%nat = (lo + nth k r 0)%nat.
Proof. intro Hk. now rewrite (nth_map_lt _ _ _ 0%nat 0%nat). Qed.

(** Lines 200-222 on a queue long enough for the three blocks: when the
    turn for class [i] returns, plane [i] has the layout of the three blocks
    and no other plane has changed. *)
Lemma fill_class_Ok G v tr sn fA i n0 n1 n2 s s' dq :
  shape fA = [n0; n1; n2] ->
  env s digitQueues = Some dq ->
  shape dq = [n0; n1; n2] -> length (data dq) = (n0 * (n1 * n2))%nat ->
  (2 * v + tr * sn <= n1)%nat ->
  fill_class G v tr sn fA i s = (Ok tt, s') ->
  exists dq',
    env s' digitQueues = Some dq'
    /\ shape dq' = [n0; n1; n2] /\ length (data dq') = (n0 * (n1 * n2))%nat
    /\ (i < n2)%nat
    /\ queue_layout v tr sn fA dq' n0 n1 n2 i
    /\ forall p c k, (p < n0)%nat -> (c < n1)%nat -> (k < n2)%nat -> k <> i ->
         get3 n1 n2 (data dq') p c k = get3 n1 n2 (data dq) p c k.
Proof.
  intros HfA Hdq Hsh Hlen Hn1. unfold fill_class.
  change (pool_max indPoolForBaseline - pool_min indPoolForBaseline + 1)%nat
    with 100%nat.
  change (pool_max indPoolForTrain - pool_min indPoolForTrain + 1)%nat
    with 200%nat.
  change (pool_max indPoolForPostTrain - pool_min indPoolForPostTrain + 1)%nat
    with 100%nat.
  change (pool_min indPoolForBaseline) with 0%nat.
  change (pool_min indPoolForTrain) with 100%nat.
  change (pool_min indPoolForPostTrain) with 300%nat.
  intro H.
  (* baseline images *)
  apply bind_Ok_inv in H as (r1 & t & Hc & H).
  apply choice_Ok_inv in Hc as (Hl1 & Hr1 & ->).
  apply bind_Ok_inv in H as (src1 & t & Ht & H).
  apply lift_Ok_inv in Ht as [Hs1 ->].
  apply bind_Ok_inv in H as (d & t & Ht & H).
  apply getv_Ok_inv in Ht as [Hd ->]. cbn [env] in Hd.
  rewrite Hdq in Hd. injection Hd as <-.
  apply bind_Ok_inv in H as (dq1 & t & Ht & H).
  apply lift_Ok_inv in Ht as [Ha1 ->].
  apply bind_Ok_inv in H as ([] & t & Ht & H).
  apply setv_Ok_inv in Ht. subst t. cbn [env rng] in H.
  (* training images *)
  apply bind_Ok_inv in H as (r2 & t & Hc & H).
  apply choice_Ok_inv in Hc as (Hl2 & Hr2 & ->). cbn [env rng] in H.
  apply bind_Ok_inv in H as (src2 & t & Ht & H).
  apply lift_Ok_inv in Ht as [Hs2 ->].
  apply bind_Ok_inv in H as (d & t & Ht & H).
  apply getv_Ok_inv in Ht as [Hd ->]. simpl_env. injection Hd as <-.
  apply bind_Ok_inv in H as (dq2 & t & Ht & H).
  apply lift_Ok_inv in Ht as [Ha2 ->].
  apply bind_Ok_inv in H as ([] & t & Ht & H).
  apply setv_Ok_inv in Ht. subst t. cbn [env rng] in H.
  (* post-training images *)
  apply bind_Ok_inv in H as (r3 & t & Hc & H).
  apply choice_Ok_inv in Hc as (Hl3 & Hr3 & ->). cbn [env rng] in H.
  apply bind_Ok_inv in H as (src3 & t & Ht & H).
  apply lift_Ok_inv in Ht as [Hs3 ->].
  apply bind_Ok_inv in H as (d & t & Ht & H).
  apply getv_Ok_inv in Ht as [Hd ->]. simpl_env. injection Hd as <-.
  apply bind_Ok_inv in H as (dq3 & t & Ht & H).
  apply lift_Ok_inv in Ht as [Ha3 ->].
  apply setv_Ok_inv in H. subst s'. simpl_env.
  (* the three assignments *)
  destruct (assign_columns_entry _ 0%nat v _ _ _ n0 n1 n2 Hsh Hlen
              ltac:(lia) ltac:(lia) Ha1) as (Hi & _ & Hsh1 & Hlen1 & He1).
  destruct (assign_columns_entry _ v (v + tr * sn)%nat _ _ _ n0 n1 n2 Hsh1 Hlen1
              ltac:(lia) ltac:(lia) Ha2) as (_ & _ & Hsh2 & Hlen2 & He2).
  destruct (assign_columns_entry _ (v + tr * sn)%nat (v + tr * sn + v)%nat
              _ _ _ n0 n1 n2 Hsh2 Hlen2 ltac:(lia) ltac:(lia) Ha3) as (_ & _ & Hsh3 & Hlen3 & He3).
  destruct (take_samples_Ok _ _ _ _ n0 n1 n2 HfA Hs1) as (_ & _ & Hc1 & Hv1).
  destruct (take_samples_Ok _ _ _ _ n0 n1 n2 HfA Hs2) as (_ & _ & Hc2 & Hv2).
  destruct (take_samples_Ok _ _ _ _ n0 n1 n2 HfA Hs3) as (_ & _ & Hc3 & Hv3).
  rewrite length_map in Hc1, Hc3, Hv1, Hv3.
  rewrite length_tile, length_map in Hc2, Hv2.
  rewrite Hl1 in *. rewrite Hl2 in *. rewrite Hl3 in *.
  exists dq3. split; [reflexivity|]. split; [exact Hsh3|]. split; [exact Hlen3|].
  split; [exact Hi|].
  split.
  - exists (map (Nat.add 0) r1), (map (Nat.add 100) r2), (map (Nat.add 300) r3).
    split. { split; [now rewrite length_map|]. now apply (pool_indices 0 100). }
    split. { split; [now rewrite length_map|]. now apply (pool_indices 100 200). }
    split. { split; [now rewrite length_map|]. now apply (pool_indices 300 100). }
    intros p Hp. split; [|split].
    + intros k Hk.
      rewrite He3, He2, He1 by (assumption || lia).
      rewrite Nat.eqb_refl.
      replace (v + tr * sn <=? k)%nat with false by (symmetry; apply Nat.leb_gt; lia).
      replace (v <=? k)%nat with false by (symmetry; apply Nat.leb_gt; lia).
      replace (0 <=? k)%nat with true by (symmetry; apply Nat.leb_le; lia).
      replace (k <? v)%nat with true by (symmetry; apply Nat.ltb_lt; lia).
      cbn [andb]. rewrite Hc1.
      destruct (Nat.eqb_spec v 1) as [E|E].
      * replace k with 0%nat by lia. apply Hv1; lia.
      * rewrite Nat.sub_0_r. apply Hv1; lia.
    + intros m k Hm Hk.
      assert (Hmk : (m * tr + k < tr * sn)%nat) by nia.
      rewrite He3, He2 by (assumption || lia).
      rewrite Nat.eqb_refl.
      replace (v + tr * sn <=? v + (m * tr + k))%nat with false
        by (symmetry; apply Nat.leb_gt; lia).
      replace (v <=? v + (m * tr + k))%nat with true
        by (symmetry; apply Nat.leb_le; lia).
      replace (v + (m * tr + k) <? v + tr * sn)%nat with true
        by (symmetry; apply Nat.ltb_lt; lia).
      cbn [andb]. rewrite Hc2.
      replace (v + (m * tr + k) - v)%nat with (m * tr + k)%nat by lia.
      assert (Hnth : nth (m * tr + k) (tile (map (Nat.add 100) r2) sn) 0%nat
                     = nth k (map (Nat.add 100) r2) 0%nat).
      { rewrite <- Hl2 at 1. rewrite <- (length_map (Nat.add 100) r2).
        apply nth_tile; [rewrite length_map; lia|exact Hm]. }
      destruct (Nat.eqb_spec (tr * sn) 1) as [E|E].
      * assert (m * tr + k = 0)%nat by lia.
        rewrite <- Hnth. replace (m * tr + k)%nat with 0%nat by lia.
        apply Hv2; lia.
      * rewrite <- Hnth. apply Hv2; lia.
    + intros k Hk.
      rewrite He3 by (assumption || lia).
      rewrite Nat.eqb_refl.
      replace (v + tr * sn <=? v + tr * sn + k)%nat with true
        by (symmetry; apply Nat.leb_le; lia).
      replace (v + tr * sn + k <? v + tr * sn + v)%nat with true
        by (symmetry; apply Nat.ltb_lt; lia).
      cbn [andb]. rewrite Hc3.
      replace (v + tr * sn + k - (v + tr * sn))%nat with k by lia.
      destruct (Nat.eqb_spec v 1) as [E|E].
      * replace k with 0%nat by lia. apply Hv3; lia.
      * apply Hv3; lia.
  - intros p c k Hp Hc Hk Hne.
    rewrite He3, He2, He1 by assumption.
    replace (k =? i)%nat with false by (symmetry; now apply Nat.eqb_neq).
    reflexivity.
Qed.

(** ** The assembled queue *)

Lemma for_seq_Ok_inv (I : nat -> State -> Prop) (body : nat -> M unit) :
  (forall k s s', I k s -> body k s = (Ok tt, s') -> I (S k) s') ->
  forall n a s s', I a s -> for_each (seq a n) body s = (Ok tt, s') ->
                   I (a + n)%nat s'.
Proof.
  intro Hb. induction n as [|n IH]; intros a s s' Hs H; simpl in H.
  - apply ret_Ok_inv in H as [_ ->]. now rewrite Nat.add_0_r.
  - apply bind_Ok_inv in H as ([] & s1 & H1 & H2).
    replace (a + S n)%nat with (S a + n)%nat by lia.
    apply (IH (S a) s1 s'); [|exact H2].
    now apply (Hb a s s1).
Qed.

Lemma queue_layout_plane v tr sn fA dq dq' n0 n1 n2 i :
  (2 * v + tr * sn <= n1)%nat ->
  (forall p c, (p < n0)%nat -> (c < n1)%nat ->
     get3 n1 n2 (data dq') p c i = get3 n1 n2 (data dq) p c i) ->
  queue_layout v tr sn fA dq n0 n1 n2 i ->
  queue_layout v tr sn fA dq' n0 n1 n2 i.
Proof.
  intros Hn1 Hsame (bs & ts & ps & Hbs & Hts & Hps & Hlay).
  exists bs, ts, ps. split; [exact Hbs|]. split; [exact Hts|]. split; [exact Hps|].
  intros p Hp. destruct (Hlay p Hp) as (H1 & H2 & H3).
  split; [|split].
  - intros k Hk. rewrite Hsame by (assumption || lia). now apply H1.
  - intros m k Hm Hk.
    assert ((m * tr + k < tr * sn)%nat) by nia.
    rewrite Hsame by (assumption || lia). now apply H2.
  - intros k Hk. rewrite Hsame by (assumption || lia). now apply H3.
Qed.

Lemma assemble_digitQueues_layout G val_per_class tr_per_class num_sniffs fA
    n0 n1 n2 s s' :
  shape fA = [n0; n1; n2] ->
  (2 * val_per_class + tr_per_class * num_sniffs <= n1)%nat ->
  assemble_digitQueues G val_per_class tr_per_class num_sniffs fA s = (Ok tt, s') ->
  (10 <= n2)%nat
  /\ exists dq,
      env s' digitQueues = Some dq
      /\ shape dq = shape fA
      /\ forall i, (i < 10)%nat ->
           queue_layout val_per_class tr_per_class num_sniffs fA dq n0 n1 n2 i.
Proof.
  intros HfA Hn1 H. unfold assemble_digitQueues in H.
  apply bind_Ok_inv in H as ([] & s0 & H0 & H).
  apply setv_Ok_inv in H0. subst s0.
  set (I := fun (k : nat) (t : State) =>
              exists dq,
                env t digitQueues = Some dq
                /\ shape dq = [n0; n1; n2]
                /\ length (data dq) = (n0 * (n1 * n2))%nat
                /\ forall i, (i < k)%nat ->
                     (i < n2)%nat
                     /\ queue_layout val_per_class tr_per_class num_sniffs
                          fA dq n0 n1 n2 i).
  assert (HI : I (0 + 10)%nat s').
  { refine (for_seq_Ok_inv I _ _ 10%nat 0%nat _ s' _ H).
    - intros k t t' (dq & Hdq & Hsh & Hlen & Hdone) Hk.
      destruct (fill_class_Ok _ _ _ _ _ _ n0 n1 n2 _ _ dq HfA Hdq Hsh Hlen Hn1 Hk)
        as (dq' & Hdq' & Hsh' & Hlen' & Hkn & Hlay & Hother).
      exists dq'. split; [exact Hdq'|]. split; [exact Hsh'|]. split; [exact Hlen'|].
      intros i Hi. destruct (Nat.eq_dec i k) as [->|Hne].
      + split; assumption.
      + destruct (Hdone i ltac:(lia)) as [Hin2 Hl]. split; [exact Hin2|].
        apply (queue_layout_plane _ _ _ _ dq); [exact Hn1| |exact Hl].
        intros p c Hp Hc. now apply Hother.
    - exists (nd_zeros (shape fA)). split; [reflexivity|].
      split; [exact HfA|].
      split. { unfold nd_zeros. cbn [data]. rewrite repeat_length, HfA.
               unfold size_of. simpl. lia. }
      intros i Hi. lia. }
  destruct HI as (dq & Hdq & Hsh & _ & Hdone).
  split. { destruct (Hdone 9%nat ltac:(lia)) as [H9 _]. lia. }
  exists dq. split; [exact Hdq|]. split; [congruence|].
  intros i Hi. now apply Hdone.
Qed.

(** Lines 196-222.  When the assembly returns on a feature array whose
    second axis has room for the three blocks, [fA] has at least ten
    classes, and each of the ten planes of [digitQueues] holds baseline
    columns, the training columns once per sniff, and post-training columns,
    each taken from the same class of [fA] and from the pool of its kind. *)
Theorem digitQueues_layout G val_per_class tr_per_class num_sniffs fA
    n0 n1 n2 s s' :
  shape fA = [n0; n1; n2] ->
  (2 * val_per_class + tr_per_class * num_sniffs <= n1)%nat ->
  assemble_digitQueues G val_per_class tr_per_class num_sniffs fA s = (Ok tt, s') ->
  (10 <= n2)%nat
  /\ exists dq,
      env s' digitQueues = Some dq
      /\ shape dq = shape fA
      /\ forall i, (i < 10)%nat ->
           queue_layout val_per_class tr_per_class num_sniffs fA dq n0 n1 n2 i.
Proof.
  exact (assemble_digitQueues_layout G val_per_class tr_per_class num_sniffs fA
           n0 n1 n2 s s').
Qed.

(** ** When the assembly returns *)

Lemma choice_run G top size s :
  top <> 0%nat ->
  choice G top size s =
  (Ok (map (fun k => Z.to_nat (raw G k mod Z.of_nat top)) (seq (rng s) size)),
   mk_state (env s) (rng s + size)).
Proof.
  intro H. unfold choice. now destruct (Nat.eqb_spec top 0).
Qed.

Lemma choice_in_range G top size s :
  top <> 0%nat ->
  Forall (fun x => (x < top)%nat)
    (map (fun k => Z.to_nat (raw G k mod Z.of_nat top)) (seq (rng s) size)).
Proof.
  intro H. apply Forall_forall. intros x Hx. apply in_map_iff in Hx as (k & <- & _).
  pose proof (Z.mod_pos_bound (raw G k) (Z.of_nat top) ltac:(lia)). lia.
Qed.

Lemma take_samples_run fA inds i n0 n1 n2 :
  shape fA = [n0; n1; n2] -> (i < n2)%nat ->
  Forall (fun c => (c < n1)%nat) inds ->
  exists src, take_samples fA inds i = Ok src /\ ncols src = length inds.
Proof.
  intros Hsh Hi Hin. unfold take_samples. rewrite Hsh.
  assert (Hf : forallb (fun c => (c <? n1)%nat) inds = true).
  { apply forallb_forall. intros c Hc. apply Nat.ltb_lt.
    rewrite Forall_forall in Hin. now apply Hin. }
  rewrite Hf. apply Nat.ltb_lt in Hi. rewrite Hi. cbn [andb].
  eexists. split; reflexivity.
Qed.

Lemma assign_columns_run dq a b i src n0 n1 n2 :
  shape dq = [n0; n1; n2] -> (i < n2)%nat ->
  (a <= b)%nat -> (b <= n1)%nat -> ncols src = (b - a)%nat ->
  exists dq', assign_columns dq a b i src = Ok dq' /\ shape dq' = [n0; n1; n2].
Proof.
  intros Hsh Hi Hab Hb Hw. unfold assign_columns. rewrite Hsh.
  destruct (Nat.leb_spec n2 i) as [Hle|_]; [lia|].
  replace (Nat.min a n1) with a by lia.
  replace (Nat.max a (Nat.min b n1)) with b by lia.
  rewrite Hw, Nat.eqb_refl. cbn [orb].
  eexists. split; reflexivity.
Qed.

Lemma pool_below (lo top n1 : nat) (r : list nat) :
  (lo + top <= n1)%nat ->
  Forall (fun x => (x < top)%nat) r ->
  Forall (fun c => (c < n1)%nat) (map (Nat.add lo) r).
Proof.
  intros Hn H. apply Forall_forall. intros y Hy.
  apply in_map_iff in Hy as (x & <- & Hx).
  rewrite Forall_forall in H. specialize (H x Hx). lia.
Qed.

Lemma Forall_tile (P : nat -> Prop) (l : list nat) (n : nat) :
  Forall P l -> Forall P (tile l n).
Proof.
  intro H. unfold tile. induction n as [|n IH]; simpl; [constructor|].
  apply Forall_app. split; assumption.
Qed.

Lemma fill_class_runs G v tr sn fA i n0 n1 n2 s dq :
  shape fA = [n0; n1; n2] -> (400 <= n1)%nat -> (i < n2)%nat ->
  (2 * v + tr * sn <= n1)%nat ->
  env s digitQueues = Some dq -> shape dq = [n0; n1; n2] ->
  exists s' dq',
    fill_class G v tr sn fA i s = (Ok tt, s')
    /\ env s' digitQueues = Some dq' /\ shape dq' = [n0; n1; n2].
Proof.
  intros HfA H400 Hi Hn1 Hdq Hsh. unfold fill_class.
  change (pool_max indPoolForBaseline - pool_min indPoolForBaseline + 1)%nat
    with 100%nat.
  change (pool_max indPoolForTrain - pool_min indPoolForTrain + 1)%nat
    with 200%nat.
  change (pool_max indPoolForPostTrain - pool_min indPoolForPostTrain + 1)%nat
    with 100%nat.
  change (pool_min indPoolForBaseline) with 0%nat.
  change (pool_min indPoolForTrain) with 100%nat.
  change (pool_min indPoolForPostTrain) with 300%nat.
  (* baseline images *)
  rewrite (bind_run _ _ _ _ _ (choice_run G 100 v s ltac:(lia))).
  set (r1 := map _ (seq (rng s) v)).
  assert (Hr1 : Forall (fun x => (x < 100)%nat) r1)
    by (apply choice_in_range; lia).
  destruct (take_samples_run fA (map (Nat.add 0) r1) i n0 n1 n2 HfA Hi)
    as (src1 & Hs1 & Hc1).
  { apply (pool_below 0 100); [lia|exact Hr1]. }
  unfold bind at 1, lift at 1. rewrite Hs1.
  unfold bind at 1, getv at 1. cbn [env]. rewrite Hdq.
  destruct (assign_columns_run dq 0 v i src1 n0 n1 n2 Hsh Hi)
    as (dq1 & Ha1 & Hsh1); [lia|lia| |].
  { rewrite Hc1, length_map. unfold r1. len_simpl. lia. }
  unfold bind at 1, lift at 1. rewrite Ha1.
  unfold bind at 1, setv at 1. cbn [env rng].
  (* training images *)
  rewrite (bind_run _ _ _ _ _ (choice_run G 200 tr _ ltac:(lia))). cbn [env rng].
  set (r2 := map _ (seq (rng s + v) tr)).
  assert (Hr2 : Forall (fun x => (x < 200)%nat) r2)
    by (apply (choice_in_range G 200 tr (mk_state (env s) (rng s + v))); lia).
  destruct (take_samples_run fA (tile (map (Nat.add 100) r2) sn) i n0 n1 n2 HfA Hi)
    as (src2 & Hs2 & Hc2).
  { apply Forall_tile. apply (pool_below 100 200); [lia|exact Hr2]. }
  unfold bind at 1, lift at 1. rewrite Hs2.
  unfold bind at 1, getv at 1. simpl_env.
  destruct (assign_columns_run dq1 v (v + tr * sn) i src2 n0 n1 n2 Hsh1 Hi)
    as (dq2 & Ha2 & Hsh2); [lia|lia| |].
  { rewrite Hc2, length_tile, length_map. unfold r2. len_simpl. lia. }
  unfold bind at 1, lift at 1. rewrite Ha2.
  unfold bind at 1, setv at 1. cbn [env rng].
  (* post-training images *)
  rewrite (bind_run _ _ _ _ _ (choice_run G 100 v _ ltac:(lia))). cbn [env rng].
  set (r3 := map _ (seq (rng s + v + tr) v)).
  assert (Hr3 : Forall (fun x => (x < 100)%nat) r3)
    by (apply (choice_in_range G 100 v (mk_state (env s) (rng s + v + tr))); lia).
  destruct (take_samples_run fA (map (Nat.add 300) r3) i n0 n1 n2 HfA Hi)
    as (src3 & Hs3 & Hc3).
  { apply (pool_below 300 100); [lia|exact Hr3]. }
  unfold bind at 1, lift at 1. rewrite Hs3.
  unfold bind at 1, getv at 1. simpl_env.
  destruct (assign_columns_run dq2 (v + tr * sn) (v + tr * sn + v) i src3
              n0 n1 n2 Hsh2 Hi)
    as (dq3 & Ha3 & Hsh3); [lia|lia| |].
  { rewrite Hc3, length_map. unfold r3. len_simpl. lia. }
  unfold bind at 1, lift at 1. rewrite Ha3.
  unfold setv.
  eexists. exists dq3. split; [reflexivity|]. simpl_env.
  split; [reflexivity|exact Hsh3].
Qed.

Lemma assemble_digitQueues_returns G v tr sn fA n0 n1 n2 s :
  shape fA = [n0; n1; n2] -> (400 <= n1)%nat -> (10 <= n2)%nat ->
  (2 * v + tr * sn <= n1)%nat ->
  exists s', assemble_digitQueues G v tr sn fA s = (Ok tt, s').
Proof.
  intros HfA H400 Hn2 Hn1. unfold assemble_digitQueues.
  unfold bind at 1, setv at 1.
  set (I := fun t : State =>
              exists dq, env t digitQueues = Some dq /\ shape dq = [n0; n1; n2]).
  destruct (for_each_runs I class_labels (fill_class G v tr sn fA))
    with (s := mk_state (upd (env s) digitQueues (nd_zeros (shape fA))) (rng s))
    as (s' & Hs' & _).
  - intros i t Hin (dq & Hdq & Hsh).
    apply in_seq in Hin.
    destruct (fill_class_runs G v tr sn fA i n0 n1 n2 t dq HfA H400
                ltac:(lia) Hn1 Hdq Hsh) as (t' & dq' & Hrun & Hdq' & Hsh').
    exists t'. split; [exact Hrun|]. exists dq'. tauto.
  - eexists. split; [reflexivity|exact HfA].
  - now exists s'.
Qed.

(** Lines 196-222 return whenever [fA] offers the 400 images per class that
    the three pools index, at least ten classes, and a second axis long
    enough for the three blocks of the queue. *)
Theorem assembly_returns_on_full_pools G val_per_class tr_per_class num_sniffs
    fA n0 n1 n2 s :
  shape fA = [n0; n1; n2] -> (400 <= n1)%nat -> (10 <= n2)%nat ->
  (2 * val_per_class + tr_per_class * num_sniffs <= n1)%nat ->
  fst (assemble_digitQueues G val_per_class tr_per_class num_sniffs fA s) = Ok tt.
Proof.
  intros HfA H400 Hn2 Hn1.
  destruct (assemble_digitQueues_returns G val_per_class tr_per_class num_sniffs
              fA n0 n1 n2 s HfA H400 Hn2 Hn1) as (s' & ->).
  reflexivity.
Qed.

Lemma assembly_returns_on_full_pools_witness :
  let fA := mk_nd [1%nat; 400%nat; 10%nat]
              (map (fun k => inject_Z (Z.of_nat k)) (seq 0 4000)) in
  shape fA = [1%nat; 400%nat; 10%nat]
  /\ (400 <= 400)%nat /\ (10 <= 10)%nat /\ (2 * 15 + 3 * 2 <= 400)%nat
  /\ fst (assemble_digitQueues stepping_generator 15 3 2 fA fresh_state) = Ok tt.
Proof.
  intro fA.
  assert (H1 : shape fA = [1%nat; 400%nat; 10%nat]) by reflexivity.
  assert (H2 : (400 <= 400)%nat) by lia.
  assert (H3 : (10 <= 10)%nat) by lia.
  assert (H4 : (2 * 15 + 3 * 2 <= 400)%nat) by lia.
  split; [exact H1|]. split; [exact H2|]. split; [exact H3|]. split; [exact H4|].
  exact (assembly_returns_on_full_pools stepping_generator 15 3 2 fA 1 400 10
           fresh_state H1 H2 H3 H4).
Defined.

Lemma digitQueues_layout_witness :
  let fA := mk_nd [1%nat; 400%nat; 10%nat]
              (map (fun k => inject_Z (Z.of_nat k)) (seq 0 4000)) in
  shape fA = [1%nat; 400%nat; 10%nat]
  /\ (2 * 15 + 3 * 2 <= 400)%nat
  /\ exists s',
      assemble_digitQueues stepping_generator 15 3 2 fA fresh_state = (Ok tt, s')
      /\ (10 <= 10)%nat
      /\ exists dq,
          env s' digitQueues = Some dq
          /\ shape dq = shape fA
          /\ forall i, (i < 10)%nat -> queue_layout 15 3 2 fA dq 1 400 10 i.
Proof.
  intro fA.
  assert (H1 : shape fA = [1%nat; 400%nat; 10%nat]) by reflexivity.
  assert (H2 : (2 * 15 + 3 * 2 <= 400)%nat) by lia.
  split; [exact H1|]. split; [exact H2|].
  destruct (assemble_digitQueues_returns stepping_generator 15 3 2 fA 1 400 10
              fresh_state H1 ltac:(lia) ltac:(lia) H2) as (s' & Hrun).
  exists s'. split; [exact Hrun|].
  exact (digitQueues_layout stepping_generator 15 3 2 fA 1 400 10 fresh_state s'
           H1 H2 Hrun).
Defined.

(* ------------------------------------------------------------------ *)
(** * Properties of the train and validation sets                       *)
(* ------------------------------------------------------------------ *)

Example slice_columns_example :
  slice_columns (mk_nd [1%nat; 3%nat; 2%nat] [1; 2; 3; 4; 5; 6]) 1 5 0
  = Ok (mk_nd [1%nat; 2%nat] [3; 5]).
Proof. reflexivity. Qed.

Example transpose_example :
  transpose (mk_nd [2%nat; 3%nat] [1; 2; 3; 4; 5; 6])
  = mk_nd [3%nat; 2%nat] [1; 4; 2; 5; 3; 6].
Proof. reflexivity. Qed.

Example assign_rows_example :
  assign_rows (mk_nd [3%nat; 2%nat] [0; 0; 0; 0; 0; 0]) 1 3
    (mk_nd [2%nat; 2%nat] [1; 2; 3; 4])
  = Ok (mk_nd [3%nat; 2%nat] [0; 0; 1; 2; 3; 4]).
Proof. reflexivity. Qed.

Example assign_rows_broadcast :
  assign_rows (mk_nd [3%nat; 2%nat] [0; 0; 0; 0; 0; 0]) 1 3
    (mk_nd [1%nat; 2%nat] [1; 2])
  = Ok (mk_nd [3%nat; 2%nat] [0; 0; 1; 2; 1; 2])
  /\ assign_rows (mk_nd [3%nat; 2%nat] [0; 0; 0; 0; 0; 0]) 0 3
       (mk_nd [2%nat; 2%nat] [1; 2; 3; 4])
     = Raise ValueError.
Proof. split; reflexivity. Qed.

(** ** Slices, transposes and row assignments *)

Lemma slice_columns_Ok dq a b i temp n0 n1 n2 :
  shape dq = [n0; n1; n2] -> (a <= b)%nat -> (b <= n1)%nat ->
  slice_columns dq a b i = Ok temp ->
  (i < n2)%nat
  /\ temp = tab2 n0 (b - a) (fun p c => get3 n1 n2 (data dq) p (a + c) i).
Proof.
  intros Hsh Hab Hb. unfold slice_columns. rewrite Hsh.
  destruct (Nat.ltb_spec i n2) as [Hi|Hi]; [|discriminate].
  replace (Nat.min a n1) with a by lia.
  replace (Nat.max a (Nat.min b n1)) with b by lia.
  intro H. inversion H. split; [exact Hi|reflexivity].
Qed.

Lemma slice_columns_run dq a b i n0 n1 n2 :
  shape dq = [n0; n1; n2] -> (a <= b)%nat -> (b <= n1)%nat -> (i < n2)%nat ->
  slice_columns dq a b i
  = Ok (tab2 n0 (b - a) (fun p c => get3 n1 n2 (data dq) p (a + c) i)).
Proof.
  intros Hsh Hab Hb Hi. unfold slice_columns. rewrite Hsh.
  apply Nat.ltb_lt in Hi. rewrite Hi.
  replace (Nat.min a n1) with a by lia.
  replace (Nat.max a (Nat.min b n1)) with b by lia.
  reflexivity.
Qed.

Lemma transpose_tab2 (r c : nat) f :
  nrows (transpose (tab2 r c f)) = c /\ ncols (transpose (tab2 r c f)) = r
  /\ forall i j, (i < c)%nat -> (j < r)%nat ->
       entry (transpose (tab2 r c f)) i j = f j i.
Proof.
  split; [reflexivity|]. split; [reflexivity|].
  intros i j Hi Hj. unfold transpose.
  change (ncols (tab2 r c f)) with c. change (nrows (tab2 r c f)) with r.
  rewrite entry_tab2 by assumption. now apply entry_tab2.
Qed.

Lemma assign_rows_entry x a b src x' r c :
  shape x = [r; c] -> length (data x) = (r * c)%nat ->
  (a <= b)%nat -> (b <= r)%nat ->
  assign_rows x a b src = Ok x' ->
  shape x' = [r; c] /\ length (data x') = (r * c)%nat
  /\ forall p q, (p < r)%nat -> (q < c)%nat ->
       entry x' p q =
       if (a <=? p)%nat && (p <? b)%nat
       then entry src (if (nrows src =? 1)%nat then 0 else p - a)
                      (if (ncols src =? 1)%nat then 0 else q)
       else entry x p q.
Proof.
  intros Hsh Hlen Hab Hb. unfold assign_rows, nrows, ncols. rewrite Hsh.
  cbn [nth].
  replace (Nat.min a r) with a by lia.
  replace (Nat.max a (Nat.min b r)) with b by lia.
  destruct (_ && _); [|discriminate].
  intro H. inversion H; subst x'; clear H.
  split; [reflexivity|]. split; [cbn [data]; now len_simpl|].
  intros p q Hp Hq. unfold entry at 1, get2, ncols. cbn [shape data nth].
  rewrite nth_map_seq by (rewrite Hlen; now apply index2_lt).
  cbn [Nat.add]. rewrite index2_div, index2_mod by exact Hq.
  unfold entry, get2, ncols. rewrite Hsh. reflexivity.
Qed.

Lemma assign_rows_run x a b src r c :
  shape x = [r; c] -> (a <= b)%nat -> (b <= r)%nat ->
  nrows src = (b - a)%nat -> ncols src = c ->
  exists x', assign_rows x a b src = Ok x'.
Proof.
  intros Hsh Hab Hb Hr Hc. unfold assign_rows.
  assert (Hnr : nrows x = r) by (unfold nrows; now rewrite Hsh).
  assert (Hnc : ncols x = c) by (unfold ncols; now rewrite Hsh).
  rewrite Hnr, Hnc.
  replace (Nat.min a r) with a by lia.
  replace (Nat.max a (Nat.min b r)) with b by lia.
  rewrite Hr, Hc, !Nat.eqb_refl. cbn [orb andb]. eexists. reflexivity.
Qed.

Lemma fill_rows_entry x a b v r c :
  shape x = [r; c] -> length (data x) = (r * c)%nat ->
  (a <= b)%nat -> (b <= r)%nat ->
  shape (fill_rows x a b v) = [r; c]
  /\ length (data (fill_rows x a b v)) = (r * c)%nat
  /\ forall p q, (p < r)%nat -> (q < c)%nat ->
       entry (fill_rows x a b v) p q =
       if (a <=? p)%nat && (p <? b)%nat then v else entry x p q.
Proof.
  intros Hsh Hlen Hab Hb. unfold fill_rows, nrows, ncols. rewrite Hsh.
  cbn [nth].
  replace (Nat.min a r) with a by lia.
  replace (Nat.max a (Nat.min b r)) with b by lia.
  split; [reflexivity|]. split; [cbn [data]; now len_simpl|].
  intros p q Hp Hq. unfold entry at 1, get2, ncols. cbn [shape data nth].
  rewrite nth_map_seq by (rewrite Hlen; now apply index2_lt).
  cbn [Nat.add]. rewrite index2_div by exact Hq.
  unfold entry, get2, ncols. rewrite Hsh. reflexivity.
Qed.

(** ** One class of the train and validation sets *)

Lemma in_block (i j w k : nat) :
  (k < w)%nat ->
  (i * w <=? j * w + k)%nat && (j * w + k <? (i + 1) * w)%nat = (i =? j)%nat.
Proof.
  intro Hk. destruct (Nat.eqb_spec i j) as [->|Hne].
  - replace (j * w <=? j * w + k)%nat with true by (symmetry; apply Nat.leb_le; lia).
    replace (j * w + k <? (j + 1) * w)%nat with true
      by (symmetry; apply Nat.ltb_lt; lia).
    reflexivity.
  - destruct (Nat.leb_spec (i * w) (j * w + k)) as [H1|H1]; [|reflexivity].
    destruct (Nat.ltb_spec (j * w + k) ((i + 1) * w)) as [H2|H2]; [|reflexivity].
    exfalso. apply Hne.
    assert (i <= j)%nat by nia. assert (j <= i)%nat by nia. lia.
Qed.

Lemma split_class_Ok v tr i st s st' s' dq n0 n1 n2 :
  env s digitQueues = Some dq -> shape dq = [n0; n1; n2] ->
  (2 * v + tr <= n1)%nat -> (i < 10)%nat ->
  sets_shaped v tr n0 st ->
  split_class v tr i st s = (Ok st', s') ->
  s' = s /\ (i < n2)%nat /\ sets_shaped v tr n0 st'
  /\ class_rows v tr dq n0 n1 n2 st' i
  /\ forall j, (j < 10)%nat -> j <> i ->
       class_rows v tr dq n0 n1 n2 st j -> class_rows v tr dq n0 n1 n2 st' j.
Proof.
  intros Hdq Hsh Hn1 Hi ((HtXs & HtXl) & (HvXs & HvXl) & (HtYs & HtYl) & (HvYs & HvYl)).
  unfold split_class. intro H.
  apply bind_Ok_inv in H as (d & t & Ht & H).
  apply getv_Ok_inv in Ht as [Hd ->]. rewrite Hdq in Hd. injection Hd as <-.
  apply bind_Ok_inv in H as (temp1 & t & Ht & H).
  apply lift_Ok_inv in Ht as [Hs1 ->].
  apply bind_Ok_inv in H as (tX & t & Ht & H).
  apply lift_Ok_inv in Ht as [Ha1 ->].
  apply bind_Ok_inv in H as (d & t & Ht & H).
  apply getv_Ok_inv in Ht as [Hd ->]. rewrite Hdq in Hd. injection Hd as <-.
  apply bind_Ok_inv in H as (temp2 & t & Ht & H).
  apply lift_Ok_inv in Ht as [Hs2 ->].
  apply bind_Ok_inv in H as (vX & t & Ht & H).
  apply lift_Ok_inv in Ht as [Ha2 ->].
  apply ret_Ok_inv in H as [-> ->].
  destruct (slice_columns_Ok dq v (v + tr) i _ n0 n1 n2 Hsh
              ltac:(lia) ltac:(lia) Hs1) as (Hin2 & ->).
  destruct (slice_columns_Ok dq (v + tr) (2 * v + tr) i _ n0 n1 n2 Hsh
              ltac:(lia) ltac:(lia) Hs2) as (_ & ->).
  replace (v + tr - v)%nat with tr in * by lia.
  replace (2 * v + tr - (v + tr))%nat with v in * by lia.
  destruct (transpose_tab2 n0 tr
              (fun p c => get3 n1 n2 (data dq) p (v + c) i)) as (Hr1 & Hc1 & He1).
  destruct (transpose_tab2 n0 v
              (fun p c => get3 n1 n2 (data dq) p (v + tr + c) i)) as (Hr2 & Hc2 & He2).
  destruct (assign_rows_entry _ (i * tr) ((i + 1) * tr) _ _ (10 * tr) n0
              HtXs HtXl ltac:(lia) ltac:(nia) Ha1) as (HtXs' & HtXl' & HtXe).
  destruct (assign_rows_entry _ (i * v) ((i + 1) * v) _ _ (10 * v) n0
              HvXs HvXl ltac:(lia) ltac:(nia) Ha2) as (HvXs' & HvXl' & HvXe).
  destruct (fill_rows_entry (trainY st) (i * tr) ((i + 1) * tr)
              (inject_Z (Z.of_nat i)) (10 * tr) 1
              HtYs HtYl ltac:(lia) ltac:(nia)) as (HtYs' & HtYl' & HtYe).
  destruct (fill_rows_entry (valY st) (i * v) ((i + 1) * v)
              (inject_Z (Z.of_nat i)) (10 * v) 1
              HvYs HvYl ltac:(lia) ltac:(nia)) as (HvYs' & HvYl' & HvYe).
  split; [reflexivity|]. split; [exact Hin2|].
  split.
  { cbn [trainX valX trainY valY].
    repeat split; try assumption; lia. }
  split.
  - unfold class_rows. cbn [trainX valX trainY valY]. split; [|split; [|split]].
    + intros k p Hk Hp. rewrite HtXe by (nia || assumption).
      rewrite in_block, Nat.eqb_refl by exact Hk. rewrite Hr1, Hc1.
      replace (i * tr + k - i * tr)%nat with k by lia.
      destruct (Nat.eqb_spec tr 1) as [E1|E1];
        destruct (Nat.eqb_spec n0 1) as [E2|E2];
        try (replace k with 0%nat by lia); try (replace p with 0%nat by lia);
        rewrite He1 by lia; reflexivity.
    + intros k p Hk Hp. rewrite HvXe by (nia || assumption).
      rewrite in_block, Nat.eqb_refl by exact Hk. rewrite Hr2, Hc2.
      replace (i * v + k - i * v)%nat with k by lia.
      destruct (Nat.eqb_spec v 1) as [E1|E1];
        destruct (Nat.eqb_spec n0 1) as [E2|E2];
        try (replace k with 0%nat by lia); try (replace p with 0%nat by lia);
        rewrite He2 by lia; reflexivity.
    + intros k Hk. rewrite HtYe by (nia || lia).
      now rewrite in_block, Nat.eqb_refl.
    + intros k Hk. rewrite HvYe by (nia || lia).
      now rewrite in_block, Nat.eqb_refl.
  - intros j Hj Hne (R1 & R2 & R3 & R4).
    assert (Hij : (i =? j)%nat = false) by (apply Nat.eqb_neq; congruence).
    unfold class_rows. cbn [trainX valX trainY valY]. split; [|split; [|split]].
    + intros k p Hk Hp. rewrite HtXe by (nia || assumption).
      rewrite in_block, Hij by exact Hk. now apply R1.
    + intros k p Hk Hp. rewrite HvXe by (nia || assumption).
      rewrite in_block, Hij by exact Hk. now apply R2.
    + intros k Hk. rewrite HtYe by (nia || lia).
      rewrite in_block, Hij by exact Hk. now apply R3.
    + intros k Hk. rewrite HvYe by (nia || lia).
      rewrite in_block, Hij by exact Hk. now apply R4.
Qed.

(** ** The loop over the classes *)

Lemma for_acc_seq_Ok_inv {S} (N : nat) (I : nat -> S -> State -> Prop)
    (body : nat -> S -> M S) :
  (forall k st s st' s', (k < N)%nat -> I k st s ->
     body k st s = (Ok st', s') -> I (Datatypes.S k) st' s') ->
  forall n a st s st' s', (a + n <= N)%nat -> I a st s ->
    for_each_acc (seq a n) body st s = (Ok st', s') -> I (a + n)%nat st' s'.
Proof.
  intro Hb. induction n as [|n IH]; intros a st s st' s' Hle Hs H; simpl in H.
  - apply ret_Ok_inv in H as [-> ->]. now rewrite Nat.add_0_r.
  - apply bind_Ok_inv in H as (st1 & s1 & H1 & H2).
    replace (a + Datatypes.S n)%nat with (Datatypes.S a + n)%nat by lia.
    apply (IH (Datatypes.S a) st1 s1 st' s'); [lia| |exact H2].
    apply (Hb a st s st1 s1); [lia|exact Hs|exact H1].
Qed.

Lemma for_acc_seq_runs {S} (N : nat) (I : S -> State -> Prop)
    (body : nat -> S -> M S) :
  (forall k st s, (k < N)%nat -> I st s ->
     exists st' s', body k st s = (Ok st', s') /\ I st' s') ->
  forall n a st s, (a + n <= N)%nat -> I st s ->
    exists st' s', for_each_acc (seq a n) body st s = (Ok st', s') /\ I st' s'.
Proof.
  intro Hb. induction n as [|n IH]; intros a st s Hle Hs; simpl.
  - exists st, s. split; [reflexivity|exact Hs].
  - destruct (Hb a st s ltac:(lia) Hs) as (st1 & s1 & H1 & Hs1).
    destruct (IH (Datatypes.S a) st1 s1 ltac:(lia) Hs1) as (st' & s' & H' & Hs').
    exists st', s'. split; [|exact Hs'].
    now rewrite (bind_run _ _ _ _ _ H1).
Qed.

Lemma sets_shaped_init v tr n0 :
  sets_shaped v tr n0
    (mk_sets (nd_zeros [(10 * tr)%nat; n0]) (nd_zeros [(10 * v)%nat; n0])
       (nd_zeros [(10 * tr)%nat; 1%nat]) (nd_zeros [(10 * v)%nat; 1%nat])).
Proof.
  unfold sets_shaped, nd_zeros, size_of. cbn [trainX valX trainY valY shape data].
  rewrite !repeat_length. cbn [fold_right]. repeat split; lia.
Qed.

Lemma train_val_sets_Ok v tr fA dq n0 n1 n2 s st s' :
  shape fA = [n0; n1; n2] ->
  env s digitQueues = Some dq -> shape dq = [n0; n1; n2] ->
  (2 * v + tr <= n1)%nat ->
  train_val_sets v tr fA s = (Ok st, s') ->
  s' = s /\ (10 <= n2)%nat /\ sets_shaped v tr n0 st
  /\ forall i, (i < 10)%nat -> class_rows v tr dq n0 n1 n2 st i.
Proof.
  intros HfA Hdq Hsh Hn1. unfold train_val_sets. rewrite HfA. intro H.
  set (I := fun (k : nat) (st : Sets) (t : State) =>
              t = s /\ sets_shaped v tr n0 st
              /\ forall i, (i < k)%nat ->
                   (i < n2)%nat /\ class_rows v tr dq n0 n1 n2 st i).
  assert (HI : I (0 + 10)%nat st s').
  { refine (for_acc_seq_Ok_inv 10 I _ _ 10%nat 0%nat _ s st s' _ _ H).
    - intros k st0 t st1 t1 Hk (-> & Hshaped & Hdone) Hrun.
      destruct (split_class_Ok v tr k st0 s st1 t1 dq n0 n1 n2
                  Hdq Hsh Hn1 Hk Hshaped Hrun)
        as (-> & Hkn & Hshaped' & Hrows & Hkeep).
      split; [reflexivity|]. split; [exact Hshaped'|].
      intros i Hi. destruct (Nat.eq_dec i k) as [->|Hne].
      + split; assumption.
      + destruct (Hdone i ltac:(lia)) as [Hin2 Hr]. split; [exact Hin2|].
        apply Hkeep; [lia|exact Hne|exact Hr].
    - lia.
    - split; [reflexivity|]. split; [apply sets_shaped_init|].
      intros i Hi. lia. }
  destruct HI as (-> & Hshaped & Hdone).
  split; [reflexivity|].
  split. { destruct (Hdone 9%nat ltac:(lia)) as [H9 _]. lia. }
  split; [exact Hshaped|].
  intros i Hi. now apply Hdone.
Qed.

Lemma split_class_runs v tr i st s dq n0 n1 n2 :
  env s digitQueues = Some dq -> shape dq = [n0; n1; n2] ->
  (2 * v + tr <= n1)%nat -> (i < 10)%nat -> (i < n2)%nat ->
  shape (trainX st) = [(10 * tr)%nat; n0] ->
  shape (valX st) = [(10 * v)%nat; n0] ->
  exists st',
    split_class v tr i st s = (Ok st', s)
    /\ shape (trainX st') = [(10 * tr)%nat; n0]
    /\ shape (valX st') = [(10 * v)%nat; n0].
Proof.
  intros Hdq Hsh Hn1 Hi Hin2 HtX HvX. unfold split_class.
  rewrite (bind_run _ _ _ _ _ (getv_run _ _ _ Hdq)).
  unfold bind at 1, lift at 1.
  rewrite (slice_columns_run dq v (v + tr) i n0 n1 n2 Hsh) by lia.
  replace (v + tr - v)%nat with tr by lia.
  destruct (transpose_tab2 n0 tr
              (fun p c => get3 n1 n2 (data dq) p (v + c) i)) as (Hr1 & Hc1 & _).
  destruct (assign_rows_run (trainX st) (i * tr) ((i + 1) * tr) _ (10 * tr) n0
              HtX ltac:(lia) ltac:(nia) ltac:(rewrite Hr1; lia) Hc1) as (tX & Ha1).
  unfold bind at 1, lift at 1. rewrite Ha1.
  rewrite (bind_run _ _ _ _ _ (getv_run _ _ _ Hdq)).
  unfold bind at 1, lift at 1.
  rewrite (slice_columns_run dq (v + tr) (2 * v + tr) i n0 n1 n2 Hsh) by lia.
  replace (2 * v + tr - (v + tr))%nat with v by lia.
  destruct (transpose_tab2 n0 v
              (fun p c => get3 n1 n2 (data dq) p (v + tr + c) i)) as (Hr2 & Hc2 & _).
  destruct (assign_rows_run (valX st) (i * v) ((i + 1) * v) _ (10 * v) n0
              HvX ltac:(lia) ltac:(nia) ltac:(rewrite Hr2; lia) Hc2) as (vX & Ha2).
  unfold bind at 1, lift at 1. rewrite Ha2.
  unfold ret. eexists. split; [reflexivity|].
  cbn [trainX valX].
  unfold assign_rows in Ha1, Ha2.
  destruct (_ && _) in Ha1; [|discriminate].
  destruct (_ && _) in Ha2; [|discriminate].
  inversion Ha1. inversion Ha2. cbn [shape]. split; assumption.
Qed.

Lemma train_val_sets_returns v tr fA dq n0 n1 n2 s :
  shape fA = [n0; n1; n2] ->
  env s digitQueues = Some dq -> shape dq = [n0; n1; n2] ->
  (2 * v + tr <= n1)%nat -> (10 <= n2)%nat ->
  exists st, train_val_sets v tr fA s = (Ok st, s).
Proof.
  intros HfA Hdq Hsh Hn1 Hn2. unfold train_val_sets. rewrite HfA.
  set (I := fun (st : Sets) (t : State) =>
              t = s /\ shape (trainX st) = [(10 * tr)%nat; n0]
              /\ shape (valX st) = [(10 * v)%nat; n0]).
  destruct (for_acc_seq_runs 10 I (split_class v tr)) with
    (n := 10%nat) (a := 0%nat) (s := s)
    (st := mk_sets (nd_zeros [(10 * tr)%nat; n0]) (nd_zeros [(10 * v)%nat; n0])
             (nd_zeros [(10 * tr)%nat; 1%nat]) (nd_zeros [(10 * v)%nat; 1%nat]))
    as (st' & s' & Hrun & (-> & _)).
  - intros k st t Hk (-> & HtX & HvX).
    destruct (split_class_runs v tr k st s dq n0 n1 n2 Hdq Hsh Hn1 Hk
                ltac:(lia) HtX HvX) as (st' & Hrun & HtX' & HvX').
    exists st', s. split; [exact Hrun|]. split; [reflexivity|]. tauto.
  - lia.
  - split; [reflexivity|]. split; reflexivity.
  - exists st'. exact Hrun.
Qed.

(** ** The sets built from the queue *)

(** Lines 238-252 on a queue whose second axis holds the two slices.  When
    they return, the store is unchanged, the queue has at least ten classes,
    and for each class [i]: row [i * tr + k] of [trainX] is column [val + k]
    of plane [i] of the queue, row [i * val + k] of [valX] is column
    [val + tr + k] of that plane, and the labels of these rows are [i]. *)
Theorem train_val_sets_rows val_per_class tr_per_class fA dq n0 n1 n2 s st s' :
  shape fA = [n0; n1; n2] ->
  env s digitQueues = Some dq -> shape dq = [n0; n1; n2] ->
  (2 * val_per_class + tr_per_class <= n1)%nat ->
  train_val_sets val_per_class tr_per_class fA s = (Ok st, s') ->
  s' = s /\ (10 <= n2)%nat /\ sets_shaped val_per_class tr_per_class n0 st
  /\ forall i, (i < 10)%nat ->
       class_rows val_per_class tr_per_class dq n0 n1 n2 st i.
Proof.
  exact (train_val_sets_Ok val_per_class tr_per_class fA dq n0 n1 n2 s st s').
Qed.

Lemma train_val_sets_rows_witness :
  let dq := mk_nd [1%nat; 3%nat; 10%nat]
              (map (fun k => inject_Z (Z.of_nat k)) (seq 0 30)) in
  let s := mk_state (upd empty_env digitQueues dq) 0 in
  let st := mk_sets (mk_nd [10%nat; 1%nat] [10; 11; 12; 13; 14; 15; 16; 17; 18; 19])
                    (mk_nd [10%nat; 1%nat] [20; 21; 22; 23; 24; 25; 26; 27; 28; 29])
                    (mk_nd [10%nat; 1%nat] [0; 1; 2; 3; 4; 5; 6; 7; 8; 9])
                    (mk_nd [10%nat; 1%nat] [0; 1; 2; 3; 4; 5; 6; 7; 8; 9]) in
  shape dq = [1%nat; 3%nat; 10%nat]
  /\ env s digitQueues = Some dq
  /\ (2 * 1 + 1 <= 3)%nat
  /\ train_val_sets 1 1 dq s = (Ok st, s)
  /\ s = s /\ (10 <= 10)%nat /\ sets_shaped 1 1 1 st
  /\ forall i, (i < 10)%nat -> class_rows 1 1 dq 1 3 10 st i.
Proof.
  intros dq s st.
  assert (H1 : shape dq = [1%nat; 3%nat; 10%nat]) by reflexivity.
  assert (H2 : env s digitQueues = Some dq) by reflexivity.
  assert (H3 : (2 * 1 + 1 <= 3)%nat) by lia.
  assert (H4 : train_val_sets 1 1 dq s = (Ok st, s)) by (vm_compute; reflexivity).
  split; [exact H1|]. split; [exact H2|]. split; [exact H3|]. split; [exact H4|].
  exact (train_val_sets_rows 1 1 dq dq 1 3 10 s st s H1 H2 H1 H3 H4).
Defined.

Lemma prepare_run_returns G v tr sn fA n0 n1 n2 s :
  shape fA = [n0; n1; n2] -> (400 <= n1)%nat -> (10 <= n2)%nat ->
  (2 * v + tr * sn <= n1)%nat -> (1 <= sn)%nat ->
  exists st s', prepare_run G v tr sn fA s = (Ok st, s').
Proof.
  intros HfA H400 Hn2 Hn1 Hsn. unfold prepare_run.
  destruct (assemble_digitQueues_returns G v tr sn fA n0 n1 n2 s HfA H400 Hn2 Hn1)
    as (s1 & Hrun).
  rewrite (bind_run _ _ _ _ _ Hrun).
  destruct (assemble_digitQueues_layout G v tr sn fA n0 n1 n2 s s1 HfA Hn1 Hrun)
    as (_ & dq & Hdq & Hsh & _).
  rewrite HfA in Hsh.
  destruct (train_val_sets_returns v tr fA dq n0 n1 n2 s1 HfA Hdq Hsh
              ltac:(nia) Hn2) as (st & Hst).
  now exists st, s1.
Qed.

(** Lines 196-252.  Line 249 takes the validation rows from column
    [val + tr] on, while the training block of the queue ends at column
    [val + tr * num_sniffs].  With two or more sniffs the first
    [tr * (num_sniffs - 1)] validation rows of every class are therefore
    copies of training rows of that class: validation row [k] is training
    row [k mod tr]. *)
Theorem validation_rows_repeat_training_rows G val_per_class tr_per_class
    num_sniffs fA n0 n1 n2 s st s' :
  shape fA = [n0; n1; n2] ->
  (2 * val_per_class + tr_per_class * num_sniffs <= n1)%nat ->
  prepare_run G val_per_class tr_per_class num_sniffs fA s = (Ok st, s') ->
  forall i k p,
    (i < 10)%nat -> (k < val_per_class)%nat ->
    (k < tr_per_class * (num_sniffs - 1))%nat -> (p < n0)%nat ->
    entry (valX st) (i * val_per_class + k) p
    = entry (trainX st) (i * tr_per_class + k mod tr_per_class) p.
Proof.
  intros HfA Hn1 H i k p Hi Hk Hrep Hp.
  set (v := val_per_class) in *. set (tr := tr_per_class) in *.
  set (sn := num_sniffs) in *.
  assert (Htr : (0 < tr)%nat) by nia.
  assert (Hsn : (2 <= sn)%nat) by nia.
  unfold prepare_run in H.
  apply bind_Ok_inv in H as ([] & s1 & Hasm & Hsets).
  destruct (assemble_digitQueues_layout G v tr sn fA n0 n1 n2 s s1 HfA Hn1 Hasm)
    as (_ & dq & Hdq & Hsh & Hlay).
  rewrite HfA in Hsh.
  destruct (train_val_sets_Ok v tr fA dq n0 n1 n2 s1 st s' HfA Hdq Hsh
              ltac:(nia) Hsets) as (_ & _ & _ & Hrows).
  destruct (Hrows i Hi) as (R1 & R2 & _ & _).
  destruct (Hlay i Hi) as (bs & ts & ps & _ & _ & _ & Hcols).
  destruct (Hcols p Hp) as (_ & L2 & _).
  assert (Hmod : (k mod tr < tr)%nat) by (apply Nat.mod_upper_bound; lia).
  assert (Hdiv : (k / tr < sn - 1)%nat)
    by (apply Nat.Div0.div_lt_upper_bound; exact Hrep).
  rewrite R2 by assumption. rewrite R1 by assumption.
  replace (v + tr + k)%nat with (v + ((1 + k / tr) * tr + k mod tr))%nat
    by (pose proof (Nat.div_mod_eq k tr); nia).
  rewrite (L2 (1 + k / tr)%nat (k mod tr)) by lia.
  replace (v + k mod tr)%nat with (v + (0 * tr + k mod tr))%nat by lia.
  rewrite (L2 0%nat (k mod tr)) by lia.
  reflexivity.
Qed.

Lemma validation_rows_repeat_training_rows_witness :
  let fA := mk_nd [1%nat; 400%nat; 10%nat]
              (map (fun k => inject_Z (Z.of_nat k)) (seq 0 4000)) in
  shape fA = [1%nat; 400%nat; 10%nat]
  /\ (2 * 15 + 3 * 2 <= 400)%nat
  /\ exists st s',
      prepare_run stepping_generator 15 3 2 fA fresh_state = (Ok st, s')
      /\ forall i k p,
           (i < 10)%nat -> (k < 15)%nat -> (k < 3 * (2 - 1))%nat -> (p < 1)%nat ->
           entry (valX st) (i * 15 + k) p = entry (trainX st) (i * 3 + k mod 3) p.
Proof.
  intro fA.
  assert (H1 : shape fA = [1%nat; 400%nat; 10%nat]) by reflexivity.
  assert (H2 : (2 * 15 + 3 * 2 <= 400)%nat) by lia.
  split; [exact H1|]. split; [exact H2|].
  destruct (prepare_run_returns stepping_generator 15 3 2 fA 1 400 10 fresh_state
              H1 ltac:(lia) ltac:(lia) H2 ltac:(lia)) as (st & s' & Hrun).
  exists st, s'. split; [exact Hrun|].
  exact (validation_rows_repeat_training_rows stepping_generator 15 3 2 fA
           1 400 10 fresh_state st s' H1 H2 Hrun).
Defined.

(** Lines 196-252 with one sniff per training sample.  For each class the
    rows of [trainX] are images of that class from the training pool, the
    rows of [valX] are images of that class from the post-training pool, and
    both carry the label of the class. *)
Theorem single_sniff_sets_come_from_their_pools G val_per_class tr_per_class
    fA n0 n1 n2 s st s' :
  shape fA = [n0; n1; n2] ->
  (2 * val_per_class + tr_per_class <= n1)%nat ->
  prepare_run G val_per_class tr_per_class 1 fA s = (Ok st, s') ->
  forall i, (i < 10)%nat ->
  exists ts ps : list nat,
    (length ts = tr_per_class /\ Forall (fun x => In x indPoolForTrain) ts)
    /\ (length ps = val_per_class
        /\ Forall (fun x => In x indPoolForPostTrain) ps)
    /\ (forall k p, (k < tr_per_class)%nat -> (p < n0)%nat ->
          entry (trainX st) (i * tr_per_class + k) p
          = get3 n1 n2 (data fA) p (nth k ts 0%nat) i)
    /\ (forall k p, (k < val_per_class)%nat -> (p < n0)%nat ->
          entry (valX st) (i * val_per_class + k) p
          = get3 n1 n2 (data fA) p (nth k ps 0%nat) i)
    /\ (forall k, (k < tr_per_class)%nat ->
          entry (trainY st) (i * tr_per_class + k) 0 = inject_Z (Z.of_nat i))
    /\ (forall k, (k < val_per_class)%nat ->
          entry (valY st) (i * val_per_class + k) 0 = inject_Z (Z.of_nat i)).
Proof.
  intros HfA Hn1 H i Hi.
  set (v := val_per_class) in *. set (tr := tr_per_class) in *.
  unfold prepare_run in H.
  apply bind_Ok_inv in H as ([] & s1 & Hasm & Hsets).
  destruct (assemble_digitQueues_layout G v tr 1 fA n0 n1 n2 s s1 HfA
              ltac:(lia) Hasm) as (_ & dq & Hdq & Hsh & Hlay).
  rewrite HfA in Hsh.
  destruct (train_val_sets_Ok v tr fA dq n0 n1 n2 s1 st s' HfA Hdq Hsh Hn1 Hsets)
    as (_ & _ & _ & Hrows).
  destruct (Hrows i Hi) as (R1 & R2 & R3 & R4).
  destruct (Hlay i Hi) as (bs & ts & ps & _ & Hts & Hps & Hcols).
  exists ts, ps. split; [exact Hts|]. split; [exact Hps|].
  split; [|split; [|split; assumption]].
  - intros k p Hk Hp. destruct (Hcols p Hp) as (_ & L2 & _).
    rewrite R1 by assumption.
    replace (v + k)%nat with (v + (0 * tr + k))%nat by lia.
    apply L2; lia.
  - intros k p Hk Hp. destruct (Hcols p Hp) as (_ & _ & L3).
    rewrite R2 by assumption.
    replace (v + tr + k)%nat with (v + tr * 1 + k)%nat by lia.
    now apply L3.
Qed.

Lemma single_sniff_sets_come_from_their_pools_witness :
  let fA := mk_nd [1%nat; 400%nat; 10%nat]
              (map (fun k => inject_Z (Z.of_nat k)) (seq 0 4000)) in
  shape fA = [1%nat; 400%nat; 10%nat]
  /\ (2 * 15 + 3 <= 400)%nat
  /\ exists st s',
      prepare_run stepping_generator 15 3 1 fA fresh_state = (Ok st, s')
      /\ forall i, (i < 10)%nat ->
         exists ts ps : list nat,
           (length ts = 3%nat /\ Forall (fun x => In x indPoolForTrain) ts)
           /\ (length ps = 15%nat /\ Forall (fun x => In x indPoolForPostTrain) ps)
           /\ (forall k p, (k < 3)%nat -> (p < 1)%nat ->
                 entry (trainX st) (i * 3 + k) p
                 = get3 400 10 (data fA) p (nth k ts 0%nat) i)
           /\ (forall k p, (k < 15)%nat -> (p < 1)%nat ->
                 entry (valX st) (i * 15 + k) p
                 = get3 400 10 (data fA) p (nth k ps 0%nat) i)
           /\ (forall k, (k < 3)%nat ->
                 entry (trainY st) (i * 3 + k) 0 = inject_Z (Z.of_nat i))
           /\ (forall k, (k < 15)%nat ->
                 entry (valY st) (i * 15 + k) 0 = inject_Z (Z.of_nat i)).
Proof.
  intro fA.
  assert (H1 : shape fA = [1%nat; 400%nat; 10%nat]) by reflexivity.
  assert (H2 : (2 * 15 + 3 <= 400)%nat) by lia.
  split; [exact H1|]. split; [exact H2|].
  destruct (prepare_run_returns stepping_generator 15 3 1 fA 1 400 10 fresh_state
              H1 ltac:(lia) ltac:(lia) ltac:(lia) ltac:(lia)) as (st & s' & Hrun).
  exists st, s'. split; [exact Hrun|].
  exact (single_sniff_sets_come_from_their_pools stepping_generator 15 3 fA
           1 400 10 fresh_state st s' H1 H2 Hrun).
Defined.

(* ------------------------------------------------------------------ *)
(** * The fixed fan-in beyond receptor 0                                *)
(* ------------------------------------------------------------------ *)

(** ** Rows and their sums *)

Lemma firstn_skipn_nth {A} (l : list A) (a f : nat) (d : A) :
  (a + f <= length l)%nat ->
  firstn f (skipn a l) = map (fun k => nth k l d) (seq a f).
Proof.
  intro H. apply (nth_ext _ _ d d).
  - rewrite length_firstn, length_skipn, length_map, length_seq. lia.
  - intros i Hi. rewrite length_firstn, length_skipn in Hi.
    rewrite nth_firstn.
    replace (i <? f)%nat with true by (symmetry; apply Nat.ltb_lt; lia).
    rewrite nth_skipn.
    rewrite nth_map_seq by lia. reflexivity.
Qed.

Lemma row_of_nth (b : ndarray) (n f r : nat) :
  shape b = [n; f] -> length (data b) = (n * f)%nat -> (r < n)%nat ->
  row_of b r = map (fun k => nth k (data b) 0) (seq (r * f) f).
Proof.
  intros Hsh Hlen Hr. unfold row_of, ncols. rewrite Hsh. cbn [nth].
  apply firstn_skipn_nth. rewrite Hlen. nia.
Qed.

Lemma Qsum_zero (l : list Q) : Forall (fun x => x == 0) l -> Qsum l == 0.
Proof.
  induction 1 as [|x l Hx _ IH]; simpl; [reflexivity|].
  rewrite Hx, IH. reflexivity.
Qed.

(** Changing one term of a sum to a value at most 1 above it. *)
Lemma Qsum_map_bump (l : list nat) (g g' : nat -> Q) (k0 : nat) :
  NoDup l ->
  (forall x, In x l -> x <> k0 -> g' x = g x) ->
  g' k0 <= g k0 + 1 ->
  Qsum (map g' l) <= Qsum (map g l) + (if existsb (Nat.eqb k0) l then 1 else 0).
Proof.
  intros Hnd Hsame Hk. induction l as [|x l IH]; simpl.
  - lra.
  - inversion Hnd as [|? ? Hx Hnd']; subst.
    destruct (Nat.eqb_spec k0 x) as [->|Hne].
    + cbn [orb].
      assert (Hrest : map g' l = map g l).
      { apply map_ext_in. intros y Hy. apply Hsame; [now right|].
        intros ->. contradiction. }
      rewrite Hrest. lra.
    + cbn [orb].
      rewrite (Hsame x (or_introl eq_refl)) by congruence.
      specialize (IH Hnd' (fun y Hy => Hsame y (or_intror Hy))).
      lra.
Qed.

Lemma mem_nat_iff (p : nat) (l : list nat) : mem_nat p l = true <-> In p l.
Proof.
  unfold mem_nat. rewrite existsb_exists. split.
  - intros (x & Hx & E). apply Nat.eqb_eq in E. now subst.
  - intro H. exists p. split; [exact H|apply Nat.eqb_refl].
Qed.

(** ** One turn of the loop *)

Lemma where_lt_counts (c : ndarray) (m : Q) (n r : nat) :
  shape c = [n; 1%nat] ->
  (mem_nat r (fst (where_lt c m)) = true -> nth r (data c) 0 < m)
  /\ (mem_nat r (snd (where_lt c m)) = true -> r = 0%nat).
Proof.
  intro Hsh. unfold where_lt, ncols. rewrite Hsh. cbn [nth fst snd].
  split; intro H; apply mem_nat_iff in H; apply in_map_iff in H as (k & Hk & Hin).
  - rewrite Nat.div_1_r in Hk. subst k.
    apply filter_In in Hin as [_ Hlt]. now apply Qlt_bool_iff.
  - rewrite Nat.mod_1_r in Hk. now symmetry.
Qed.

Lemma fancy_add1_value c idx c' n :
  shape c = [n; 1%nat] -> length (data c) = n ->
  fancy_add1 c idx = Ok c' ->
  shape c' = [n; 1%nat] /\ length (data c') = n
  /\ forall r, (r < n)%nat ->
       nth r (data c') 0 =
       if mem_nat r idx then nth r (data c) 0 + 1 else nth r (data c) 0.
Proof.
  intros Hsh Hlen. unfold fancy_add1, ncols. rewrite Hsh. cbn [nth].
  destruct (forallb _ idx); [|discriminate].
  intro H. inversion H; subst c'; clear H.
  split; [reflexivity|]. split; [cbn [data]; len_simpl; exact Hlen|].
  intros r Hr. cbn [data]. rewrite nth_map_seq by lia.
  cbn [Nat.add]. change (fst (Nat.divmod r 0 0 0)) with (r / 1)%nat.
  now rewrite Nat.div_1_r.
Qed.

Lemma fancy_set_col_rows b idx j b' n f :
  shape b = [n; f] -> length (data b) = (n * f)%nat -> binary b ->
  fancy_set_col b idx j 1 = Ok b' ->
  shape b' = [n; f] /\ length (data b') = (n * f)%nat
  /\ forall r, (r < n)%nat ->
       (mem_nat r idx = false -> row_of b' r = row_of b r)
       /\ Qsum (row_of b' r) <= Qsum (row_of b r) + 1.
Proof.
  intros Hsh Hlen Hbin Hset.
  destruct (fancy_set_col_Ok _ _ _ _ _ Hset) as [Hsh' Hlen'].
  rewrite Hsh in Hsh'. rewrite Hlen in Hlen'.
  split; [exact Hsh'|]. split; [exact Hlen'|].
  intros r Hr.
  rewrite (row_of_nth b' n f r Hsh' Hlen' Hr).
  rewrite (row_of_nth b n f r Hsh Hlen Hr).
  unfold fancy_set_col, ncols in Hset. rewrite Hsh in Hset. cbn [nth] in Hset.
  destruct (_ && _) in Hset; [|discriminate].
  inversion Hset as [Hb']. clear Hset. subst b'. cbn [data].
  assert (Hval : forall k, In k (seq (r * f) f) ->
            nth k (map (fun k0 =>
                          if mem_nat (k0 / f) idx && (k0 mod f =? j)%nat
                          then 1 else nth k0 (data b) 0)
                       (seq 0 (length (data b)))) 0
            = if mem_nat r idx && (k mod f =? j)%nat
              then 1 else nth k (data b) 0).
  { intros k Hk. apply in_seq in Hk.
    rewrite nth_map_seq by (rewrite Hlen; nia). cbn [Nat.add].
    replace (k / f)%nat with r; [reflexivity|].
    apply Nat.div_unique with (k - r * f)%nat; lia. }
  split.
  - intro Hmem. apply map_ext_in. intros k Hk.
    rewrite (Hval k Hk), Hmem. reflexivity.
  - rewrite (map_ext_in _ _ _ Hval).
    destruct (mem_nat r idx).
    + cbn [andb].
      pose proof (Qsum_map_bump (seq (r * f) f)
                    (fun k => nth k (data b) 0)
                    (fun k => if (k mod f =? j)%nat then 1 else nth k (data b) 0)
                    (r * f + j mod f)%nat (seq_NoDup f (r * f))) as Hbump.
      assert (H0 : forall k, 0 <= nth k (data b) 0).
      { intro k.
        assert (Hk : nth k (data b) 0 = 0 \/ nth k (data b) 0 = 1)
          by (apply (nth_default_ok (fun x => x = 0 \/ x = 1));
              [now left|exact Hbin]).
        destruct Hk as [-> | ->]; lra. }
      destruct (Nat.lt_ge_cases j f) as [Hj|Hj].
      * rewrite Nat.mod_small in Hbump by exact Hj.
        eapply Qle_trans; [apply Hbump|].
        -- intros x Hx Hne. apply in_seq in Hx.
           destruct (Nat.eqb_spec (x mod f) j) as [E|E]; [|reflexivity].
           exfalso. apply Hne.
           pose proof (Nat.div_mod_eq x f) as Hdm.
           assert (x / f = r)%nat
             by (symmetry; apply Nat.div_unique with (x - r * f)%nat; lia).
           nia.
        -- destruct (_ =? j)%nat; [specialize (H0 (r * f + j)%nat); lra|lra].
        -- destruct (existsb _ _); lra.
      * assert (Hsame : map (fun k => if (k mod f =? j)%nat then 1
                                     else nth k (data b) 0) (seq (r * f) f)
                        = map (fun k => nth k (data b) 0) (seq (r * f) f)).
        { apply map_ext_in. intros k Hk. apply in_seq in Hk.
          destruct (Nat.eqb_spec (k mod f) j) as [E|E]; [|reflexivity].
          pose proof (Nat.mod_upper_bound k f ltac:(lia)). lia. }
        rewrite Hsame. lra.
    + cbn [andb]. lra.
Qed.

Lemma connect_feature_cap G (M : Z) j s s' c b n f :
  env s counts = Some c -> env s F2Rbinary = Some b ->
  fan_in_within M n f c b ->
  connect_feature G (inject_Z M) j s = (Ok tt, s') ->
  exists c' b',
    env s' counts = Some c' /\ env s' F2Rbinary = Some b'
    /\ fan_in_within M n f c' b'.
Proof.
  intros Hc Hb ((Hcsh & Hclen) & (Hbsh & Hblen) & Hbin & Hcap).
  unfold connect_feature. intro H.
  apply bind_Ok_inv in H as (c0 & t & Ht & H).
  apply getv_Ok_inv in Ht as [Hc0 ->]. rewrite Hc in Hc0. injection Hc0 as <-.
  apply bind_Ok_inv in H as (a & t & Ht & H).
  unfold randint in Ht. simpl in Ht. injection Ht as Ha Hs. subst a t.
  set (idx := if (raw G (rng s) mod 2 =? 0)%Z
              then fst (where_lt c (inject_Z M))
              else snd (where_lt c (inject_Z M))) in *.
  apply bind_Ok_inv in H as (c' & t & Ht & H).
  apply lift_Ok_inv in Ht as [Hadd ->].
  apply bind_Ok_inv in H as ([] & t & Ht & H).
  apply setv_Ok_inv in Ht. subst t.
  apply bind_Ok_inv in H as (b0 & t & Ht & H).
  apply getv_Ok_inv in Ht as [Hb0 ->]. simpl_env.
  rewrite Hb in Hb0. injection Hb0 as <-.
  apply bind_Ok_inv in H as (b' & t & Ht & H).
  apply lift_Ok_inv in Ht as [Hset ->].
  apply setv_Ok_inv in H. subst s'. simpl_env.
  destruct (fancy_add1_value c idx c' n Hcsh Hclen Hadd) as (Hc'sh & Hc'len & Hc'val).
  destruct (fancy_set_col_rows b idx j b' n f Hbsh Hblen Hbin Hset)
    as (Hb'sh & Hb'len & Hrows).
  exists c', b'. split; [reflexivity|]. split; [reflexivity|].
  split; [split; assumption|]. split; [split; assumption|].
  split; [exact (fancy_set_col_binary _ _ _ _ Hset Hbin)|].
  intros r Hr1 Hrn.
  destruct (Hcap r Hr1 Hrn) as (z & Hz & HzM & Hsum).
  destruct (Hrows r Hrn) as (Hsame & Hbump).
  rewrite (Hc'val r Hrn).
  destruct (mem_nat r idx) eqn:Hmem.
  - assert (Hlt : nth r (data c) 0 < inject_Z M).
    { destruct (where_lt_counts c (inject_Z M) n r Hcsh) as [Hrow Hcol].
      unfold idx in Hmem. destruct (_ =? 0)%Z.
      - now apply Hrow.
      - apply Hcol in Hmem. lia. }
    exists (z + 1)%Z. rewrite inject_Z_plus.
    split; [rewrite Hz; reflexivity|].
    split.
    + rewrite Hz in Hlt. rewrite <- Zlt_Qlt in Hlt. lia.
    + change (inject_Z 1) with 1. lra.
  - exists z. split; [exact Hz|]. split; [exact HzM|].
    now rewrite (Hsame eq_refl).
Qed.

Lemma fan_in_within_init (M : Z) (n f : nat) :
  (0 <= M)%Z ->
  fan_in_within M n f (nd_zeros [n; 1%nat]) (nd_zeros [n; f]).
Proof.
  intro HM.
  assert (Hc : length (data (nd_zeros [n; 1%nat])) = n).
  { unfold nd_zeros, size_of. cbn [data fold_right]. rewrite repeat_length. lia. }
  assert (Hb : length (data (nd_zeros [n; f])) = (n * f)%nat).
  { unfold nd_zeros, size_of. cbn [data fold_right]. rewrite repeat_length. lia. }
  split; [split; [reflexivity|exact Hc]|].
  split; [split; [reflexivity|exact Hb]|].
  split.
  { unfold binary, all_entries, nd_zeros. cbn [data].
    apply Forall_forall. intros y Hy. apply repeat_spec in Hy. now left. }
  intros r Hr1 Hrn. exists 0%Z.
  split.
  { unfold nd_zeros. cbn [data]. rewrite nth_repeat. reflexivity. }
  split; [exact HM|].
  rewrite (row_of_nth (nd_zeros [n; f]) n f r eq_refl Hb Hrn).
  rewrite Qsum_zero; [apply Qle_refl|].
  apply Forall_forall. intros y Hy. apply in_map_iff in Hy as (k & <- & _).
  unfold nd_zeros. cbn [data]. rewrite nth_repeat. reflexivity.
Qed.

Lemma step_F2Rbinary_cap G mP s s' :
  RperFFrMu mP <= 0 -> (0 <= RperFRawNum mP)%Z ->
  step_F2Rbinary G mP s = (Ok tt, s') ->
  exists c b,
    env s' counts = Some c /\ env s' F2Rbinary = Some b
    /\ fan_in_within
         (Qceiling (inject_Z (nF mP * RperFRawNum mP) / inject_Z (nR mP)))
         (Z.to_nat (nR mP)) (Z.to_nat (nF mP)) c b.
Proof.
  intros Hff Hraw. unfold step_F2Rbinary.
  apply Qlt_bool_false_iff in Hff. rewrite Hff. intro H.
  apply bind_Ok_inv in H as (z & s1 & H1 & H).
  apply np_zeros_Ok_inv in H1 as (Hd & -> & ->).
  apply bind_Ok_inv in H as ([] & s1 & H1 & H).
  apply setv_Ok_inv in H1. subst s1.
  apply bind_Ok_inv in H as (c & s1 & H1 & H).
  apply np_zeros_Ok_inv in H1 as (_ & -> & ->).
  apply bind_Ok_inv in H as ([] & s1 & H1 & H).
  apply setv_Ok_inv in H1. subst s1. simpl_env.
  apply bind_Ok_inv in H as (q & s1 & H1 & H).
  apply py_div_Ok_inv in H1 as (Hne & Hq & ->).
  inversion Hd as [|? ? HnR Hd']; subst. inversion Hd' as [|? ? HnF _]; subst.
  set (M := Qceiling (inject_Z (nF mP * RperFRawNum mP) / inject_Z (nR mP))).
  set (n := Z.to_nat (nR mP)). set (f := Z.to_nat (nF mP)).
  assert (HM : (0 <= M)%Z).
  { unfold M. change 0%Z with (Qceiling 0). apply Qceiling_resp_le.
    assert (HR : 0 < inject_Z (nR mP)).
    { assert (nR mP <> 0)%Z.
      { intro E. apply Hne. rewrite E. reflexivity. }
      change 0 with (inject_Z 0). rewrite <- Zlt_Qlt. lia. }
    apply Qle_shift_div_l; [exact HR|]. rewrite Qmult_0_l.
    apply inject_Z_ge0. nia. }
  set (I := fun t : State =>
              exists c b, env t counts = Some c /\ env t F2Rbinary = Some b
                          /\ fan_in_within M n f c b).
  unfold for_range in H.
  refine (for_each_Ok_inv I _ _ _ _ s' _ H).
  - intros _ t t' _ Ht Hin.
    refine (for_each_Ok_inv I _ _ _ t t' Ht Hin).
    intros j u u' _ (c & b & Hc & Hb & Hinv) Hrun.
    fold M in Hrun.
    exact (connect_feature_cap G M j u u' c b n f Hc Hb Hinv Hrun).
  - do 2 eexists. split; [reflexivity|]. split; [reflexivity|].
    now apply fan_in_within_init.
Qed.

(** ** The cap *)

(** In the fixed fan-in mode with [RperFRawNum >= 0], whenever the function
    returns, no receptor other than receptor 0 is connected to more than
    [maxFperR = ceil(nF * RperFRawNum / nR)] features (line 42): the index
    array of line 47 holds a receptor [r >= 1] only while its count is below
    the cap.  Receptor 0 is also reached through the column indices of
    [np.where], whatever its count. *)
Theorem fan_in_cap_beyond_receptor_0 G mP s s' :
  RperFFrMu mP <= 0 -> (0 <= RperFRawNum mP)%Z ->
  initializeConnectionMatrices G mP s = (Ok tt, s') ->
  exists b,
    env s' F2Rbinary = Some b
    /\ forall r, (1 <= r)%nat -> (r < Z.to_nat (nR mP))%nat ->
         Qsum (row_of b r)
         <= inject_Z (Qceiling (inject_Z (nF mP * RperFRawNum mP)
                                / inject_Z (nR mP))).
Proof.
  intros Hff Hraw H. split_run_keep H.
  destruct (step_F2Rbinary_cap G mP s s1 Hff Hraw E1)
    as (c0 & b0 & _ & Hb0 & _ & _ & _ & Hcap).
  rewrite Hb in Hb0. injection Hb0 as <-.
  exists b.
  split. { keep Hf7. keep Hf6. keep Hf5. keep Hf4. keep Hf3. keep Hf2. exact Hb. }
  intros r Hr1 Hrn.
  destruct (Hcap r Hr1 Hrn) as (z & _ & HzM & Hsum).
  eapply Qle_trans; [exact Hsum|].
  rewrite <- Zle_Qle. exact HzM.
Qed.

Lemma fan_in_cap_beyond_receptor_0_witness :
  let G := constant_generator 1 in
  let mP := template_params in
  let s' := snd (initializeConnectionMatrices G mP fresh_state) in
  RperFFrMu mP <= 0 /\ (0 <= RperFRawNum mP)%Z
  /\ initializeConnectionMatrices G mP fresh_state = (Ok tt, s')
  /\ exists b,
      env s' F2Rbinary = Some b
      /\ forall r, (1 <= r)%nat -> (r < Z.to_nat (nR mP))%nat ->
           Qsum (row_of b r)
           <= inject_Z (Qceiling (inject_Z (nF mP * RperFRawNum mP)
                                  / inject_Z (nR mP))).
Proof.
  intros G mP s'.
  assert (H1 : RperFFrMu mP <= 0) by (simpl; lra).
  assert (H2 : (0 <= RperFRawNum mP)%Z) by (simpl; lia).
  assert (Hrun : initializeConnectionMatrices G mP fresh_state = (Ok tt, s'))
    by (vm_compute; reflexivity).
  split; [exact H1|]. split; [exact H2|]. split; [exact Hrun|].
  exact (fan_in_cap_beyond_receptor_0 G mP fresh_state s' H1 H2 Hrun).
Defined.

(* ------------------------------------------------------------------ *)
(** * The complete lateral network                                      *)
(* ------------------------------------------------------------------ *)

Lemma length_filter_map {A B} (f : B -> bool) (g : A -> B) (l : list A) :
  length (filter f (map g l)) = length (filter (fun x => f (g x)) l).
Proof.
  induction l as [|x l IH]; simpl; [reflexivity|].
  destruct (f (g x)); simpl; now rewrite IH.
Qed.

(** Counting the entries that pass a test, by their indices. *)
Lemma count_index {A} (p : A -> bool) (l : list A) (d : A) :
  count p l = length (filter (fun k => p (nth k l d)) (seq 0 (length l))).
Proof.
  unfold count. induction l as [|x l IH]; [reflexivity|].
  cbn [length seq filter nth]. rewrite <- seq_shift.
  destruct (p x); cbn [length]; rewrite length_filter_map, IH; reflexivity.
Qed.

Lemma NoDup_map_inj (f : nat -> nat) (l : list nat) :
  (forall x y, f x = f y -> x = y) -> NoDup l -> NoDup (map f l).
Proof.
  intros Hinj. induction 1 as [|x l Hx _ IH]; simpl; constructor; [|exact IH].
  intro Hin. apply in_map_iff in Hin as (y & Hy & Hyl).
  apply Hinj in Hy. subst y. contradiction.
Qed.

(** A square buffer with a zero diagonal has at least [n] zeros. *)
Lemma count_ge_diag (n : nat) (buf : list Q) :
  diag0 n buf -> length buf = (n * n)%nat ->
  (n <= count (fun x => Qeq_bool x 0) buf)%nat.
Proof.
  intros Hd Hlen. rewrite (count_index _ buf 0), Hlen.
  set (D := map (fun i => (i * n + i)%nat) (seq 0 n)).
  assert (HD : length D = n) by (unfold D; now len_simpl).
  rewrite <- HD at 1. apply NoDup_incl_length.
  - apply NoDup_map_inj; [|apply seq_NoDup]. intros x y Hxy. nia.
  - intros k Hk. apply in_map_iff in Hk as (i & <- & Hi). apply in_seq in Hi.
    apply filter_In. split.
    + apply in_seq. nia.
    + apply Qeq_bool_iff. apply Hd. lia.
Qed.

(** With [L2Gfr >= 1] line 88 asks for no entry to be zeroed. *)
Lemma numToKill_nonpositive mP (l : ndarray) :
  (0 <= nG mP)%Z -> 1 <= L2Gfr mP ->
  length (data l) = (Z.to_nat (nG mP) * Z.to_nat (nG mP))%nat ->
  diag0 (Z.to_nat (nG mP)) (data l) ->
  (numToKill_of mP (numZero_of mP l) <= 0)%Z.
Proof.
  intros HnG Hfr Hlen Hd.
  pose proof (count_ge_diag _ _ Hd Hlen) as Hc.
  unfold numToKill_of.
  apply Z.le_trans with (Qfloor 0); [|vm_compute; discriminate].
  apply Qfloor_resp_le.
  assert (HN : 0 <= inject_Z (nG mP ^ 2 - nG mP)).
  { apply inject_Z_ge0. rewrite Z.pow_2_r. nia. }
  assert (HZ : 0 <= inject_Z (numZero_of mP l)).
  { apply inject_Z_ge0. unfold numZero_of. lia. }
  assert (0 <= (L2Gfr mP - 1) * inject_Z (nG mP ^ 2 - nG mP)).
  { apply Qmult_le_0_compat; [lra|exact HN]. }
  lra.
Qed.

Lemma L2G_before_downsampling_facts G mP start :
  let n := Z.to_nat (nG mP) in
  let l2 := L2G_before_downsampling G mP start in
  length (data l2) = (n * n)%nat /\ diag0 n (data l2)
  /\ forall i j, (i < n)%nat -> (j < n)%nat -> i <> j ->
       entry l2 i j
       == clip_min 0 (L2Gmu mP + L2Gstd mP * uniform G (start + (i * n + j))).
Proof.
  intros n l2. unfold L2G_before_downsampling in l2. fold n in l2.
  set (l1 := nd_map (clip_min 0)
               (nd_map (fun x => L2Gmu mP + L2Gstd mP * x)
                  (mk_nd [n; n] (map (uniform G) (seq start (n * n)))))) in *.
  assert (Hsh1 : shape l1 = [n; n]) by reflexivity.
  assert (Hlen1 : length (data l1) = (n * n)%nat).
  { unfold l1. simpl. now len_simpl. }
  assert (Hnn1 : all_entries (fun x => 0 <= x) l1).
  { apply all_nd_map. intro x. apply clip_min_ge. }
  destruct (sub_diag_facts n l1 Hsh1 Hlen1 Hnn1) as (_ & Hlen2 & _ & Hd2).
  split; [exact Hlen2|]. split; [exact Hd2|].
  intros i j Hi Hj Hne.
  pose proof (index2_lt n n i j Hi Hj) as Hlt.
  unfold entry, get2, ncols, l2, nd_map2. cbn [shape data].
  rewrite Hsh1. cbn [nth].
  assert (Hdl : length (data (diag_of_diag l1)) = (n * n)%nat).
  { unfold diag_of_diag, tab2, nrows, ncols. rewrite Hsh1. simpl. now len_simpl. }
  rewrite (nth_map2 Qminus _ _ _ 0 0 0) by lia.
  unfold diag_of_diag, tab2, nrows, ncols. rewrite Hsh1. cbn [nth data].
  rewrite nth_map_seq by exact Hlt. cbn [Nat.add].
  rewrite index2_div, index2_mod by exact Hj.
  replace (i =? j)%nat with false by (symmetry; now apply Nat.eqb_neq).
  unfold l1, nd_map. cbn [data].
  rewrite (nth_map_lt _ _ _ 0 0) by (len_simpl; exact Hlt).
  rewrite (nth_map_lt _ _ _ 0 0) by (len_simpl; exact Hlt).
  rewrite nth_map_seq by exact Hlt.
  ring.
Qed.

(** With [L2Gfr >= 1] no lateral connection is removed.  For [L2Gmu > 0],
    [L2Gstd >= 0] and [GsensMu > 0], whenever the function returns, every
    off-diagonal entry of [L2G] is strictly positive: the down-sampling of
    lines 89-92 does not run. *)
Theorem full_L2Gfr_keeps_every_lateral_connection G mP s s' :
  1 <= L2Gfr mP -> 0 < L2Gmu mP -> 0 <= L2Gstd mP -> 0 < GsensMu mP ->
  initializeConnectionMatrices G mP s = (Ok tt, s') ->
  exists l,
    env s' L2G = Some l
    /\ forall i j, (i < Z.to_nat (nG mP))%nat -> (j < Z.to_nat (nG mP))%nat ->
         i <> j -> 0 < entry l i j.
Proof.
  intros Hfr Hmu Hsd Hgs H. split_run_keep H.
  destruct (step_L2G_entries G mP s4 s5 E5) as (l0 & Hl0 & Hl0sh & Hent).
  rewrite Hlat in Hl0. injection Hl0 as <-.
  destruct (L2G_before_downsampling_facts G mP (rng s4)) as (Hlen2 & Hd2 & He2).
  pose proof (numToKill_nonpositive mP _ HnG Hfr Hlen2 Hd2) as Hk.
  eexists. split; [keep Hf7; exact Hlat6|].
  intros i j Hi Hj Hne.
  pose proof (index2_lt _ _ i j Hi Hj) as Hlt.
  unfold entry, get2, ncols, nd_map. cbn [shape data]. rewrite Hlatsh. cbn [nth].
  rewrite (nth_map_lt _ _ _ 0 0) by (rewrite Hlatlen; exact Hlt).
  specialize (Hent i j Hi Hj).
  replace (0 <? numToKill_of mP (numZero_of mP (L2G_before_downsampling G mP (rng s4))))%Z
    with false in Hent by (symmetry; apply Z.ltb_ge; exact Hk).
  unfold entry at 1, get2, ncols in Hent. rewrite Hlatsh in Hent. cbn [nth] in Hent.
  rewrite Hent, (He2 i j Hi Hj Hne).
  pose proof (uniform_ge0 G (rng s4 + (i * Z.to_nat (nG mP) + j))) as Hu.
  set (u := uniform G _) in *.
  assert (Hpos : 0 < L2Gmu mP + L2Gstd mP * u).
  { assert (0 <= L2Gstd mP * u) by (apply mult_ge0; assumption). lra. }
  unfold clip_min.
  destruct (Qlt_bool _ 0) eqn:E.
  - apply Qlt_bool_iff in E. lra.
  - apply Qmult_lt_0_compat; assumption.
Qed.

Lemma full_L2Gfr_keeps_every_lateral_connection_witness :
  let G := stepping_generator in
  let mP := with_L2Gfr 1 template_params in
  let s' := snd (initializeConnectionMatrices G mP fresh_state) in
  1 <= L2Gfr mP /\ 0 < L2Gmu mP /\ 0 <= L2Gstd mP /\ 0 < GsensMu mP
  /\ initializeConnectionMatrices G mP fresh_state = (Ok tt, s')
  /\ exists l,
      env s' L2G = Some l
      /\ forall i j, (i < Z.to_nat (nG mP))%nat -> (j < Z.to_nat (nG mP))%nat ->
           i <> j -> 0 < entry l i j.
Proof.
  intros G mP s'.
  assert (H1 : 1 <= L2Gfr mP) by (simpl; lra).
  assert (H2 : 0 < L2Gmu mP) by (simpl; lra).
  assert (H3 : 0 <= L2Gstd mP) by (simpl; lra).
  assert (H4 : 0 < GsensMu mP) by (simpl; lra).
  assert (Hrun : initializeConnectionMatrices G mP fresh_state = (Ok tt, s'))
    by (vm_compute; reflexivity).
  split; [exact H1|]. split; [exact H2|]. split; [exact H3|]. split; [exact H4|].
  split; [exact Hrun|].
  exact (full_L2Gfr_keeps_every_lateral_connection G mP fresh_state s'
           H1 H2 H3 H4 Hrun).
Defined.
